(** * pdfiler: a shallow embedding of [pdfiler.py] and its specification

    The script is a linear pipeline: collect candidate paths, validate them
    with Pillow, transcode every validated path, hand the images to Pillow's
    PDF writer and optionally delete the sources.  It is effectful throughout
    (file system, standard streams, the imaging library), so it is embedded
    as a program in a state-and-exception monad over an explicit file system
    and a trace of the calls the script makes to the outside world. *)

From stdpp Require Import gmap strings list fin_maps pretty.
From Stdlib Require Import ZArith Ascii Sorting.Sorted Sorting.Permutation.

Open Scope string_scope.
Open Scope Z_scope.
Open Scope list_scope.

(** ** Python exceptions *)

(** The exception classes that the standard library and Pillow raise on the
    calls the script makes.  [OSError] is the class the source calls
    [IOError] (an alias in Python 3). *)
Inductive exc_class :=
| Exception
| OSError
| FileNotFoundError
| IsADirectoryError
| NotADirectoryError
| PermissionError
| UnidentifiedImageError
| SyntaxError
| ValueError
| DecompressionBombError.

#[global] Instance exc_class_eq_dec : EqDecision exc_class.
Proof. solve_decision. Defined.

(** Method resolution order below [BaseException]: the classes an
    [except] clause may name to catch an instance of the class. *)
Definition mro (c : exc_class) : list exc_class :=
  match c with
  | Exception => [Exception]
  | OSError => [OSError; Exception]
  | FileNotFoundError => [FileNotFoundError; OSError; Exception]
  | IsADirectoryError => [IsADirectoryError; OSError; Exception]
  | NotADirectoryError => [NotADirectoryError; OSError; Exception]
  | PermissionError => [PermissionError; OSError; Exception]
  | UnidentifiedImageError => [UnidentifiedImageError; OSError; Exception]
  | SyntaxError => [SyntaxError; Exception]
  | ValueError => [ValueError; Exception]
  | DecompressionBombError => [DecompressionBombError; Exception]
  end.

Record exc := Exc { exc_cls : exc_class; exc_str : string }.

(** [except (k1, ..., kn)] catches [e] when [e] is an instance of some [ki]. *)
Definition caught_by (ks : list exc_class) (e : exc) : bool :=
  existsb (fun k => bool_decide (k ∈ mro (exc_cls e))) ks.
Arguments caught_by : simpl never.

(** ** POSIX paths ([os.path]) *)

Definition slash : Ascii.ascii := "/"%char.

(** [os.path.isabs] *)
Definition isabs (p : string) : bool :=
  match p with
  | String c _ => bool_decide (c = slash)
  | EmptyString => false
  end.

Definition ends_with_slash (p : string) : bool :=
  match rev (String.list_ascii_of_string p) with
  | c :: _ => bool_decide (c = slash)
  | [] => false
  end.

(** [os.path.join] of two components *)
Definition join (a b : string) : string :=
  if isabs b then b
  else if String.eqb a "" || ends_with_slash a then a +:+ b
  else a +:+ "/" +:+ b.

Fixpoint drop_while {A} (f : A → bool) (l : list A) : list A :=
  match l with
  | [] => []
  | x :: l' => if f x then drop_while f l' else l
  end.

(** [os.path.dirname]: the text up to the last slash, without trailing
    slashes unless it consists of slashes only. *)
Definition dirname (p : string) : string :=
  let is_slash := fun c : Ascii.ascii => bool_decide (c = slash) in
  let head := drop_while (fun c => negb (is_slash c)) (rev (String.list_ascii_of_string p)) in
  match drop_while is_slash head with
  | [] => String.string_of_list_ascii (rev head)
  | stripped => String.string_of_list_ascii (rev stripped)
  end.

(** ** Pillow images *)

(** An in-memory image object is represented by the calls that produced it:
    what the pixels are is Pillow's business, which call sequence the script
    issues is the script's. *)
Inductive image :=
| Opened (path : string) (format : option string) (mode : string)
    (* Image.open(path) *)
| Converted (mode : string) (src : image)
    (* src.convert(mode) *)
| Recoded (quality : Z) (mode : string) (src : image).
    (* src.save(buffer, format='JPEG', quality=quality); Image.open(buffer) *)

(** [img.mode] *)
Definition im_mode (img : image) : string :=
  match img with
  | Opened _ _ m => m
  | Converted m _ => m
  | Recoded _ m _ => m
  end.

(** [img.format]: only images read from a file or buffer have one. *)
Definition im_format (img : image) : option string :=
  match img with
  | Opened _ f _ => f
  | Converted _ _ => None
  | Recoded _ _ _ => Some "JPEG"
  end.

(** The file an image object was decoded from. *)
Fixpoint im_source (img : image) : string :=
  match img with
  | Opened p _ _ => p
  | Converted _ s => im_source s
  | Recoded _ _ s => im_source s
  end.

(** Truth value of an image object in [if img:].  Pillow's [Image] class
    defines neither [__bool__] nor [__len__], so every instance is true. *)
Definition image_truthy (_ : image) : bool := true.

(** ** The file system *)

(** What a regular file holds, as far as the script can tell: how
    [Image.open] and [verify] react to it, or the document written by the
    assembler, or what a failed write left behind. *)
Inductive content :=
| Bytes (identify : exc + (option string * string)) (verify : option exc)
| Pdf (pages : list image)
| Partial.

Inductive node :=
| File (mtime : Z) (c : content)
| Dir (mtime : Z) (names : list string).

(** The events of a run: the calls the script makes that are visible from
    outside, in order. *)
Inductive event :=
| Echo (err : bool) (line : string)       (* click.echo(line, err=err) *)
| Listdir (dir : string)                  (* os.listdir(dir) *)
| ImageOpen (path : string)               (* Image.open(path) *)
| JpegEncode (img : image) (quality : Z)  (* img.save(buffer, format='JPEG') *)
| PdfSave (output : string) (pages : list image) (ok : bool)
| Remove (path : string).                 (* os.remove(path) *)

(** The file system maps absolute, normalised paths to nodes. *)
Record state := { fs : gmap string node; trace : list event }.

(** What the script cannot decide by itself: the process environment and
    the behaviour of Pillow on in-memory images. *)
Inductive save_outcome :=
| Saved
| SaveFailed (e : exc) (leftover : bool).

Record world := {
  w_cwd : string;                              (* os.getcwd() *)
  w_abspath : string → string;                 (* os.path.abspath *)
  w_convert : image → string → option exc;     (* img.convert(mode) raises *)
  w_jpeg_save : image → Z → option exc;        (* img.save(buf, 'JPEG') raises *)
  w_jpeg_open : image → Z → exc + string;      (* Image.open(buf): mode read back *)
  w_pdf_save : string → list image → save_outcome;
  w_remove_denied : string → option exc;       (* os.remove refused at this path *)
  w_now : Z;                                   (* mtime given to a new file *)
  w_size_mb : node → string;                   (* f"{getsize / 2**20:.2f}" *)
  w_elapsed : string                           (* f"{elapsed_time:.2f}" *)
}.

(** ** The monad of the script *)

Inductive result (A : Type) :=
| Val (a : A)
| Raise (e : exc)
| Exit (code : Z).          (* sys.exit(code) *)
Arguments Val {A} a.
Arguments Raise {A} e.
Arguments Exit {A} code.

Definition M (A : Type) : Type := state → result A * state.

#[global] Instance M_ret : MRet M := fun A a st => (Val a, st).

#[global] Instance M_bind : MBind M := fun A B k m st =>
  match m st with
  | (Val a, st') => k a st'
  | (Raise e, st') => (Raise e, st')
  | (Exit c, st') => (Exit c, st')
  end.

Definition raise {A} (e : exc) : M A := fun st => (Raise e, st).
Definition sys_exit {A} (code : Z) : M A := fun st => (Exit code, st).
Definition get_fs : M (gmap string node) := fun st => (Val (fs st), st).
Definition put_fs (m : gmap string node) : M unit :=
  fun st => (Val tt, {| fs := m; trace := trace st |}).
Definition emit (e : event) : M unit :=
  fun st => (Val tt, {| fs := fs st; trace := trace st ++ [e] |}).

(** [try: m  except ks as e: h e] *)
Definition try_except {A} (m : M A) (ks : list exc_class) (h : exc → M A) : M A :=
  fun st =>
    match m st with
    | (Raise e, st') => if caught_by ks e then h e st' else (Raise e, st')
    | r => r
    end.

Definition when (b : bool) (m : M unit) : M unit := if b then m else mret tt.

Definition echo (line : string) : M unit := emit (Echo false line).
Definition echo_err (line : string) : M unit := emit (Echo true line).

(** ** Stable sort by key ([list.sort(key=...)]) *)

Fixpoint insert_by_key (x : Z * string) (l : list (Z * string)) : list (Z * string) :=
  match l with
  | [] => [x]
  | y :: l' => if x.1 <=? y.1 then x :: l else y :: insert_by_key x l'
  end.

Definition sort_by_key (l : list (Z * string)) : list (Z * string) :=
  foldr insert_by_key [] l.

Fixpoint mapM {A B} (f : A → M B) (l : list A) : M (list B) :=
  match l with
  | [] => mret []
  | x :: l' => y ← f x; ys ← mapM f l'; mret (y :: ys)
  end.

(** ** The script *)

Record args := {
  images : list string;
  input_dir : option string;
  quality : Z;
  output : string;
  dry_run : bool;
  remove_source : bool;
  verbose : bool
}.

Section Script.
Context (w : world).

(** *** Operating-system calls *)

(** The node a path names; the empty path names nothing. *)
Definition stat (m : gmap string node) (p : string) : option node :=
  if String.eqb p "" then None else m !! w_abspath w p.

Definition isfile (m : gmap string node) (p : string) : bool :=
  match stat m p with Some (File _ _) => true | _ => false end.

Definition isdir (m : gmap string node) (p : string) : bool :=
  match stat m p with Some (Dir _ _) => true | _ => false end.

Definition path_exists (m : gmap string node) (p : string) : bool :=
  match stat m p with Some _ => true | None => false end.

Definition no_such_file (p : string) : exc :=
  Exc FileNotFoundError ("[Errno 2] No such file or directory: '" +:+ p +:+ "'").
Definition is_a_directory (p : string) : exc :=
  Exc IsADirectoryError ("[Errno 21] Is a directory: '" +:+ p +:+ "'").
Definition not_a_directory (p : string) : exc :=
  Exc NotADirectoryError ("[Errno 20] Not a directory: '" +:+ p +:+ "'").

(** Opening a path for reading. *)
Definition read_file (m : gmap string node) (p : string) : exc + content :=
  match stat m p with
  | None => inl (no_such_file p)
  | Some (Dir _ _) => inl (is_a_directory p)
  | Some (File _ c) => inr c
  end.

Definition os_path_isfile (p : string) : M bool := m ← get_fs; mret (isfile m p).
Definition os_path_exists (p : string) : M bool := m ← get_fs; mret (path_exists m p).

Definition os_path_getmtime (p : string) : M Z :=
  m ← get_fs;
  match stat m p with
  | None => raise (no_such_file p)
  | Some (File t _) => mret t
  | Some (Dir t _) => mret t
  end.

Definition os_listdir (directory : string) : M (list string) :=
  emit (Listdir directory);;
  m ← get_fs;
  match stat m directory with
  | None => raise (no_such_file directory)
  | Some (File _ _) => raise (not_a_directory directory)
  | Some (Dir _ names) => mret names
  end.

(** Why [os.remove(p)] fails on file system [m], if it does. *)
Definition removal_error (m : gmap string node) (p : string) : option exc :=
  match stat m p with
  | None => Some (no_such_file p)
  | Some (Dir _ _) => Some (is_a_directory p)
  | Some (File _ _) => w_remove_denied w (w_abspath w p)
  end.

Definition os_remove (p : string) : M unit :=
  emit (Remove p);;
  m ← get_fs;
  match removal_error m p with
  | Some e => raise e
  | None => put_fs (delete (w_abspath w p) m)
  end.

Definition os_path_getsize (p : string) : M string :=
  m ← get_fs;
  match stat m p with
  | None => raise (no_such_file p)
  | Some n => mret (w_size_mb w n)
  end.

(** *** Pillow calls *)

Definition identify (c : content) : exc + (option string * string) :=
  match c with
  | Bytes i _ => i
  | Pdf _ | Partial => inl (Exc UnidentifiedImageError "cannot identify image file")
  end.

Definition verify_of (c : content) : option exc :=
  match c with
  | Bytes _ v => v
  | Pdf _ | Partial => None
  end.

(** [Image.open(path)] *)
Definition Image_open (path : string) : M image :=
  emit (ImageOpen path);;
  m ← get_fs;
  match read_file m path with
  | inl e => raise e
  | inr c =>
      match identify c with
      | inl e => raise e
      | inr (fmt, mode) => mret (Opened path fmt mode)
      end
  end.

(** [img.verify()] on a freshly opened image *)
Definition Image_verify (img : image) : M unit :=
  m ← get_fs;
  match read_file m (im_source img) with
  | inl e => raise e
  | inr c =>
      match verify_of c with
      | Some e => raise e
      | None => mret tt
      end
  end.

(** [img.convert(mode)] *)
Definition Image_convert (img : image) (mode : string) : M image :=
  match w_convert w img mode with
  | Some e => raise e
  | None => mret (Converted mode img)
  end.

(** [img.save(temp_buffer, format='JPEG', quality=quality)], then
    [Image.open(temp_buffer)] (lines 36-40) *)
Definition jpeg_roundtrip (img : image) (quality : Z) : M image :=
  emit (JpegEncode img quality);;
  match w_jpeg_save w img quality with
  | Some e => raise e
  | None =>
      match w_jpeg_open w img quality with
      | inl e => raise e
      | inr mode => mret (Recoded quality mode img)
      end
  end.

(** The outcome of writing a PDF of [pages] at [output]: the path must be
    one that can be opened for writing, and then Pillow decides. *)
Definition pdf_write (m : gmap string node) (output : string) (pages : list image)
    : save_outcome :=
  if String.eqb output "" then SaveFailed (no_such_file output) false
  else
    match stat m output with
    | Some (Dir _ _) => SaveFailed (is_a_directory output) false
    | _ => w_pdf_save w output pages
    end.

(** [first.save(output, "PDF", save_all=True, append_images=rest)]: the
    pages written are [first :: rest]. *)
Definition Image_save_pdf (output : string) (pages : list image) : M unit :=
  m ← get_fs;
  match pdf_write m output pages with
  | Saved =>
      emit (PdfSave output pages true);;
      put_fs (<[w_abspath w output := File (w_now w) (Pdf pages)]> m)
  | SaveFailed e leftover =>
      emit (PdfSave output pages false);;
      when leftover (put_fs (<[w_abspath w output := File (w_now w) Partial]> m));;
      raise e
  end.

(** *** [is_image_file] (lines 10-22) *)

Definition is_image_file (file_path : string) : M bool :=
  try_except
    (img ← Image_open file_path;
     Image_verify img;;
     img ← Image_open file_path;
     mret (negb (bool_decide (im_format img ∈ [Some "GIF"; None]))))
    [UnidentifiedImageError; OSError]
    (fun _ => mret false).

(** *** [process_image] (lines 25-46) *)

(** The body of the [try] (lines 31-43). *)
Definition process_image_try (file_path : string) (quality : Z) : M image :=
  img ← Image_open file_path;
  img ← (if bool_decide (im_mode img ∈ ["RGBA"; "P"])
         then Image_convert img "RGB" else mret img);
  img ← (if bool_decide (quality ≠ 0)
         then jpeg_roundtrip img quality else mret img);
  img ← (if bool_decide (im_mode img ≠ "RGB")
         then Image_convert img "RGB" else mret img);
  mret img.

Definition process_image (file_path : string) (quality : Z) : M image :=
  try_except
    (process_image_try file_path quality)
    [Exception]
    (fun e =>
       echo_err ("Ошибка обработки изображения " +:+ file_path +:+ ": " +:+ exc_str e);;
       sys_exit 1).

(** *** [get_images_from_directory] (lines 49-56) *)

(** The list comprehension of line 54. *)
Fixpoint select_images (directory : string) (names : list string) : M (list string) :=
  match names with
  | [] => mret []
  | f :: rest =>
      b ← is_image_file (join directory f);
      files ← select_images directory rest;
      mret (if (b : bool) then f :: files else files)
  end.

Definition get_images_from_directory (directory : string) : M (list string) :=
  names ← os_listdir directory;
  files ← select_images directory names;
  keys ← mapM (fun x => os_path_getmtime (join directory x)) files;
  let files := map snd (sort_by_key (zip keys files)) in
  mret (map (join directory) files).

(** *** [main] (lines 70-170) *)

(** Truth value of [input_dir]: [None] and the empty string are false. *)
Definition given (o : option string) : option string :=
  match o with
  | Some d => if String.eqb d "" then None else Some d
  | None => None
  end.

(** Lines 92-95: every argument must be relative. *)
Fixpoint check_relative (imgs : list string) : M unit :=
  match imgs with
  | [] => mret tt
  | img :: rest =>
      if isabs img then
        echo_err "Ошибка: при использовании -d файлы должны быть указаны без полного пути.";;
        sys_exit 1
      else check_relative rest
  end.

(** Lines 87-110: the assignment of [images]. *)
Definition collect (a : args) : M (list string) :=
  match given (input_dir a) with
  | Some d =>
      match images a with
      | [] =>
          echo_err "Ошибка: при использовании -d необходимо указать файлы (относительные имена или auto-stamp).";;
          sys_exit 1
      | first :: _ =>
          check_relative (images a);;
          if String.eqb first "auto-stamp" then
            imgs ← get_images_from_directory d;
            when (verbose a)
              (echo ("Найдено изображений в директории '" +:+ d +:+ "': "
                     +:+ pretty (length imgs)));;
            mret imgs
          else mret (map (join d) (images a))
      end
  | None =>
      match images a with
      | first :: _ =>
          if String.eqb first "auto-stamp" then
            imgs ← get_images_from_directory (w_cwd w);
            when (verbose a)
              (echo ("Найдено изображений в текущей директории: "
                     +:+ pretty (length imgs)));;
            mret imgs
          else
            m ← get_fs;
            mret (map (w_abspath w) (filter (fun img => isfile m img = true) (images a)))
      | [] =>
          m ← get_fs;
          mret (map (w_abspath w) (filter (fun img => isfile m img = true) (images a)))
      end
  end.

(** Lines 116-126: the filter loop; [valid_images] is the accumulator. *)
Fixpoint validate (verbose : bool) (imgs valid_images : list string) : M (list string) :=
  match imgs with
  | [] => mret valid_images
  | img_path :: rest =>
      is_file ← os_path_isfile img_path;
      if negb is_file then
        when verbose (echo_err ("Файл не найден: " +:+ img_path));;
        validate verbose rest valid_images
      else
        is_image ← is_image_file img_path;
        if negb is_image then
          when verbose (echo_err ("Файл не является изображением: " +:+ img_path));;
          validate verbose rest valid_images
        else validate verbose rest (valid_images ++ [img_path])
  end.

(** Lines 137-138: [enumerate(valid_images, start=idx)]. *)
Fixpoint list_files (idx : nat) (valid_images : list string) : M unit :=
  match valid_images with
  | [] => mret tt
  | file_path :: rest =>
      echo (pretty idx +:+ " --- " +:+ file_path);;
      list_files (S idx) rest
  end.

(** Lines 142-147: the transcoding loop; [processed_images] is the
    accumulator. *)
Fixpoint process_all (verbose : bool) (quality : Z) (idx : nat)
    (valid_images : list string) (processed_images : list image) : M (list image) :=
  match valid_images with
  | [] => mret processed_images
  | file_path :: rest =>
      img ← process_image file_path quality;
      if image_truthy img then
        when verbose (echo ("Страница " +:+ pretty idx +:+ " --- " +:+ file_path));;
        process_all verbose quality (S idx) rest (processed_images ++ [img])
      else process_all verbose quality (S idx) rest processed_images
  end.

(** Lines 165-166 *)
Fixpoint remove_all (valid_images : list string) : M unit :=
  match valid_images with
  | [] => mret tt
  | img :: rest => os_remove img;; remove_all rest
  end.

(** Lines 159-170: the write, the report and the optional deletion. *)
Definition assemble (a : args) (valid_images : list string)
    (processed_images : list image) : M unit :=
  try_except
    (Image_save_pdf (output a) processed_images;;
     file_size ← os_path_getsize (output a);
     echo ("Файл " +:+ output a +:+ " (" +:+ file_size +:+ " MB) создан за "
           +:+ w_elapsed w +:+ " секунд.");;
     if remove_source a then
       remove_all valid_images;;
       echo "Исходные файлы удалены."
     else mret tt)
    [Exception]
    (fun e => echo_err ("Ошибка при сохранении PDF: " +:+ exc_str e);; sys_exit 1).

(** Lines 135-170: the dry run, or transcoding and assembly. *)
Definition proceed (a : args) (valid_images : list string) : M unit :=
  if dry_run a then
    echo "Файлы, которые будут обработаны:";;
    list_files 1 valid_images;;
    sys_exit 0
  else
    processed_images ← process_all (verbose a) (quality a) 1 valid_images [];
    match processed_images with
    | [] => echo_err "Не удалось обработать ни одно изображение.";; sys_exit 1
    | _ :: _ =>
        let output_dir := dirname (w_abspath w (output a)) in
        missing ← (if String.eqb output_dir "" then mret false
                   else b ← os_path_exists output_dir; mret (negb b));
        if (missing : bool) then
          echo_err ("Директория для сохранения не существует: " +:+ output_dir);;
          sys_exit 1
        else assemble a valid_images processed_images
    end.

(** Lines 128-133, then the rest. *)
Definition finish (a : args) (valid_images : list string) : M unit :=
  when (verbose a) (echo ("Файлов после проверки: " +:+ pretty (length valid_images)));;
  match valid_images with
  | [] => echo_err "Нет валидных изображений для обработки.";; sys_exit 1
  | _ :: _ => proceed a valid_images
  end.

Definition main (a : args) : M unit :=
  imgs ← collect a;
  match imgs with
  | [] => echo_err "Нет валидных изображений для обработки.";; sys_exit 1
  | _ :: _ =>
      valid_images ← validate (verbose a) imgs [];
      finish a valid_images
  end.

(** The exit status of the process: [main] returning makes click exit
    with 0, an uncaught exception ends the interpreter with 1. *)
Definition exit_status (r : result unit) : Z :=
  match r with
  | Val _ => 0
  | Exit c => c
  | Raise _ => 1
  end.

End Script.

(** * Vocabulary of the statements *)

(** [st] extended by the events [evs], on an unchanged file system. *)
Definition after (st : state) (evs : list event) : state :=
  {| fs := fs st; trace := trace st ++ evs |}.

(** [footprint P Q m]: whatever its result, [m] leaves the file system as it
    found it and adds to the trace only events satisfying [P]; a value it
    returns satisfies [Q]. *)
Definition footprint {A} (P : event → Prop) (Q : A → Prop) (m : M A) : Prop :=
  ∀ st r st', m st = (r, st') →
    ∃ evs, st' = after st evs ∧ Forall P evs ∧ ∀ a, r = Val a → Q a.

Definition anything {A} (_ : A) : Prop := True.

#[global] Hint Extern 1 (anything _) => exact I : core.

(** Events about the transcoding of path [p]. *)
Definition about (p : string) (e : event) : Prop :=
  match e with
  | ImageOpen x => x = p
  | JpegEncode img _ => im_source img = p
  | _ => False
  end.

(** Events that only inspect the file system. *)
Definition probe (e : event) : Prop :=
  match e with
  | Listdir _ | ImageOpen _ => True
  | _ => False
  end.

(** Events before assembly: no write, no deletion, and nothing on standard
    output unless [v] (verbose) is set. *)
Definition quiet (v : bool) (e : event) : Prop :=
  match e with
  | Listdir _ | ImageOpen _ | JpegEncode _ _ => True
  | Echo err _ => err = true ∨ v = true
  | PdfSave _ _ _ | Remove _ => False
  end.

(** What [process_image] returns for [p]: an image decoded from [p], in
    mode RGB. *)
Definition transcoded (p : string) (img : image) : Prop :=
  im_source img = p ∧ im_mode img = "RGB".

(** Events of one call of [process_image p]: its Pillow calls, and the
    diagnostic on standard error. *)
Definition transcoding (p : string) (e : event) : Prop :=
  about p e ∨ ∃ line, e = Echo true line.

Section Verdict.
Context (w : world).

(** The exception that stops the validation of [p], if any: from opening
    the file, from [Image.open], or from [verify]. *)
Definition validation_error (m : gmap string node) (p : string) : option exc :=
  match read_file w m p with
  | inl e => Some e
  | inr c =>
      match identify c with
      | inl e => Some e
      | inr _ => verify_of c
      end
  end.

(** The verdict on a file that decodes and verifies: it has a format, and
    the format is not GIF. *)
Definition accepts (m : gmap string node) (p : string) : bool :=
  match read_file w m p with
  | inr (Bytes (inr (Some f, _)) None) => negb (String.eqb f "GIF")
  | _ => false
  end.

Definition is_oserror (e : exc) : Prop := OSError ∈ mro (exc_cls e).

End Verdict.

(** ** The transcoder as a function of the file system *)

Section Transcode.
Context (w : world).

(** [Image.open(p)] *)
Definition decode (m : gmap string node) (p : string) : exc + image :=
  match read_file w m p with
  | inl e => inl e
  | inr c =>
      match identify c with
      | inl e => inl e
      | inr (fmt, mode) => inr (Opened p fmt mode)
      end
  end.

(** [img.convert(mode)] *)
Definition convert (img : image) (mode : string) : exc + image :=
  match w_convert w img mode with
  | Some e => inl e
  | None => inr (Converted mode img)
  end.

(** The round trip through the JPEG encoder. *)
Definition recode (img : image) (q : Z) : exc + image :=
  match w_jpeg_save w img q with
  | Some e => inl e
  | None =>
      match w_jpeg_open w img q with
      | inl e => inl e
      | inr mode => inr (Recoded q mode img)
      end
  end.

(** What the body of [process_image] computes: the image, or the first
    exception raised on the way. *)
Definition transcode (m : gmap string node) (p : string) (q : Z) : exc + image :=
  match decode m p with
  | inl e => inl e
  | inr img =>
      match (if bool_decide (im_mode img ∈ ["RGBA"; "P"])
             then convert img "RGB" else inr img) with
      | inl e => inl e
      | inr img =>
          match (if bool_decide (q ≠ 0) then recode img q else inr img) with
          | inl e => inl e
          | inr img =>
              if bool_decide (im_mode img ≠ "RGB") then convert img "RGB" else inr img
          end
      end
  end.

(** The diagnostic of line 45. *)
Definition transcode_diagnostic (p : string) (e : exc) : event :=
  Echo true ("Ошибка обработки изображения " +:+ p +:+ ": " +:+ exc_str e).

End Transcode.

(** The image that was handed to the JPEG encoder to produce [img]. *)
Fixpoint encoded_input (img : image) : option image :=
  match img with
  | Opened _ _ _ => None
  | Converted _ src => encoded_input src
  | Recoded _ _ src => Some src
  end.

(** The image as first decoded from its file. *)
Fixpoint decoded (img : image) : image :=
  match img with
  | Opened _ _ _ => img
  | Converted _ src => decoded src
  | Recoded _ _ src => decoded src
  end.

(** ** The collector and the filter loop as functions of the file system *)

Section Collected.
Context (w : world).

(** The validator gives a verdict on [p]: whatever stops the validation is
    an [OSError], which the [except] clause of [is_image_file] names. *)
Definition validates (m : gmap string node) (p : string) : Prop :=
  ∀ e, validation_error w m p = Some e → is_oserror e.

(** [os.path.getmtime] of an existing path. *)
Definition mtime_of (m : gmap string node) (p : string) : Z :=
  match stat w m p with
  | Some (File t _) | Some (Dir t _) => t
  | None => 0
  end.

(** The names of a listing that the validator accepts, in listing order. *)
Definition accepted_names (m : gmap string node) (d : string) (names : list string)
    : list string :=
  filter (fun f => accepts w m (join d f) = true) names.

(** The result of the directory scan on a listing. *)
Definition scan (m : gmap string node) (d : string) (names : list string) : list string :=
  map (join d)
    (map snd (sort_by_key
                (map (fun f => (mtime_of m (join d f), f)) (accepted_names m d names)))).

(** The directory that the sentinel makes the collector list. *)
Definition scan_directory (a : args) : string :=
  match given (input_dir a) with
  | Some d => d
  | None => w_cwd w
  end.

(** The diagnostic that the filter loop has for a collected path, if it
    drops it (lines 118-125). *)
Definition rejection (m : gmap string node) (p : string) : option string :=
  if negb (isfile w m p) then Some ("Файл не найден: " +:+ p)
  else if negb (accepts w m p) then Some ("Файл не является изображением: " +:+ p)
  else None.

End Collected.

(** The arguments ask for the directory scan: the first one is the
    sentinel and, with a base directory, none is absolute. *)
Definition scan_requested (a : args) : Prop :=
  (∃ rest, images a = "auto-stamp" :: rest) ∧
  (given (input_dir a) ≠ None → Forall (fun p => isabs p = false) (images a)).

(** The lines printed in a sequence of events, with their stream. *)
Definition echoes (evs : list event) : list (bool * string) :=
  omap (fun e => match e with Echo err line => Some (err, line) | _ => None end) evs.

(** The order that [sort_by_key] establishes. *)
Definition key_le (x y : Z * string) : Prop := x.1 ≤ y.1.

(** Ascending modification times. *)
Definition by_mtime (w : world) (m : gmap string node) (d : string) (f g : string) : Prop :=
  mtime_of w m (join d f) ≤ mtime_of w m (join d g).

(** The opening of some file. *)
Definition opening (e : event) : Prop := ∃ p, e = ImageOpen p.

(** A line on standard error. *)
Definition complaint (e : event) : Prop := ∃ line, e = Echo true line.

(** The progress line of the directory scan (lines 100 and 108). *)
Definition scan_report (a : args) (n : nat) : string :=
  match given (input_dir a) with
  | Some d => "Найдено изображений в директории '" +:+ d +:+ "': " +:+ pretty n
  | None => "Найдено изображений в текущей директории: " +:+ pretty n
  end.

(** The Validated Image Set of a collected list: the paths the validator
    accepts, in the order collected. *)
Definition validated (w : world) (m : gmap string node) (imgs : list string) : list string :=
  filter (fun p => accepts w m p = true) imgs.

(** The progress line of line 129. *)
Definition validation_report (a : args) (valid_images : list string) : list event :=
  if verbose a
  then [Echo false ("Файлов после проверки: " +:+ pretty (length valid_images))]
  else [].

Definition no_valid_images : event :=
  Echo true "Нет валидных изображений для обработки.".

(** The lines of the dry run (line 138): index from 1, then the path. *)
Definition dry_run_lines (valid_images : list string) : list string :=
  imap (fun i file_path => pretty (S i) +:+ " --- " +:+ file_path) valid_images.

(** What the dry run prints (lines 136-138): a heading, then the lines. *)
Definition dry_run_listing (valid_images : list string) : list event :=
  Echo false "Файлы, которые будут обработаны:"
  :: map (Echo false) (dry_run_lines valid_images).

(** The progress line of the transcoding loop (line 147). *)
Definition page_line (idx : nat) (file_path : string) : event :=
  Echo false ("Страница " +:+ pretty idx +:+ " --- " +:+ file_path).

(** ** Assembly *)

(** Events that neither write nor remove a file. *)
Definition harmless (e : event) : Prop :=
  match e with
  | PdfSave _ _ _ | Remove _ => False
  | _ => True
  end.

Section Assembly.
Context (w : world).

(** The check of lines 154-157 passes. *)
Definition output_dir_ok (m : gmap string node) (out : string) : bool :=
  String.eqb (dirname (w_abspath w out)) "" || path_exists w m (dirname (w_abspath w out)).

(** The run of [main] from [st0] comes to the [try] of line 159 in state
    [s], with Validated Image Set [v] and transcoded images [pages]. *)
Definition reaches_assembly (a : args) (st0 : state) (v : list string)
    (pages : list image) (s : state) : Prop :=
  ∃ imgs st st1,
    collect w a st0 = (Val imgs, st) ∧
    validate w (verbose a) imgs [] st = (Val v, st1) ∧
    v ≠ [] ∧
    dry_run a = false ∧
    process_all w (verbose a) (quality a) 1 v [] (after st1 (validation_report a v))
      = (Val pages, s) ∧
    output_dir_ok (fs s) (output a) = true.

(** The file system once the PDF is written. *)
Definition written (a : args) (pages : list image) (m : gmap string node)
    : gmap string node :=
  <[w_abspath w (output a) := File (w_now w) (Pdf pages)]> m.

(** The file system once the paths of [l] are removed. *)
Definition unlink_all (m : gmap string node) (l : list string) : gmap string node :=
  foldl (fun m p => delete (w_abspath w p) m) m l.

(** The report of line 163. *)
Definition created_line (a : args) (pages : list image) : event :=
  Echo false ("Файл " +:+ output a +:+ " (" +:+ w_size_mb w (File (w_now w) (Pdf pages))
              +:+ " MB) создан за " +:+ w_elapsed w +:+ " секунд.").

(** The diagnostic of line 169. *)
Definition save_failure (e : exc) : event :=
  Echo true ("Ошибка при сохранении PDF: " +:+ exc_str e).

Definition sources_removed : event := Echo false "Исходные файлы удалены.".

(** The state right after a successful write and its report. *)
Definition saved_state (a : args) (pages : list image) (s : state) : state :=
  {| fs := written a pages (fs s);
     trace := trace s ++ [PdfSave (output a) pages true; created_line a pages] |}.

End Assembly.

(** Events other than a call of the PDF writer. *)
Definition not_a_save (e : event) : Prop :=
  match e with
  | PdfSave _ _ _ => False
  | _ => True
  end.

(** ** A sample machine *)

(** A POSIX process in [/home/u] whose Pillow converts every image, writes
    JPEG only from the modes the JPEG plugin supports and reads the file
    back in the mode the encoder stored.  The pixel data of [cut.jpg] are
    truncated: the file opens and verifies, and loading it for the encoder
    raises. *)
Definition demo : world := {|
  w_cwd := "/home/u";
  w_abspath := fun p => if isabs p then p else join "/home/u" p;
  w_convert := fun _ _ => None;
  w_jpeg_save := fun img _ =>
    if String.eqb (im_source img) "/home/u/cut.jpg"
    then Some (Exc OSError "image file is truncated")
    else if bool_decide (im_mode img ∈ ["1"; "L"; "RGB"; "RGBX"; "CMYK"; "YCbCr"]) then None
    else Some (Exc OSError ("cannot write mode " +:+ im_mode img +:+ " as JPEG"));
  w_jpeg_open := fun img _ =>
    inr (if bool_decide (im_mode img ∈ ["1"; "L"]) then "L"
         else if String.eqb (im_mode img) "CMYK" then "CMYK" else "RGB");
  w_pdf_save := fun _ _ => Saved;
  w_remove_denied := fun _ => None;
  w_now := 100;
  w_size_mb := fun _ => "0.01";
  w_elapsed := "0.10"
|}.

Definition picture (format mode : string) : content :=
  Bytes (inr (Some format, mode)) None.

(** A file that Pillow cannot identify, such as a text file or a file of
    zero bytes. *)
Definition undecodable : content :=
  Bytes (inl (Exc UnidentifiedImageError "cannot identify image file")) None.

(** A PNG file with a bad chunk checksum: it opens, and [verify] raises
    [SyntaxError]. *)
Definition broken_png : content :=
  Bytes (inr (Some "PNG", "RGB")) (Some (Exc SyntaxError "broken PNG file")).

Definition home_listing : node :=
  Dir 0 ["b.png"; "a.png"; "c.gif"; "notes.txt"; "empty.jpg"; "broken.png"; "cut.jpg";
         "scans"].

Definition scans_listing : node :=
  Dir 0 ["p3.png"; "anim.gif"; "p1.png"; "notes.txt"; "p2.jpg"].

Definition demo_fs : gmap string node :=
  list_to_map [
    ("/home/u", home_listing);
    ("/home/u/a.png", File 30 (picture "PNG" "RGBA"));
    ("/home/u/b.png", File 10 (picture "PNG" "LA"));
    ("/home/u/c.gif", File 5 (picture "GIF" "P"));
    ("/home/u/notes.txt", File 7 undecodable);
    ("/home/u/empty.jpg", File 8 undecodable);
    ("/home/u/broken.png", File 9 broken_png);
    ("/home/u/cut.jpg", File 11 (picture "JPEG" "RGB"));
    ("/home/u/scans", scans_listing);
    ("/home/u/scans/p1.png", File 10 (picture "PNG" "RGB"));
    ("/home/u/scans/p2.jpg", File 20 (picture "JPEG" "L"));
    ("/home/u/scans/p3.png", File 30 (picture "PNG" "P"));
    ("/home/u/scans/anim.gif", File 15 (picture "GIF" "P"));
    ("/home/u/scans/notes.txt", File 25 undecodable)
  ].

(** A fresh process on a file system. *)
Definition start (m : gmap string node) : state := {| fs := m; trace := [] |}.

Definition demo_args (imgs : list string) (d : option string) (out : string)
    (dry remove verb : bool) : args :=
  {| images := imgs; input_dir := d; quality := 80; output := out;
     dry_run := dry; remove_source := remove; verbose := verb |}.

(** ** Further vocabulary *)

Section Further.
Context (w : world).

(** The run of [main] from [st0] comes to the check of the output
    directory (line 154) in state [s], with Validated Image Set [v] and
    transcoded images [pages]. *)
Definition reaches_output_check (a : args) (st0 : state) (v : list string)
    (pages : list image) (s : state) : Prop :=
  ∃ imgs st st1,
    collect w a st0 = (Val imgs, st) ∧
    validate w (verbose a) imgs [] st = (Val v, st1) ∧
    v ≠ [] ∧
    dry_run a = false ∧
    process_all w (verbose a) (quality a) 1 v [] (after st1 (validation_report a v))
      = (Val pages, s).

(** The diagnostic of line 156. *)
Definition no_output_directory (a : args) : event :=
  Echo true ("Директория для сохранения не существует: "
             +:+ dirname (w_abspath w (output a))).

End Further.

(** The arguments [a] with other positional arguments. *)
Definition with_images (a : args) (imgs : list string) : args :=
  {| images := imgs; input_dir := input_dir a; quality := quality a;
     output := output a; dry_run := dry_run a; remove_source := remove_source a;
     verbose := verbose a |}.

(** The arguments [a] with another verbosity. *)
Definition with_verbose (a : args) (v : bool) : args :=
  {| images := images a; input_dir := input_dir a; quality := quality a;
     output := output a; dry_run := dry_run a; remove_source := remove_source a;
     verbose := v |}.

(** The usage error of line 89. *)
Definition no_arguments_with_input_dir : event :=
  Echo true "Ошибка: при использовании -d необходимо указать файлы (относительные имена или auto-stamp).".

(** The first positional argument is the sentinel. *)
Definition sentinel_first (imgs : list string) : bool :=
  match imgs with
  | first :: _ => String.eqb first "auto-stamp"
  | [] => false
  end.

(** A directory whose files were written in one batch: three of the four
    share a modification time. *)
Definition batch_listing : node :=
  Dir 0 ["z.png"; "a.png"; "readme.txt"; "m.jpg"; "early.png"].

Definition batch_fs : gmap string node :=
  list_to_map [
    ("/home/u/batch", batch_listing);
    ("/home/u/batch/z.png", File 5 (picture "PNG" "RGB"));
    ("/home/u/batch/a.png", File 5 (picture "PNG" "RGB"));
    ("/home/u/batch/readme.txt", File 5 undecodable);
    ("/home/u/batch/m.jpg", File 5 (picture "JPEG" "RGB"));
    ("/home/u/batch/early.png", File 1 (picture "PNG" "RGB"))
  ].

(** ** How a computation can end *)

(** [ends E R m]: when [m] exits, its status satisfies [E]; when it
    raises, the exception satisfies [R]. *)
Definition ends {A} (E : Z → Prop) (R : exc → Prop) (m : M A) : Prop :=
  ∀ st r st', m st = (r, st') →
    match r with
    | Val _ => True
    | Raise e => R e
    | Exit c => E c
    end.

(** The exceptions of the scan and the filter that nothing catches: the
    failures of [os.listdir] and [os.path.getmtime], and what Pillow raises
    outside of [OSError]. *)
Definition escaping (e : exc) : Prop :=
  (∃ d, e = no_such_file d ∨ e = not_a_directory d) ∨ ¬ is_oserror e.


(** The statuses with which [main] can call [sys.exit]. *)
Definition main_exit (a : args) (c : Z) : Prop :=
  c = 1 ∨ (c = 0 ∧ dry_run a = true).

(** ** Runs that differ in what they print only *)

(** The events other than printed lines: the calls of the operating system
    and of Pillow. *)
Definition is_call (e : event) : bool :=
  match e with
  | Echo _ _ => false
  | _ => true
  end.

Definition calls (evs : list event) : list event :=
  filter (fun e => is_call e = true) evs.

(** Two states with one file system and one history of calls. *)
Definition similar (st1 st2 : state) : Prop :=
  fs st1 = fs st2 ∧ calls (trace st1) = calls (trace st2).

(** [agree m1 m2]: from similar states, [m1] and [m2] end in the same way
    and in similar states. *)
Definition agree {A} (m1 m2 : M A) : Prop :=
  ∀ st1 st2, similar st1 st2 →
    (m1 st1).1 = (m2 st2).1 ∧ similar (m1 st1).2 (m2 st2).2.

(** * Reasoning about runs *)

(** ** The monad, step by step *)

Lemma bind_run {A B} (m : M A) (k : A → M B) (st : state) :
  (m ≫= k) st =
  match m st with
  | (Val a, st') => k a st'
  | (Raise e, st') => (Raise e, st')
  | (Exit c, st') => (Exit c, st')
  end.
Proof. reflexivity. Qed.

Lemma try_run {A} (m : M A) ks (h : exc → M A) st :
  try_except m ks h st =
  match m st with
  | (Raise e, st') => if caught_by ks e then h e st' else (Raise e, st')
  | r => r
  end.
Proof. reflexivity. Qed.

Lemma caught_by_Exception (e : exc) : caught_by [Exception] e = true.
Proof. destruct e as [[] s]; reflexivity. Qed.

Lemma after_nil st : after st [] = st.
Proof. destruct st; unfold after; simpl. by rewrite app_nil_r. Qed.

Lemma after_after st evs evs' : after (after st evs) evs' = after st (evs ++ evs').
Proof. unfold after; simpl. by rewrite app_assoc. Qed.

Lemma after_inj st evs evs' : after st evs = after st evs' → evs = evs'.
Proof. unfold after. intros [= H]. by apply app_inv_head in H. Qed.

Lemma emit_run e st : emit e st = (Val tt, after st [e]).
Proof. reflexivity. Qed.

(** ** Footprints: computations that only read the file system *)

Section Footprint.
Context (P : event → Prop).

Lemma footprint_ret {A} (Q : A → Prop) (a : A) : Q a → footprint P Q (mret a).
Proof.
  intros HQ st r st' [= <- <-]. exists []. rewrite after_nil.
  split_and!; [done | constructor | by intros ? [= <-]].
Qed.

Lemma footprint_raise {A} (Q : A → Prop) e : footprint P Q (raise e).
Proof. intros st r st' [= <- <-]. exists []. by rewrite after_nil. Qed.

Lemma footprint_exit {A} (Q : A → Prop) c : footprint P Q (sys_exit c).
Proof. intros st r st' [= <- <-]. exists []. by rewrite after_nil. Qed.

Lemma footprint_get_fs : footprint P anything get_fs.
Proof. intros st r st' [= <- <-]. exists []. by rewrite after_nil. Qed.

Lemma footprint_emit e : P e → footprint P anything (emit e).
Proof.
  intros HP st r st' [= <- <-]. exists [e].
  split_and!; [done | by constructor | done].
Qed.

Lemma footprint_bind {A B} (Q : A → Prop) (R : B → Prop) (m : M A) (k : A → M B) :
  footprint P Q m → (∀ a, Q a → footprint P R (k a)) → footprint P R (m ≫= k).
Proof.
  intros Hm Hk st r st' H. rewrite bind_run in H.
  destruct (m st) as [[a | e | c] st1] eqn:E;
    destruct (Hm _ _ _ E) as (evs & -> & Hevs & HQ).
  - destruct (Hk a (HQ _ eq_refl) _ _ _ H) as (evs' & -> & Hevs' & HR).
    exists (evs ++ evs'). rewrite after_after.
    split_and!; [done | by apply Forall_app | done].
  - injection H as <- <-. by exists evs.
  - injection H as <- <-. by exists evs.
Qed.

Lemma footprint_try {A} (Q : A → Prop) (m : M A) ks (h : exc → M A) :
  footprint P Q m → (∀ e, footprint P Q (h e)) → footprint P Q (try_except m ks h).
Proof.
  intros Hm Hh st r st' H. rewrite try_run in H.
  destruct (m st) as [[a | e | c] st1] eqn:E;
    destruct (Hm _ _ _ E) as (evs & -> & Hevs & HQ).
  - injection H as <- <-. by exists evs.
  - destruct (caught_by ks e).
    + destruct (Hh e _ _ _ H) as (evs' & -> & Hevs' & HR).
      exists (evs ++ evs'). rewrite after_after.
      split_and!; [done | by apply Forall_app | done].
    + injection H as <- <-. by exists evs.
  - injection H as <- <-. by exists evs.
Qed.

Lemma footprint_when b (m : M unit) :
  (b = true → footprint P anything m) → footprint P anything (when b m).
Proof. destruct b; simpl; [auto | intros _; by apply footprint_ret]. Qed.

End Footprint.

Lemma footprint_mono {A} (P P' : event → Prop) (Q Q' : A → Prop) (m : M A) :
  (∀ e, P e → P' e) → (∀ a, Q a → Q' a) → footprint P Q m → footprint P' Q' m.
Proof.
  intros HP HQ Hm st r st' H. destruct (Hm _ _ _ H) as (evs & -> & Hevs & Ha).
  exists evs. split_and!; [done | by eapply Forall_impl | auto].
Qed.

(** One step of a footprint derivation, following the shape of the program. *)
Ltac footprint_step :=
  lazymatch goal with
  | |- footprint _ _ (mret _) => apply footprint_ret
  | |- footprint _ _ (raise _) => apply footprint_raise
  | |- footprint _ _ (sys_exit _) => apply footprint_exit
  | |- footprint _ _ (mbind _ (emit _)) =>
      eapply footprint_bind; [apply footprint_emit | intros ? _]
  | |- footprint _ _ (mbind _ (echo _)) =>
      eapply footprint_bind; [apply footprint_emit | intros ? _]
  | |- footprint _ _ (mbind _ (echo_err _)) =>
      eapply footprint_bind; [apply footprint_emit | intros ? _]
  | |- footprint _ _ (mbind _ get_fs) =>
      eapply footprint_bind; [apply footprint_get_fs | intros ? _]
  | |- footprint _ _ (mbind _ (when _ _)) =>
      eapply footprint_bind; [apply footprint_when; intros ? | intros ? _]
  | |- footprint _ _ (emit _) => apply footprint_emit
  | |- footprint _ _ (echo _) => apply footprint_emit
  | |- footprint _ _ (echo_err _) => apply footprint_emit
  | |- footprint _ _ (match ?x with _ => _ end) => destruct x eqn:?
  end.

Lemma probe_quiet v e : probe e → quiet v e.
Proof. by destruct e. Qed.

Lemma about_quiet p v e : about p e → quiet v e.
Proof. by destruct e. Qed.

Section Footprints.
Context (w : world).

Lemma Image_open_footprint p :
  footprint (eq (ImageOpen p)) (fun img => ∃ f m, img = Opened p f m) (Image_open w p).
Proof.
  unfold Image_open. repeat footprint_step; simpl; eauto.
Qed.

Lemma Image_verify_footprint P img : footprint P anything (Image_verify w img).
Proof. unfold Image_verify. repeat footprint_step; done. Qed.

Lemma is_image_file_footprint p :
  footprint (eq (ImageOpen p)) anything (is_image_file w p).
Proof.
  unfold is_image_file. apply footprint_try; [| intros e; by apply footprint_ret].
  eapply footprint_bind; [apply Image_open_footprint | intros img _].
  eapply footprint_bind; [apply Image_verify_footprint | intros _ _].
  eapply footprint_bind; [apply Image_open_footprint | intros img' _].
  by apply footprint_ret.
Qed.

Lemma Image_convert_footprint P img mode :
  footprint P (fun img' => img' = Converted mode img) (Image_convert w img mode).
Proof. unfold Image_convert. repeat footprint_step; done. Qed.

Lemma jpeg_roundtrip_footprint img q :
  footprint (about (im_source img)) (fun img' => ∃ m, img' = Recoded q m img)
    (jpeg_roundtrip w img q).
Proof. unfold jpeg_roundtrip. repeat footprint_step; simpl; eauto. Qed.

Lemma process_image_try_footprint p q :
  footprint (about p) (transcoded p) (process_image_try w p q).
Proof.
  unfold process_image_try.
  eapply footprint_bind with (Q := fun img => ∃ f m, img = Opened p f m);
    [| intros img (f & m & ->)].
  { eapply footprint_mono; [| | apply Image_open_footprint]; [by intros ? <- | done]. }
  eapply footprint_bind with (Q := fun img => im_source img = p).
  { destruct (bool_decide _).
    - eapply footprint_mono; [done | | apply Image_convert_footprint].
      by intros ? ->.
    - by apply footprint_ret. }
  intros img1 Hsrc.
  eapply footprint_bind with (Q := fun img => im_source img = p).
  { destruct (bool_decide _).
    - eapply footprint_mono; [| | apply jpeg_roundtrip_footprint].
      + by rewrite Hsrc.
      + by intros ? [? ->].
    - by apply footprint_ret. }
  intros img2 Hsrc2.
  eapply footprint_bind with (Q := transcoded p).
  { destruct (bool_decide (im_mode img2 ≠ "RGB")) eqn:E.
    - eapply footprint_mono; [done | | apply Image_convert_footprint].
      by intros ? ->.
    - apply footprint_ret. split; [done |].
      apply bool_decide_eq_false in E. by destruct (decide (im_mode img2 = "RGB")). }
  intros img3 H3. by apply footprint_ret.
Qed.

Lemma transcoding_quiet p v e : transcoding p e → quiet v e.
Proof. intros [H | [l ->]]; [by eapply about_quiet | by left]. Qed.

Lemma process_image_footprint p q :
  footprint (transcoding p) (transcoded p) (process_image w p q).
Proof.
  unfold process_image. apply footprint_try.
  - eapply footprint_mono; [| | apply process_image_try_footprint]; [by left | done].
  - intros e. eapply footprint_bind with (Q := anything).
    + apply footprint_emit. right. eauto.
    + intros _ _. apply footprint_exit.
Qed.

Lemma select_images_footprint d names :
  footprint probe anything (select_images w d names).
Proof.
  induction names as [| f rest IH]; simpl; [by apply footprint_ret |].
  eapply footprint_bind.
  { eapply footprint_mono; [| | apply is_image_file_footprint]; [| done].
    by intros ? <-. }
  intros b _. eapply footprint_bind; [apply IH | intros files _].
  by apply footprint_ret.
Qed.

Lemma os_path_getmtime_footprint P p : footprint P anything (os_path_getmtime w p).
Proof. unfold os_path_getmtime. repeat footprint_step; done. Qed.

Lemma os_path_isfile_footprint P p : footprint P anything (os_path_isfile w p).
Proof. unfold os_path_isfile. repeat footprint_step; done. Qed.

Lemma mapM_footprint {A B} P (f : A → M B) l :
  (∀ x, footprint P anything (f x)) → footprint P anything (mapM f l).
Proof.
  intros Hf. induction l as [| x l IH]; simpl; [by apply footprint_ret |].
  eapply footprint_bind; [apply Hf | intros y _].
  eapply footprint_bind; [apply IH | intros ys _]. by apply footprint_ret.
Qed.

Lemma os_listdir_footprint d : footprint probe anything (os_listdir w d).
Proof. unfold os_listdir. repeat footprint_step; done. Qed.

Lemma get_images_from_directory_footprint d :
  footprint probe anything (get_images_from_directory w d).
Proof.
  unfold get_images_from_directory.
  eapply footprint_bind; [apply os_listdir_footprint | intros names _].
  eapply footprint_bind; [apply select_images_footprint | intros files _].
  eapply footprint_bind;
    [apply mapM_footprint; intros; apply os_path_getmtime_footprint | intros keys _].
  by apply footprint_ret.
Qed.

Lemma check_relative_footprint v imgs :
  footprint (quiet v) anything (check_relative imgs).
Proof.
  induction imgs as [| img rest IH]; simpl; [by apply footprint_ret |].
  destruct (isabs img); [| done].
  repeat footprint_step; simpl; auto.
Qed.

Lemma collect_footprint a : footprint (quiet (verbose a)) anything (collect w a).
Proof.
  unfold collect.
  assert (Hscan : ∀ d,
    footprint (quiet (verbose a)) anything (get_images_from_directory w d)).
  { intros d. eapply footprint_mono; [| | apply get_images_from_directory_footprint];
      [apply probe_quiet | done]. }
  destruct (given (input_dir a)) as [d |]; destruct (images a) as [| first rest].
  - repeat footprint_step; simpl; auto.
  - eapply footprint_bind; [apply check_relative_footprint | intros _ _].
    destruct (String.eqb first "auto-stamp").
    + eapply footprint_bind; [apply Hscan | intros imgs _].
      repeat footprint_step; simpl; auto.
    + by apply footprint_ret.
  - repeat footprint_step; done.
  - destruct (String.eqb first "auto-stamp").
    + eapply footprint_bind; [apply Hscan | intros imgs _].
      repeat footprint_step; simpl; auto.
    + repeat footprint_step; done.
Qed.

Lemma validate_footprint v imgs acc :
  footprint (quiet v) anything (validate w v imgs acc).
Proof.
  revert acc. induction imgs as [| p rest IH]; intros acc; simpl.
  { by apply footprint_ret. }
  eapply footprint_bind; [apply os_path_isfile_footprint | intros is_file _].
  destruct is_file; simpl.
  - eapply footprint_bind.
    { eapply footprint_mono; [| | apply is_image_file_footprint];
        [by intros ? <- | done]. }
    intros is_image _. destruct is_image; simpl; [apply IH |].
    eapply footprint_bind; [| intros _ _; apply IH].
    apply footprint_when. intros ->. apply footprint_emit. simpl. auto.
  - eapply footprint_bind; [| intros _ _; apply IH].
    apply footprint_when. intros ->. apply footprint_emit. simpl. auto.
Qed.

End Footprints.

(** ** The validator as a function of the file system *)

Section Validator.
Context (w : world).

Lemma caught_by_is_oserror e :
  is_oserror e → caught_by [UnidentifiedImageError; OSError] e = true.
Proof.
  unfold is_oserror, caught_by. intros H. cbn.
  rewrite (bool_decide_eq_true_2 _ H). by rewrite orb_true_r.
Qed.

Lemma read_file_error_is_oserror m p e : read_file w m p = inl e → is_oserror e.
Proof.
  unfold read_file, is_oserror.
  destruct (stat w m p) as [[] |]; intros [= <-]; simpl; set_solver.
Qed.

Lemma format_check (f : option string) :
  negb (bool_decide (f ∈ [Some "GIF"; None])) =
  match f with Some f => negb (String.eqb f "GIF") | None => false end.
Proof.
  destruct f as [f |].
  - destruct (String.eqb_spec f "GIF") as [-> | Hne]; [done |].
    rewrite bool_decide_eq_false_2; [done |].
    rewrite !elem_of_cons, elem_of_nil. intros [[= ->] | [[=] | []]]. done.
  - done.
Qed.

Lemma Image_open_run p st :
  Image_open w p st =
  (match read_file w (fs st) p with
   | inl e => Raise e
   | inr c =>
       match identify c with
       | inl e => Raise e
       | inr (fmt, mode) => Val (Opened p fmt mode)
       end
   end, after st [ImageOpen p]).
Proof.
  unfold Image_open. rewrite bind_run, emit_run, bind_run. simpl.
  destruct (read_file w (fs st) p) as [e | c]; [done |].
  by destruct (identify c) as [e | [fmt mode]].
Qed.

Lemma Image_verify_run img st :
  Image_verify w img st =
  (match read_file w (fs st) (im_source img) with
   | inl e => Raise e
   | inr c => match verify_of c with Some e => Raise e | None => Val tt end
   end, st).
Proof.
  unfold Image_verify. rewrite bind_run. simpl.
  destruct (read_file w (fs st) (im_source img)) as [e | c]; [done |].
  by destruct (verify_of c).
Qed.

(** [is_image_file] runs to a verdict unless Pillow raises an exception
    that the [except] clause does not name. *)
Lemma is_image_file_run p st :
  ∃ evs, Forall (eq (ImageOpen p)) evs ∧
    is_image_file w p st =
    (match validation_error w (fs st) p with
     | Some e =>
         if caught_by [UnidentifiedImageError; OSError] e then Val false else Raise e
     | None => Val (accepts w (fs st) p)
     end, after st evs).
Proof.
  unfold is_image_file, validation_error, accepts.
  rewrite try_run, bind_run, Image_open_run.
  destruct (read_file w (fs st) p) as [e | c] eqn:Hr.
  { exists [ImageOpen p]. split; [by repeat constructor |].
    by rewrite (caught_by_is_oserror e (read_file_error_is_oserror _ _ _ Hr)). }
  destruct (identify c) as [e | [fmt mode]] eqn:Hi.
  { exists [ImageOpen p]. split; [by repeat constructor |].
    by destruct (caught_by _ e). }
  rewrite bind_run, Image_verify_run. simpl. rewrite Hr.
  destruct (verify_of c) as [e |] eqn:Hv.
  { exists [ImageOpen p]. split; [by repeat constructor |].
    by destruct (caught_by _ e). }
  rewrite bind_run, Image_open_run. simpl. rewrite Hr, Hi.
  exists [ImageOpen p; ImageOpen p]. split; [by repeat constructor |].
  unfold mret, M_ret. rewrite after_after. simpl.
  rewrite format_check. f_equal. f_equal.
  destruct c as [i v | |]; simpl in *; try done. subst.
  destruct fmt; done.
Qed.

(** The clause catches exactly the instances of [OSError]
    ([UnidentifiedImageError] is one of its subclasses). *)
Lemma caught_by_validator e :
  caught_by [UnidentifiedImageError; OSError] e = true ↔ is_oserror e.
Proof.
  split; [| apply caught_by_is_oserror].
  unfold is_oserror. destruct e as [[] s]; cbn; try done; set_solver.
Qed.

(** An exception of any other class leaves [is_image_file]. *)
Lemma is_image_file_escape p st e :
  validation_error w (fs st) p = Some e →
  ¬ is_oserror e →
  ∃ evs, is_image_file w p st = (Raise e, after st evs).
Proof.
  intros He Hno. destruct (is_image_file_run p st) as (evs & _ & Hrun).
  exists evs. rewrite Hrun, He.
  destruct (caught_by [UnidentifiedImageError; OSError] e) eqn:E; [| done].
  by apply caught_by_validator in E.
Qed.

End Validator.

(** ** The transcoder *)

Section Transcoder.
Context (w : world).

Lemma Image_open_decode p st :
  Image_open w p st =
  (match decode w (fs st) p with inl e => Raise e | inr img => Val img end,
   after st [ImageOpen p]).
Proof.
  rewrite Image_open_run. unfold decode.
  destruct (read_file w (fs st) p) as [e | c]; [done |].
  by destruct (identify c) as [e | [fmt mode]].
Qed.

Lemma Image_convert_run img mode st :
  Image_convert w img mode st =
  (match convert w img mode with inl e => Raise e | inr img' => Val img' end, st).
Proof. unfold Image_convert, convert. by destruct (w_convert w img mode). Qed.

Lemma jpeg_roundtrip_run img q st :
  jpeg_roundtrip w img q st =
  (match recode w img q with inl e => Raise e | inr img' => Val img' end,
   after st [JpegEncode img q]).
Proof.
  unfold jpeg_roundtrip, recode. rewrite bind_run, emit_run.
  destruct (w_jpeg_save w img q); [done |].
  by destruct (w_jpeg_open w img q).
Qed.

Lemma decode_source m p img : decode w m p = inr img → ∃ f mode, img = Opened p f mode.
Proof.
  unfold decode. destruct (read_file w m p) as [e | c]; [done |].
  destruct (identify c) as [e | [fmt mode]]; [done |]. intros [= <-]. eauto.
Qed.

(** The body of [process_image] computes [transcode] and never exits. *)
Lemma process_image_try_run p q st :
  ∃ evs, Forall (about p) evs ∧
    process_image_try w p q st =
    (match transcode w (fs st) p q with inl e => Raise e | inr img => Val img end,
     after st evs).
Proof.
  unfold process_image_try, transcode.
  rewrite bind_run, Image_open_decode.
  destruct (decode w (fs st) p) as [e | img0] eqn:Hd.
  { exists [ImageOpen p]. split; [by repeat constructor | done]. }
  destruct (decode_source _ _ _ Hd) as (f & mode & ->).
  rewrite bind_run.
  set (img1 := if bool_decide (im_mode (Opened p f mode) ∈ ["RGBA"; "P"])
               then convert w (Opened p f mode) "RGB" else inr (Opened p f mode)).
  assert (H1 : (if bool_decide (im_mode (Opened p f mode) ∈ ["RGBA"; "P"])
                then Image_convert w (Opened p f mode) "RGB" else mret (Opened p f mode))
                 (after st [ImageOpen p]) =
               (match img1 with inl e => Raise e | inr img' => Val img' end,
                after st [ImageOpen p])).
  { unfold img1. destruct (bool_decide _); [apply Image_convert_run | done]. }
  rewrite H1. clear H1.
  assert (Hs1 : ∀ i, img1 = inr i → im_source i = p).
  { unfold img1. intros i. destruct (bool_decide _).
    - unfold convert. destruct (w_convert _ _ _); [done |]. by intros [= <-].
    - by intros [= <-]. }
  destruct img1 as [e | i1].
  { exists [ImageOpen p]. split; [by repeat constructor | done]. }
  specialize (Hs1 i1 eq_refl).
  rewrite bind_run.
  destruct (bool_decide (q ≠ 0)).
  - rewrite jpeg_roundtrip_run, after_after.
    assert (Hev : Forall (about p) ([ImageOpen p] ++ [JpegEncode i1 q])).
    { by repeat constructor. }
    destruct (recode w i1 q) as [e | i2]; [by eexists |].
    rewrite bind_run.
    destruct (bool_decide (im_mode i2 ≠ "RGB")).
    + rewrite Image_convert_run.
      destruct (convert w i2 "RGB") as [e | i3]; by eexists.
    + by eexists.
  - unfold mret at 1, M_ret at 1. rewrite bind_run.
    assert (Hev : Forall (about p) [ImageOpen p]) by by repeat constructor.
    destruct (bool_decide (im_mode i1 ≠ "RGB")).
    + rewrite Image_convert_run.
      destruct (convert w i1 "RGB") as [e | i3]; by eexists.
    + by eexists.
Qed.

(** [process_image] returns the transcoded image, or reports the exception
    and exits with status 1; it never raises. *)
Lemma process_image_run p q st :
  ∃ evs, Forall (about p) evs ∧
    process_image w p q st =
    match transcode w (fs st) p q with
    | inr img => (Val img, after st evs)
    | inl e => (Exit 1, after st (evs ++ [transcode_diagnostic p e]))
    end.
Proof.
  destruct (process_image_try_run p q st) as (evs & Hevs & Hrun).
  exists evs. split; [done |].
  unfold process_image. rewrite try_run, Hrun.
  destruct (transcode w (fs st) p q) as [e | img]; [| done].
  rewrite caught_by_Exception, bind_run. unfold echo_err. rewrite emit_run.
  by rewrite after_after.
Qed.

Lemma convert_mode img mode img' : convert w img mode = inr img' → img' = Converted mode img.
Proof. unfold convert. destruct (w_convert _ _ _); [done |]. by intros [= <-]. Qed.

Lemma recode_shape img q img' : recode w img q = inr img' → ∃ m, img' = Recoded q m img.
Proof.
  unfold recode. destruct (w_jpeg_save _ _ _); [done |].
  destruct (w_jpeg_open _ _ _); [done |]. intros [= <-]. eauto.
Qed.

(** Every image the transcoder returns is in mode RGB and comes from the
    path it was asked to transcode. *)
Lemma transcode_transcoded m p q img : transcode w m p q = inr img → transcoded p img.
Proof.
  unfold transcode, transcoded.
  destruct (decode w m p) as [e | i0] eqn:Hd; [done |].
  destruct (decode_source _ _ _ Hd) as (f & mode & ->).
  assert (H1 : ∀ i, (if bool_decide (im_mode (Opened p f mode) ∈ ["RGBA"; "P"])
                then convert w (Opened p f mode) "RGB" else inr (Opened p f mode)) = inr i →
               im_source i = p).
  { intros i. destruct (bool_decide _).
    - intros ->%convert_mode. done.
    - by intros [= <-]. }
  destruct (if bool_decide (im_mode (Opened p f mode) ∈ ["RGBA"; "P"]) then _ else _)
    as [e | i1]; [done |].
  specialize (H1 i1 eq_refl).
  assert (H2 : ∀ i, (if bool_decide (q ≠ 0) then recode w i1 q else inr i1) = inr i →
               im_source i = p).
  { intros i. destruct (bool_decide _).
    - intros [m' ->]%recode_shape. done.
    - by intros [= <-]. }
  destruct (if bool_decide (q ≠ 0) then _ else _) as [e | i2]; [done |].
  specialize (H2 i2 eq_refl).
  destruct (bool_decide (im_mode i2 ≠ "RGB")) eqn:E.
  - intros ->%convert_mode. done.
  - intros [= <-]. split; [done |].
    apply bool_decide_eq_false in E. by destruct (decide (im_mode i2 = "RGB")).
Qed.

(** For a file decoded in mode RGBA or P, the image handed to the JPEG
    encoder is the plain conversion of the decoded image to RGB. *)
Lemma transcode_alpha_path m p q img f mode :
  transcode w m p q = inr img →
  decode w m p = inr (Opened p f mode) →
  mode ∈ ["RGBA"; "P"] →
  decoded img = Opened p f mode ∧
  (q ≠ 0 → encoded_input img = Some (Converted "RGB" (Opened p f mode))) ∧
  (q = 0 → img = Converted "RGB" (Opened p f mode)).
Proof.
  unfold transcode. intros H Hd Hmode. rewrite Hd in H. simpl in H.
  rewrite (bool_decide_eq_true_2 _ Hmode) in H.
  destruct (convert w (Opened p f mode) "RGB") as [e | i1] eqn:Hc; [done |].
  apply convert_mode in Hc as ->.
  destruct (decide (q = 0)) as [-> | Hq].
  - simpl in H. injection H as <-. split_and!; done.
  - rewrite (bool_decide_eq_true_2 _ Hq) in H.
    destruct (recode w _ q) as [e | i2] eqn:Hr; [done |].
    apply recode_shape in Hr as [m' ->].
    destruct (bool_decide _).
    + apply convert_mode in H as ->. split_and!; done.
    + injection H as <-. split_and!; done.
Qed.

End Transcoder.

(** ** Sorting *)

Lemma insert_by_key_perm x l : Permutation (insert_by_key x l) (x :: l).
Proof.
  induction l as [| y l IH]; simpl; [done |].
  destruct (x.1 <=? y.1); [done |].
  rewrite IH. apply perm_swap.
Qed.

Lemma sort_by_key_perm l : Permutation (sort_by_key l) l.
Proof.
  induction l as [| x l IH]; simpl; [done |].
  rewrite insert_by_key_perm. by constructor.
Qed.

Lemma insert_by_key_sorted x l :
  StronglySorted key_le l → StronglySorted key_le (insert_by_key x l).
Proof.
  induction 1 as [| y l Hl IH Hy]; simpl.
  { repeat constructor. }
  destruct (Z.leb_spec x.1 y.1) as [Hle | Hgt].
  - constructor; [by constructor |].
    constructor; [done |].
    eapply Forall_impl; [exact Hy |]. unfold key_le. intros z Hz. lia.
  - constructor; [done |].
    rewrite insert_by_key_perm. constructor; [unfold key_le; lia | done].
Qed.

Lemma sort_by_key_sorted l : StronglySorted key_le (sort_by_key l).
Proof.
  induction l as [| x l IH]; simpl; [constructor |].
  by apply insert_by_key_sorted.
Qed.

Lemma StronglySorted_map_snd (g : string → Z) (l : list (Z * string)) :
  Forall (fun x => x.1 = g x.2) l →
  StronglySorted key_le l →
  StronglySorted (fun f f' => g f ≤ g f') (map snd l).
Proof.
  intros Hg Hs. induction Hs as [| x l Hl IH Hx]; simpl; [constructor |].
  apply Forall_cons in Hg as [Hgx Hgl].
  constructor; [by apply IH |].
  apply Forall_map. apply Forall_forall. intros y Hy.
  rewrite Forall_forall in Hx, Hgl. specialize (Hx y Hy). specialize (Hgl y Hy).
  unfold key_le in Hx. simpl. lia.
Qed.

(** ** The collector *)

Section Collector.
Context (w : world).

Lemma accepts_stat m p :
  accepts w m p = true → ∃ t c, stat w m p = Some (File t c).
Proof.
  unfold accepts, read_file. destruct (stat w m p) as [[t c | t ns] |]; try done. eauto.
Qed.

Lemma accepts_isfile m p : accepts w m p = true → isfile w m p = true.
Proof. intros (t & c & H)%accepts_stat. unfold isfile. by rewrite H. Qed.

Lemma accepts_no_error m p : accepts w m p = true → validation_error w m p = None.
Proof.
  unfold accepts, validation_error.
  destruct (read_file w m p) as [e | [[e | [[f |] mode]] [v |] | |]]; done.
Qed.

Lemma error_not_accepted m p e : validation_error w m p = Some e → accepts w m p = false.
Proof.
  intros H. destruct (accepts w m p) eqn:E; [| done].
  apply accepts_no_error in E. congruence.
Qed.

(** On a path that [validates], [is_image_file] returns its verdict. *)
Lemma is_image_file_verdict p st :
  validates w (fs st) p →
  ∃ evs, Forall (eq (ImageOpen p)) evs ∧
    is_image_file w p st = (Val (accepts w (fs st) p), after st evs).
Proof.
  intros Hv. destruct (is_image_file_run w p st) as (evs & Hevs & Hrun).
  exists evs. split; [done |]. rewrite Hrun.
  destruct (validation_error w (fs st) p) as [e |] eqn:He; [| done].
  rewrite (caught_by_is_oserror e (Hv e He)).
  by rewrite (error_not_accepted _ _ _ He).
Qed.

(** Whatever the verdict, the first event of [is_image_file] is the opening
    of the file, and the others are openings too. *)
Lemma select_images_run d names st :
  (∀ f, f ∈ names → validates w (fs st) (join d f)) →
  ∃ evs, Forall (fun e => ∃ p, e = ImageOpen p) evs ∧
    select_images w d names st = (Val (accepted_names w (fs st) d names), after st evs).
Proof.
  revert st. induction names as [| f rest IH]; intros st Hv; simpl.
  { exists []. by rewrite after_nil. }
  destruct (is_image_file_verdict (join d f) st) as (evs & Hevs & Hrun).
  { apply Hv. by left. }
  rewrite bind_run, Hrun.
  destruct (IH (after st evs)) as (evs' & Hevs' & Hrun').
  { intros f' Hf'. apply Hv. by right. }
  rewrite bind_run, Hrun'. simpl.
  exists (evs ++ evs'). rewrite after_after. split.
  - apply Forall_app. split; [| done].
    eapply Forall_impl; [exact Hevs |]. intros e <-. eauto.
  - unfold mret, M_ret. f_equal. f_equal. unfold accepted_names.
    rewrite filter_cons. destruct (accepts w (fs st) (join d f)) eqn:E.
    + by rewrite decide_True.
    + by rewrite decide_False.
Qed.

Lemma os_path_getmtime_run p st :
  path_exists w (fs st) p = true →
  os_path_getmtime w p st = (Val (mtime_of w (fs st) p), st).
Proof.
  unfold os_path_getmtime, path_exists, mtime_of. rewrite bind_run. simpl.
  by destruct (stat w (fs st) p) as [[] |].
Qed.

Lemma mapM_getmtime d files st :
  (∀ f, f ∈ files → accepts w (fs st) (join d f) = true) →
  mapM (fun x => os_path_getmtime w (join d x)) files st =
  (Val (map (fun f => mtime_of w (fs st) (join d f)) files), st).
Proof.
  induction files as [| f rest IH]; intros Hacc; simpl; [done |].
  rewrite bind_run, os_path_getmtime_run.
  - rewrite bind_run, IH; [done |]. intros f' Hf'. apply Hacc. by right.
  - destruct (accepts_stat (fs st) (join d f)) as (t & c & Hst).
    + apply Hacc. by left.
    + unfold path_exists. by rewrite Hst.
Qed.

Lemma zip_map_keys {A B} (g : A → B) (l : list A) :
  zip (map g l) l = map (fun x => (g x, x)) l.
Proof. induction l as [| x l IH]; simpl; [done | by rewrite IH]. Qed.

Lemma os_listdir_run d st :
  os_listdir w d st =
  (match stat w (fs st) d with
   | None => Raise (no_such_file d)
   | Some (File _ _) => Raise (not_a_directory d)
   | Some (Dir _ names) => Val names
   end, after st [Listdir d]).
Proof.
  unfold os_listdir. rewrite bind_run, emit_run, bind_run. simpl.
  by destruct (stat w (fs st) d) as [[] |].
Qed.

(** The scan of a directory whose entries all get a verdict. *)
Lemma get_images_from_directory_run d st t names :
  stat w (fs st) d = Some (Dir t names) →
  (∀ f, f ∈ names → validates w (fs st) (join d f)) →
  ∃ evs, Forall (fun e => ∃ p, e = ImageOpen p) evs ∧
    get_images_from_directory w d st =
    (Val (scan w (fs st) d names), after st (Listdir d :: evs)).
Proof.
  intros Hst Hv. unfold get_images_from_directory.
  rewrite bind_run, os_listdir_run, Hst.
  destruct (select_images_run d names (after st [Listdir d]) Hv) as (evs & Hevs & Hrun).
  rewrite bind_run, Hrun, bind_run, mapM_getmtime.
  - exists evs. split; [done |]. rewrite after_after. simpl.
    unfold mret, M_ret, scan. by rewrite zip_map_keys.
  - intros f Hf. unfold accepted_names in Hf.
    by apply list_elem_of_filter in Hf as [Hf _].
Qed.

(** The scan returns the accepted entries, by ascending modification time. *)
Lemma scan_sorted m d names :
  ∃ files, scan w m d names = map (join d) files ∧
    Permutation files (accepted_names w m d names) ∧
    StronglySorted (by_mtime w m d) files.
Proof.
  unfold scan.
  set (keyed := map (fun f => (mtime_of w m (join d f), f)) (accepted_names w m d names)).
  exists (map snd (sort_by_key keyed)). split_and!; [done | |].
  - rewrite sort_by_key_perm. unfold keyed. rewrite map_map. simpl.
    by rewrite map_id.
  - apply (StronglySorted_map_snd (fun f => mtime_of w m (join d f)));
      [| apply sort_by_key_sorted].
    assert (Hk : Forall (fun x : Z * string => x.1 = mtime_of w m (join d x.2)) keyed).
    { unfold keyed. apply Forall_map. by apply Forall_forall. }
    by rewrite sort_by_key_perm.
Qed.

End Collector.

(** * The claims *)

(** ** C7: absolute arguments with a base directory *)

Lemma check_relative_absolute imgs st :
  Exists (fun p => isabs p = true) imgs →
  check_relative imgs st =
  (Exit 1,
   after st [Echo true
     "Ошибка: при использовании -d файлы должны быть указаны без полного пути."]).
Proof.
  induction imgs as [| img rest IH]; intros H; [by apply Exists_nil in H |].
  simpl. destruct (isabs img) eqn:E; [done |].
  apply Exists_cons in H as [H | H]; [congruence | by apply IH].
Qed.

Lemma isdir_given w m d : isdir w m d = true → given (Some d) = Some d.
Proof.
  unfold isdir, stat, given. by destruct (String.eqb d "").
Qed.

(** C7. If [-d] names a directory and some positional argument is an
    absolute path, the run ends with exit status 1 after printing the usage
    error on standard error, and that line is its only effect: no file is
    opened, encoded, written or removed and the file system is as before. *)
Theorem C7_absolute_argument_with_input_dir (w : world) (a : args) (st : state) (d : string) :
  input_dir a = Some d →
  isdir w (fs st) d = true →
  Exists (fun p => isabs p = true) (images a) →
  main w a st =
  (Exit 1,
   after st [Echo true
     "Ошибка: при использовании -d файлы должны быть указаны без полного пути."])
  ∧ exit_status (main w a st).1 ≠ 0.
Proof.
  intros Hd Hdir Habs.
  assert (Hmain : main w a st =
    (Exit 1, after st [Echo true
       "Ошибка: при использовании -d файлы должны быть указаны без полного пути."])).
  { unfold main, collect. rewrite Hd, (isdir_given _ _ _ Hdir).
    destruct (images a) as [| first rest] eqn:Himgs; [by apply Exists_nil in Habs |].
    rewrite !bind_run. by rewrite (check_relative_absolute _ _ Habs). }
  split; [done |]. by rewrite Hmain.
Qed.

Lemma C7_witness :
  main demo (demo_args ["a.png"; "/home/u/b.png"] (Some "/home/u") "out.pdf" false true true)
    (start demo_fs) =
  (Exit 1,
   after (start demo_fs) [Echo true
     "Ошибка: при использовании -d файлы должны быть указаны без полного пути."])
  ∧ exit_status
      (main demo (demo_args ["a.png"; "/home/u/b.png"] (Some "/home/u") "out.pdf"
                    false true true) (start demo_fs)).1 ≠ 0.
Proof.
  apply (C7_absolute_argument_with_input_dir demo _ (start demo_fs) "/home/u").
  - reflexivity.
  - vm_compute. reflexivity.
  - apply Exists_cons_tl, Exists_cons_hd. reflexivity.
Defined.

(** ** C3: the validator *)

(** On a path where every failure of opening, decoding or verifying is an
    [OSError] (which covers missing files, directories, files of zero
    bytes and undecodable files), [is_image_file] returns a boolean, opens
    files and does nothing else, and the boolean is true exactly when the
    file decodes, verifies and has a format other than GIF. *)
Lemma is_image_file_accepts_iff (w : world) (p : string) (st : state) :
  validates w (fs st) p →
  ∃ b evs,
    is_image_file w p st = (Val b, after st evs) ∧
    Forall (eq (ImageOpen p)) evs ∧
    (b = true ↔
     ∃ t f mode, stat w (fs st) p = Some (File t (Bytes (inr (Some f, mode)) None))
                 ∧ f ≠ "GIF").
Proof.
  intros Hv. destruct (is_image_file_verdict w p st Hv) as (evs & Hevs & Hrun).
  exists (accepts w (fs st) p), evs. split_and!; [done | done |].
  unfold accepts, read_file. split.
  - intros Hb.
    destruct (stat w (fs st) p)
      as [[t [[e | [[f |] mode]] [v |] | |] | t names] |]; simpl in Hb; try done.
    destruct (String.eqb_spec f "GIF") as [-> | Hne]; [done |]. eauto 6.
  - intros (t & f & mode & -> & Hne). simpl.
    by destruct (String.eqb_spec f "GIF").
Qed.

(** C3. The code departs from the claim at a PNG file with a bad
    checksum: the file opens, [verify] raises [SyntaxError], the [except]
    clause of the predicate names only [UnidentifiedImageError] and
    [IOError], and so the exception leaves [is_image_file], which was to
    answer [False] for a file that fails the integrity check. *)
Theorem C3_broken_png_escapes_validator :
  stat demo demo_fs "/home/u/broken.png" = Some (File 9 broken_png) ∧
  validation_error demo demo_fs "/home/u/broken.png" =
    Some (Exc SyntaxError "broken PNG file") ∧
  caught_by [UnidentifiedImageError; OSError] (Exc SyntaxError "broken PNG file") = false ∧
  is_image_file demo "/home/u/broken.png" (start demo_fs) =
    (Raise (Exc SyntaxError "broken PNG file"),
     after (start demo_fs) [ImageOpen "/home/u/broken.png"]).
Proof. split_and!; vm_compute; reflexivity. Qed.

(** ** C4: the transcoder *)

Lemma transcode_decoded w m p q img :
  transcode w m p q = inr img → decode w m p = inr (decoded img).
Proof.
  unfold transcode.
  destruct (decode w m p) as [e | i0] eqn:Hd; [done |].
  destruct (decode_source _ _ _ _ Hd) as (f & mode & ->).
  assert (H1 : ∀ i, (if bool_decide (im_mode (Opened p f mode) ∈ ["RGBA"; "P"])
                then convert w (Opened p f mode) "RGB" else inr (Opened p f mode)) = inr i →
               decoded i = Opened p f mode).
  { intros i. destruct (bool_decide _).
    - by intros ->%convert_mode.
    - by intros [= <-]. }
  destruct (if bool_decide (im_mode (Opened p f mode) ∈ ["RGBA"; "P"]) then _ else _)
    as [e | i1]; [done |].
  specialize (H1 i1 eq_refl).
  assert (H2 : ∀ i, (if bool_decide (q ≠ 0) then recode w i1 q else inr i1) = inr i →
               decoded i = Opened p f mode).
  { intros i. destruct (bool_decide _).
    - by intros [m' ->]%recode_shape.
    - by intros [= <-]. }
  destruct (if bool_decide (q ≠ 0) then _ else _) as [e | i2]; [done |].
  specialize (H2 i2 eq_refl).
  destruct (bool_decide (im_mode i2 ≠ "RGB")).
  - intros ->%convert_mode. simpl. by rewrite H2.
  - intros [= <-]. by rewrite H2.
Qed.

(** [process_image] never raises: it returns an image or reports the
    exception of a Pillow call and exits with status 1.  An image it
    returns is in mode RGB and decoded from the path given; when the file
    decoded in mode RGBA or P, what went into the JPEG encoder is the plain
    [convert('RGB')] of the decoded image, with no other step in between
    (and without re-encoding that conversion is the result). *)
Lemma process_image_outcome (w : world) (p : string) (q : Z) (st : state)
    (r : result image) (st' : state) :
  process_image w p q st = (r, st') →
  (∃ img,
     r = Val img ∧ transcode w (fs st) p q = inr img ∧
     im_mode img = "RGB" ∧ im_source img = p ∧
     ∀ f mode, decoded img = Opened p f mode → mode ∈ ["RGBA"; "P"] →
       (q ≠ 0 → encoded_input img = Some (Converted "RGB" (Opened p f mode))) ∧
       (q = 0 → img = Converted "RGB" (Opened p f mode)))
  ∨ (∃ e evs,
       r = Exit 1 ∧ transcode w (fs st) p q = inl e ∧
       st' = after st (evs ++ [transcode_diagnostic p e]) ∧ Forall (about p) evs).
Proof.
  intros Hrun. destruct (process_image_run w p q st) as (evs & Hevs & Hspec).
  rewrite Hrun in Hspec.
  destruct (transcode w (fs st) p q) as [e | img] eqn:Ht.
  - right. injection Hspec as -> ->. by exists e, evs.
  - left. injection Hspec as -> ->. exists img.
    destruct (transcode_transcoded _ _ _ _ _ Ht) as [Hsrc Hmode].
    split_and!; try done.
    intros f mode Hdec Hin.
    pose proof (transcode_decoded _ _ _ _ _ Ht) as Hd. rewrite Hdec in Hd.
    by destruct (transcode_alpha_path _ _ _ _ _ _ _ Ht Hd Hin) as (_ & H1 & H2).
Qed.

(** C4. The code departs from the claim at a validated PNG file in mode
    LA (grey with an alpha channel): the comment of line 32 speaks of an
    alpha channel or a palette, its test names only RGBA and P, so the
    image is not converted and reaches the JPEG encoder with its alpha
    channel; the encoder refuses the mode, and [process_image] ends the
    run instead of returning an RGB image. *)
Theorem C4_alpha_mode_la_not_converted :
  is_image_file demo "b.png" (start demo_fs) =
    (Val true, after (start demo_fs) [ImageOpen "b.png"; ImageOpen "b.png"]) ∧
  decode demo demo_fs "b.png" = inr (Opened "b.png" (Some "PNG") "LA") ∧
  process_image demo "b.png" 80 (start demo_fs) =
    (Exit 1,
     after (start demo_fs)
       [ImageOpen "b.png";
        JpegEncode (Opened "b.png" (Some "PNG") "LA") 80;
        Echo true "Ошибка обработки изображения b.png: cannot write mode LA as JPEG"]).
Proof. split_and!; vm_compute; reflexivity. Qed.

(** ** C2: the directory scan *)

Section Scan.
Context (w : world).

Lemma get_images_from_directory_events d st r st' :
  get_images_from_directory w d st = (r, st') →
  ∃ evs, st' = after st (Listdir d :: evs) ∧ Forall opening evs.
Proof.
  unfold get_images_from_directory. rewrite bind_run, os_listdir_run.
  destruct (stat w (fs st) d) as [[t c | t names] |].
  - intros [= <- <-]. by exists [].
  - intros H.
    assert (Hfp : footprint opening anything
      (files ← select_images w d names;
       keys ← mapM (fun x => os_path_getmtime w (join d x)) files;
       mret (map (join d) (map snd (sort_by_key (zip keys files)))))).
    { eapply footprint_bind with (Q := anything).
      - clear. induction names as [| f rest IH]; simpl; [by apply footprint_ret |].
        eapply footprint_bind with (Q := anything).
        + eapply footprint_mono; [| | apply is_image_file_footprint]; [| done].
          intros e <-. by eexists.
        + intros b _. eapply footprint_bind; [apply IH | intros files _].
          by apply footprint_ret.
      - intros files _. eapply footprint_bind with (Q := anything).
        + apply mapM_footprint. intros. apply os_path_getmtime_footprint.
        + intros keys _. by apply footprint_ret. }
    destruct (Hfp _ _ _ H) as (evs & -> & Hevs & _).
    exists evs. by rewrite after_after.
  - intros [= <- <-]. by exists [].
Qed.

Lemma check_relative_ok imgs st :
  Forall (fun p => isabs p = false) imgs → check_relative imgs st = (Val tt, st).
Proof.
  induction 1 as [| img rest Himg Hrest IH]; simpl; [done |]. by rewrite Himg.
Qed.

Lemma absolute_or_relative (imgs : list string) :
  Exists (fun p => isabs p = true) imgs ∨ Forall (fun p => isabs p = false) imgs.
Proof.
  induction imgs as [| img rest [IH | IH]].
  - right. constructor.
  - left. by right.
  - destruct (isabs img) eqn:E; [left; by left | right; by constructor].
Qed.

Lemma relative_not_absolute (imgs : list string) :
  Exists (fun p => isabs p = true) imgs → ¬ Forall (fun p => isabs p = false) imgs.
Proof.
  intros Hex Hall. apply Exists_exists in Hex as (p & Hp & Habs).
  rewrite Forall_forall in Hall. specialize (Hall p Hp). congruence.
Qed.

(** When the scan is requested, the collector is the scan followed by its
    progress line. *)
Lemma collect_scan a st :
  scan_requested a →
  collect w a st =
  (imgs ← get_images_from_directory w (scan_directory w a);
   when (verbose a) (echo (scan_report a (length imgs)));;
   mret imgs) st.
Proof.
  intros [[rest Himgs] Hrel]. unfold collect, scan_directory, scan_report.
  rewrite Himgs. destruct (given (input_dir a)) as [d |] eqn:Hd; [| done].
  rewrite bind_run, check_relative_ok; [done |].
  rewrite <- Himgs. by apply Hrel.
Qed.

(** When it is not, the collector lists nothing and opens nothing. *)
Lemma collect_no_scan a st r st' :
  ¬ scan_requested a →
  collect w a st = (r, st') →
  ∃ evs, st' = after st evs ∧ Forall complaint evs.
Proof.
  intros Hno. unfold collect.
  destruct (given (input_dir a)) as [d |] eqn:Hd;
    destruct (images a) as [| first rest] eqn:Himgs.
  - rewrite bind_run. unfold echo_err. rewrite emit_run. intros [= <- <-].
    eexists. split; [done |]. repeat constructor. by eexists.
  - rewrite bind_run.
    destruct (absolute_or_relative (first :: rest)) as [Habs | Hrel].
    + rewrite (check_relative_absolute _ _ Habs). intros [= <- <-].
      eexists. split; [done |]. repeat constructor. by eexists.
    + rewrite (check_relative_ok _ _ Hrel).
      destruct (String.eqb_spec first "auto-stamp") as [-> | Hne].
      * destruct Hno. split; [by exists rest |]. by rewrite Himgs.
      * intros [= <- <-]. exists []. by rewrite after_nil.
  - rewrite bind_run. intros [= <- <-]. exists []. by rewrite after_nil.
  - destruct (String.eqb_spec first "auto-stamp") as [-> | Hne].
    + destruct Hno. split; [by exists rest |]. by rewrite Hd.
    + rewrite bind_run. intros [= <- <-]. exists []. by rewrite after_nil.
Qed.

Lemma scan_requested_dec a : scan_requested a ∨ ¬ scan_requested a.
Proof.
  unfold scan_requested.
  destruct (images a) as [| first rest] eqn:Himgs.
  { right. by intros [[? ?] _]. }
  destruct (String.eqb_spec first "auto-stamp") as [-> | Hne].
  - destruct (absolute_or_relative ("auto-stamp" :: rest)) as [Habs | Hrel].
    + destruct (given (input_dir a)) as [d |].
      * right. intros [_ H]. by apply (relative_not_absolute _ Habs), H.
      * left. split; [by exists rest | done].
    + left. split; [by exists rest | done].
  - right. intros [[? [= -> _]] _]. done.
Qed.

End Scan.

(** C2 (as amended). The collector lists a directory exactly when the
    first positional argument is [auto-stamp] (and, with [-d], no argument
    is absolute); the directory listed is the one given with [-d], else the
    working directory; and when that directory can be listed and the
    validator gives a verdict on each entry, the result is the entries it
    accepts, joined to the directory, in ascending order of modification
    time. *)
Theorem C2_directory_scan (w : world) (a : args) (st : state)
    (r : result (list string)) (st' : state) :
  collect w a st = (r, st') →
  ∃ evs, st' = after st evs ∧
    ((∃ d, Listdir d ∈ evs) ↔ scan_requested a) ∧
    (∀ d, Listdir d ∈ evs → d = scan_directory w a) ∧
    (scan_requested a → ∀ t names,
       stat w (fs st) (scan_directory w a) = Some (Dir t names) →
       (∀ f, f ∈ names → validates w (fs st) (join (scan_directory w a) f)) →
       ∃ files,
         r = Val (map (join (scan_directory w a)) files) ∧
         Permutation files (accepted_names w (fs st) (scan_directory w a) names) ∧
         StronglySorted (by_mtime w (fs st) (scan_directory w a)) files).
Proof.
  intros Hrun. destruct (scan_requested_dec a) as [Hreq | Hno].
  - rewrite (collect_scan w a st Hreq), bind_run in Hrun.
    destruct (get_images_from_directory w (scan_directory w a) st) as [r1 st1] eqn:Hscan.
    destruct (get_images_from_directory_events _ _ _ _ _ Hscan) as (evs & -> & Hevs).
    assert (Hno_listdir : ∀ d, Listdir d ∈ evs → False).
    { intros d Hd. rewrite Forall_forall in Hevs. by destruct (Hevs _ Hd). }
    assert (Hrest : ∃ evs', st' = after st (Listdir (scan_directory w a) :: evs ++ evs')
                            ∧ Forall (fun e => ∃ l, e = Echo false l) evs'
                            ∧ ∀ imgs, r1 = Val imgs → r = Val imgs).
    { destruct r1 as [imgs | e | c].
      - rewrite bind_run in Hrun. destruct (verbose a); simpl in Hrun.
        + injection Hrun as <- <-.
          exists [Echo false (scan_report a (length imgs))].
          split_and!; [| | by intros ? [= <-]].
          * unfold after. simpl. by rewrite <- app_assoc.
          * repeat constructor. by eexists.
        + injection Hrun as <- <-. exists []. rewrite app_nil_r.
          split_and!; [done | constructor | by intros ? [= <-]].
      - injection Hrun as <- <-. exists []. rewrite app_nil_r.
        split_and!; [done | constructor | done].
      - injection Hrun as <- <-. exists []. rewrite app_nil_r.
        split_and!; [done | constructor | done]. }
    destruct Hrest as (evs' & -> & Hevs' & Hr).
    assert (Hno_listdir' : ∀ d, Listdir d ∈ evs' → False).
    { intros d Hd. rewrite Forall_forall in Hevs'. by destruct (Hevs' _ Hd). }
    eexists. split; [done |]. split_and!.
    + split; [done |]. intros _. exists (scan_directory w a). by left.
    + intros d [[= ->] | [Hd | Hd]%elem_of_app]%elem_of_cons;
        [done | by destruct (Hno_listdir d) | by destruct (Hno_listdir' d)].
    + intros _ t names Hst Hv.
      destruct (get_images_from_directory_run w _ st t names Hst Hv) as (evs0 & _ & Hrun0).
      rewrite Hrun0 in Hscan. injection Hscan as <- _.
      destruct (scan_sorted w (fs st) (scan_directory w a) names) as (files & Hf & Hp & Hs).
      exists files. split_and!; [| done | done]. rewrite <- Hf. by apply Hr.
  - destruct (collect_no_scan w a st r st' Hno Hrun) as (evs & -> & Hevs).
    exists evs. split; [done |].
    assert (Hno_listdir : ∀ d, Listdir d ∈ evs → False).
    { intros d Hd. rewrite Forall_forall in Hevs. by destruct (Hevs _ Hd). }
    split_and!.
    + split; [intros [d Hd]; by destruct (Hno_listdir d) | done].
    + intros d Hd. by destruct (Hno_listdir d).
    + done.
Qed.

Lemma C2_witness :
  ∃ files,
    (collect demo (demo_args ["auto-stamp"] (Some "scans") "out.pdf" false false false)
       (start demo_fs)).1 = Val (map (join "scans") files) ∧
    Permutation files (accepted_names demo demo_fs "scans"
                         ["p3.png"; "anim.gif"; "p1.png"; "notes.txt"; "p2.jpg"]) ∧
    StronglySorted (by_mtime demo demo_fs "scans") files.
Proof.
  destruct (C2_directory_scan demo
              (demo_args ["auto-stamp"] (Some "scans") "out.pdf" false false false)
              (start demo_fs) _ _ (surjective_pairing _)) as (evs & _ & _ & _ & H).
  assert (Hreq : scan_requested
            (demo_args ["auto-stamp"] (Some "scans") "out.pdf" false false false)).
  { split; [by exists [] | intros _; by repeat constructor]. }
  apply (H Hreq 0 ["p3.png"; "anim.gif"; "p1.png"; "notes.txt"; "p2.jpg"] eq_refl).
  intros f Hf e He.
  repeat (apply elem_of_cons in Hf as [-> | Hf]); try (vm_compute in He; discriminate).
  - vm_compute in He. injection He as <-. apply list_elem_of_In. simpl. auto.
  - by apply elem_of_nil in Hf.
Defined.

(** C2, as stated, fails: with [auto-stamp] first and another argument
    after it the sentinel is not the sole argument, and the collector
    lists the directory all the same, returning entries that were not
    named. *)
Lemma C2_counterexample :
  collect demo (demo_args ["auto-stamp"; "p1.png"] (Some "scans") "out.pdf" false false false)
    (start demo_fs) =
  (Val ["scans/p1.png"; "scans/p2.jpg"; "scans/p3.png"],
   after (start demo_fs)
     [Listdir "scans";
      ImageOpen "scans/p3.png"; ImageOpen "scans/p3.png";
      ImageOpen "scans/anim.gif"; ImageOpen "scans/anim.gif";
      ImageOpen "scans/p1.png"; ImageOpen "scans/p1.png";
      ImageOpen "scans/notes.txt";
      ImageOpen "scans/p2.jpg"; ImageOpen "scans/p2.jpg"]).
Proof. vm_compute. reflexivity. Qed.

(** ** C6: the filter loop *)

Section Filter.
Context (w : world).

Lemma echoes_app evs evs' : echoes (evs ++ evs') = echoes evs ++ echoes evs'.
Proof. unfold echoes. apply omap_app. Qed.

Lemma echoes_openings p evs : Forall (eq (ImageOpen p)) evs → echoes evs = [].
Proof. induction 1 as [| e evs <- _ IH]; [done | exact IH]. Qed.

Lemma os_path_isfile_run p st : os_path_isfile w p st = (Val (isfile w (fs st) p), st).
Proof. reflexivity. Qed.

Lemma rejection_none m p : rejection w m p = None ↔ accepts w m p = true.
Proof.
  unfold rejection. split.
  - destruct (isfile w m p); [| done]. by destruct (accepts w m p).
  - intros H. by rewrite (accepts_isfile w m p H), H.
Qed.

Lemma validate_run v imgs acc st :
  (∀ p, p ∈ imgs → validates w (fs st) p) →
  ∃ evs,
    validate w v imgs acc st = (Val (acc ++ validated w (fs st) imgs), after st evs) ∧
    echoes evs = if v then map (pair true) (omap (rejection w (fs st)) imgs) else [].
Proof.
  revert acc st. induction imgs as [| p rest IH]; intros acc st Hv.
  { exists []. rewrite after_nil, app_nil_r. by destruct v. }
  assert (Hrest : ∀ evs0 : list event,
            ∀ p', p' ∈ rest → validates w (fs (after st evs0)) p').
  { intros evs0 p' Hp'. apply Hv. by right. }
  assert (Hp : validates w (fs st) p) by (apply Hv; by left).
  destruct (is_image_file_verdict w p st Hp) as (evs1 & Hevs1 & Hrun1).
  pose proof (echoes_openings _ _ Hevs1) as Hech1.
  cbn [validate]. rewrite bind_run, os_path_isfile_run.
  unfold validated. rewrite filter_cons. cbn [omap list_omap].
  unfold rejection at 1.
  destruct (isfile w (fs st) p) eqn:Hfile; cbn [negb].
  - rewrite bind_run, Hrun1.
    destruct (accepts w (fs st) p) eqn:Hacc; cbn [negb].
    + destruct (IH (acc ++ [p]) (after st evs1) (Hrest evs1)) as (evs & Hrun & Hech).
      exists (evs1 ++ evs). rewrite Hrun, after_after, <- app_assoc.
      rewrite decide_True by done. split; [done |].
      rewrite echoes_app, Hech1. exact Hech.
    + rewrite bind_run. rewrite decide_False by done.
      destruct v; unfold when.
      * unfold echo_err. rewrite emit_run, after_after.
        destruct (IH acc (after st (evs1 ++ [Echo true ("Файл не является изображением: " +:+ p)]))
                    (Hrest _)) as (evs & Hrun & Hech).
        eexists. rewrite Hrun, after_after. split; [done |].
        rewrite !echoes_app, Hech1, Hech. done.
      * destruct (IH acc (after st evs1) (Hrest evs1)) as (evs & Hrun & Hech).
        eexists. unfold mret at 1, M_ret at 1. rewrite Hrun, after_after.
        split; [done |]. by rewrite echoes_app, Hech1.
  - rewrite bind_run.
    assert (Hacc : accepts w (fs st) p = false).
    { destruct (accepts w (fs st) p) eqn:E; [| done].
      apply accepts_isfile in E. congruence. }
    rewrite decide_False by (rewrite Hacc; done).
    destruct v; unfold when.
    + unfold echo_err. rewrite emit_run.
      destruct (IH acc (after st [Echo true ("Файл не найден: " +:+ p)]) (Hrest _))
        as (evs & Hrun & Hech).
      eexists. rewrite Hrun, after_after. split; [done |].
      rewrite echoes_app, Hech. done.
    + destruct (IH acc st) as (evs & Hrun & Hech).
      { intros p' Hp'. apply Hv. by right. }
      exists evs. unfold mret at 1, M_ret at 1. by rewrite Hrun.
Qed.

(** After the filter loop (lines 128-133). *)
Lemma finish_run a v st :
  finish w a v st =
  match v with
  | [] => (Exit 1, after st (validation_report a v ++ [no_valid_images]))
  | _ :: _ => proceed w a v (after st (validation_report a v))
  end.
Proof.
  unfold finish, validation_report. rewrite bind_run.
  destruct v, (verbose a); simpl; rewrite ?bind_run; unfold echo_err;
    rewrite ?emit_run; unfold after; simpl;
    rewrite <- ?app_assoc, ?app_nil_r; try done; by destruct st.
Qed.

End Filter.

(** When the validator gives a verdict on every collected path, the filter
    loop completes and keeps exactly the accepted paths, in order; it
    prints nothing unless verbose is set, and then exactly one line on
    standard error for each path it drops; and the run ends there, with
    exit status 1, exactly when no path is kept: otherwise it goes on to
    the dry run or to transcoding. *)
Lemma filter_loop_outcome (w : world) (a : args) (st0 : state)
    (imgs : list string) (st : state) :
  collect w a st0 = (Val imgs, st) →
  (∀ p, p ∈ imgs → validates w (fs st) p) →
  ∃ evs,
    validate w (verbose a) imgs [] st = (Val (validated w (fs st) imgs), after st evs) ∧
    (∀ p, p ∈ validated w (fs st) imgs ↔ p ∈ imgs ∧ rejection w (fs st) p = None) ∧
    echoes evs =
      (if verbose a then map (pair true) (omap (rejection w (fs st)) imgs) else []) ∧
    (validated w (fs st) imgs = [] → (main w a st0).1 = Exit 1) ∧
    (validated w (fs st) imgs ≠ [] →
     main w a st0 =
     proceed w a (validated w (fs st) imgs)
       (after st (evs ++ validation_report a (validated w (fs st) imgs)))).
Proof.
  intros Hcol Hv.
  destruct (validate_run w (verbose a) imgs [] st Hv) as (evs & Hrun & Hech).
  simpl in Hrun. exists evs. split_and!; [done | | done | |].
  - intros p. unfold validated. rewrite list_elem_of_filter, rejection_none. tauto.
  - intros Hnone. unfold main. rewrite bind_run, Hcol.
    destruct imgs as [| p rest]; [by rewrite bind_run |].
    by rewrite bind_run, Hrun, finish_run, Hnone.
  - intros Hsome. unfold main. rewrite bind_run, Hcol.
    destruct imgs as [| p rest]; [done |].
    rewrite bind_run, Hrun, finish_run.
    destruct (validated w (fs st) (p :: rest)); [done | by rewrite after_after].
Qed.

(** C6. The code departs from the claim at a collected PNG file with a
    bad checksum: the path fails image validation and is not dropped; the
    [SyntaxError] of [verify] leaves [is_image_file] and the filter loop,
    which calls it without a [try], and the run ends with a traceback
    although another path ([a.png]) had passed the filter.  The defect is
    the one of C3. *)
Theorem C6_broken_png_aborts_run :
  accepts demo demo_fs "/home/u/a.png" = true ∧
  validation_error demo demo_fs "/home/u/broken.png" =
    Some (Exc SyntaxError "broken PNG file") ∧
  main demo (demo_args ["a.png"; "broken.png"] None "out.pdf" false false true)
    (start demo_fs) =
  (Raise (Exc SyntaxError "broken PNG file"),
   after (start demo_fs)
     [ImageOpen "/home/u/a.png"; ImageOpen "/home/u/a.png";
      ImageOpen "/home/u/broken.png"]).
Proof. split_and!; vm_compute; reflexivity. Qed.

(** ** C5: the dry run *)

Section DryRun.
Context (w : world).

Lemma list_files_run idx v st :
  list_files idx v st =
  (Val tt,
   after st (map (Echo false)
               (imap (fun i p => pretty (idx + i)%nat +:+ " --- " +:+ p) v))).
Proof.
  revert idx st. induction v as [| p rest IH]; intros idx st; simpl.
  { by rewrite after_nil. }
  rewrite bind_run. unfold echo. rewrite emit_run, IH, after_after.
  rewrite Nat.add_0_r.
  rewrite (imap_ext ((fun i p0 => pretty (idx + i)%nat +:+ " --- " +:+ p0) ∘ S)
             (fun i p0 => pretty (S idx + i)%nat +:+ " --- " +:+ p0) rest); [done |].
  intros i x _. simpl. by rewrite Nat.add_succ_r.
Qed.

Lemma proceed_dry_run a v st :
  dry_run a = true →
  proceed w a v st = (Exit 0, after st (dry_run_listing v)).
Proof.
  intros Hdry. unfold proceed. rewrite Hdry, bind_run. unfold echo at 1.
  rewrite emit_run, bind_run, list_files_run, after_after. reflexivity.
Qed.

Lemma validate_silent imgs acc :
  footprint opening anything (validate w false imgs acc).
Proof.
  revert acc. induction imgs as [| p rest IH]; intros acc; simpl.
  { by apply footprint_ret. }
  eapply footprint_bind; [apply os_path_isfile_footprint | intros is_file _].
  destruct is_file; simpl.
  - eapply footprint_bind with (Q := anything).
    { eapply footprint_mono; [| | apply is_image_file_footprint]; [| done].
      intros e <-. by eexists. }
    intros is_image _. destruct is_image; simpl; [apply IH |].
    eapply footprint_bind with (Q := anything);
      [by apply footprint_ret | intros _ _; apply IH].
  - eapply footprint_bind with (Q := anything);
      [by apply footprint_ret | intros _ _; apply IH].
Qed.

Lemma echoes_silent (P : event → Prop) evs :
  (∀ e, P e → ∀ err line, e ≠ Echo err line) → Forall P evs → echoes evs = [].
Proof.
  intros HP. induction 1 as [| e evs He _ IH]; [done |].
  unfold echoes. simpl. destruct e; try exact IH. by destruct (HP _ He err line).
Qed.

Lemma echoes_opening evs : Forall opening evs → echoes evs = [].
Proof.
  apply echoes_silent. intros e [p ->] err line. done.
Qed.

(** Without [verbose], a collector that returns has printed nothing. *)
Lemma collect_silent a st imgs st' :
  verbose a = false →
  collect w a st = (Val imgs, st') →
  ∃ evs, st' = after st evs ∧ echoes evs = [].
Proof.
  intros Hverb Hrun. destruct (scan_requested_dec a) as [Hreq | Hno].
  - rewrite (collect_scan w a st Hreq), bind_run in Hrun.
    destruct (get_images_from_directory w (scan_directory w a) st) as [r1 st1] eqn:Hscan.
    destruct (get_images_from_directory_events _ _ _ _ _ Hscan) as (evs & -> & Hevs).
    destruct r1 as [imgs' | e | c]; [| done | done].
    rewrite Hverb in Hrun. simpl in Hrun. injection Hrun as <- <-.
    eexists. split; [done |]. simpl. by apply echoes_opening.
  - unfold collect in Hrun.
    destruct (given (input_dir a)) as [d |] eqn:Hd;
      destruct (images a) as [| first rest] eqn:Himgs.
    + by rewrite bind_run in Hrun.
    + rewrite bind_run in Hrun.
      destruct (absolute_or_relative (first :: rest)) as [Habs | Hrel].
      * by rewrite (check_relative_absolute _ _ Habs) in Hrun.
      * rewrite (check_relative_ok _ _ Hrel) in Hrun.
        destruct (String.eqb_spec first "auto-stamp") as [-> | Hne].
        -- destruct Hno. split; [by exists rest |]. by rewrite Himgs.
        -- injection Hrun as <- <-. exists []. by rewrite after_nil.
    + rewrite bind_run in Hrun. injection Hrun as <- <-. exists []. by rewrite after_nil.
    + destruct (String.eqb_spec first "auto-stamp") as [-> | Hne].
      * destruct Hno. split; [by exists rest |]. by rewrite Hd.
      * rewrite bind_run in Hrun. injection Hrun as <- <-.
        exists []. by rewrite after_nil.
Qed.

End DryRun.

(** C5 (as amended). With [--dry-run], when the filter loop keeps N >= 1
    paths, the run prints on standard output a heading and then exactly N
    lines, the i-th made of the index i (from 1) and the i-th validated
    path, and exits with status 0; the file system is unchanged, nothing is
    encoded, written or removed; and without [--verbose] these N + 1 lines
    are all that the run prints. *)
Theorem C5_dry_run_listing (w : world) (a : args) (st0 : state)
    (imgs : list string) (st : state) (v : list string) (st1 : state) :
  dry_run a = true →
  collect w a st0 = (Val imgs, st) →
  validate w (verbose a) imgs [] st = (Val v, st1) →
  v ≠ [] →
  main w a st0 = (Exit 0, after st1 (validation_report a v ++ dry_run_listing v)) ∧
  length (dry_run_lines v) = length v ∧
  (∀ i p, v !! i = Some p → dry_run_lines v !! i = Some (pretty (S i) +:+ " --- " +:+ p)) ∧
  ∃ evs, st1 = after st0 evs ∧ Forall (quiet (verbose a)) evs ∧
         (verbose a = false → echoes evs = []).
Proof.
  intros Hdry Hcol Hval Hv. split_and!.
  - unfold main. rewrite bind_run, Hcol.
    destruct imgs as [| p rest].
    { simpl in Hval. injection Hval as <- _. done. }
    rewrite bind_run, Hval, finish_run.
    destruct v as [| p' v']; [done |].
    by rewrite (proceed_dry_run w a _ _ Hdry), after_after.
  - unfold dry_run_lines. by rewrite length_imap.
  - intros i p Hi. unfold dry_run_lines. by rewrite list_lookup_imap, Hi.
  - destruct (collect_footprint w a _ _ _ Hcol) as (evs1 & -> & Hevs1 & _).
    destruct (validate_footprint w (verbose a) imgs [] _ _ _ Hval) as (evs2 & -> & Hevs2 & _).
    exists (evs1 ++ evs2). rewrite after_after.
    split_and!; [done | by apply Forall_app |].
    intros Hverb. rewrite echoes_app.
    destruct (collect_silent w a _ _ _ Hverb Hcol) as (evs1' & ->%after_inj & ->).
    rewrite Hverb in Hval.
    destruct (validate_silent w imgs [] _ _ _ Hval) as (evs2' & ->%after_inj & Hop & _).
    by rewrite (echoes_opening _ Hop).
Qed.

Lemma C5_witness :
  main demo (demo_args ["auto-stamp"] (Some "scans") "out.pdf" true false false)
    (start demo_fs) =
  (Exit 0,
   after
     (validate demo false ["scans/p1.png"; "scans/p2.jpg"; "scans/p3.png"] []
        (collect demo (demo_args ["auto-stamp"] (Some "scans") "out.pdf" true false false)
           (start demo_fs)).2).2
     (dry_run_listing ["scans/p1.png"; "scans/p2.jpg"; "scans/p3.png"])).
Proof.
  refine (proj1 (C5_dry_run_listing demo
           (demo_args ["auto-stamp"] (Some "scans") "out.pdf" true false false)
           (start demo_fs)
           ["scans/p1.png"; "scans/p2.jpg"; "scans/p3.png"]
           (collect demo (demo_args ["auto-stamp"] (Some "scans") "out.pdf" true false false)
              (start demo_fs)).2
           ["scans/p1.png"; "scans/p2.jpg"; "scans/p3.png"]
           (validate demo false ["scans/p1.png"; "scans/p2.jpg"; "scans/p3.png"] []
              (collect demo
                 (demo_args ["auto-stamp"] (Some "scans") "out.pdf" true false false)
                 (start demo_fs)).2).2
           _ _ _ _)).
  - reflexivity.
  - vm_compute. reflexivity.
  - vm_compute. reflexivity.
  - discriminate.
Defined.

(** C5, as stated, fails: with three validated images and no [--verbose]
    the dry run prints four lines, and the first is the heading, not the
    line of index 1. *)
Lemma C5_counterexample :
  (main demo (demo_args ["auto-stamp"] (Some "scans") "out.pdf" true false false)
     (start demo_fs)).1 = Exit 0 ∧
  echoes (trace (main demo (demo_args ["auto-stamp"] (Some "scans") "out.pdf" true false false)
                   (start demo_fs)).2) =
  [(false, "Файлы, которые будут обработаны:");
   (false, "1 --- scans/p1.png");
   (false, "2 --- scans/p2.jpg");
   (false, "3 --- scans/p3.png")].
Proof. split; vm_compute; reflexivity. Qed.

(** ** C8: a transcoding failure is fatal *)

Section Transcoding.
Context (w : world).

Lemma process_all_footprint v q idx l acc :
  footprint (quiet v) anything (process_all w v q idx l acc).
Proof.
  revert idx acc. induction l as [| p rest IH]; intros idx acc; simpl.
  { by apply footprint_ret. }
  eapply footprint_bind with (Q := anything).
  { eapply footprint_mono; [| | apply process_image_footprint];
      [apply transcoding_quiet | done]. }
  intros img _. eapply footprint_bind with (Q := anything); [| intros _ _; apply IH].
  apply footprint_when. intros ->. apply footprint_emit. simpl. auto.
Qed.

(** One turn of the loop on a path that transcodes. *)
Lemma process_all_cons v q idx p rest acc st img :
  transcode w (fs st) p q = inr img →
  ∃ evs, Forall (quiet v) evs ∧
    process_all w v q idx (p :: rest) acc st =
    process_all w v q (S idx) rest (acc ++ [img]) (after st evs).
Proof.
  intros Ht. destruct (process_image_run w p q st) as (evs & Hevs & Hrun).
  rewrite Ht in Hrun. cbn [process_all]. rewrite bind_run, Hrun. cbn [image_truthy].
  rewrite bind_run. destruct v; unfold when.
  - unfold echo. rewrite emit_run, after_after. eexists. split; [| done].
    apply Forall_app. split.
    + eapply Forall_impl; [exact Hevs | apply about_quiet].
    + constructor; [simpl; auto | constructor].
  - exists evs. split; [| done].
    eapply Forall_impl; [exact Hevs | apply about_quiet].
Qed.

(** The loop returns only when every path transcodes, with one image per
    path, in order. *)
Lemma process_all_val v q idx l acc st pages st' :
  process_all w v q idx l acc st = (Val pages, st') →
  ∃ imgs, pages = acc ++ imgs ∧
    Forall2 (fun p img => transcode w (fs st) p q = inr img) l imgs.
Proof.
  revert idx acc st. induction l as [| p rest IH]; intros idx acc st.
  { intros [= <- _]. exists []. by rewrite app_nil_r. }
  destruct (transcode w (fs st) p q) as [e | img] eqn:Ht.
  - destruct (process_image_run w p q st) as (evs & _ & Hrun).
    rewrite Ht in Hrun. cbn [process_all]. by rewrite bind_run, Hrun.
  - destruct (process_all_cons v q idx p rest acc st img Ht) as (evs & _ & ->).
    intros (imgs & -> & Himgs)%IH. exists (img :: imgs).
    rewrite <- app_assoc. split; [done |]. by constructor.
Qed.

(** The loop stops at the first path that fails to transcode: the state
    it ends in does not depend on the paths after it. *)
Lemma process_all_stops v q idx done p acc st e :
  Forall (fun x => ∃ img, transcode w (fs st) x q = inr img) done →
  transcode w (fs st) p q = inl e →
  ∃ evs, Forall (quiet v) evs ∧
    ∀ rest, process_all w v q idx (done ++ p :: rest) acc st =
            (Exit 1, after st (evs ++ [transcode_diagnostic p e])).
Proof.
  revert idx acc st. induction done as [| x done IH]; intros idx acc st Hdone Hp.
  - destruct (process_image_run w p q st) as (evs & Hevs & Hrun).
    rewrite Hp in Hrun. exists evs. split.
    + eapply Forall_impl; [exact Hevs | apply about_quiet].
    + intros rest. simpl. by rewrite bind_run, Hrun.
  - apply Forall_cons in Hdone as [[img Hx] Hdone].
    assert (Hstep : ∃ evs1, Forall (quiet v) evs1 ∧
              ∀ rest, process_all w v q idx (x :: rest) acc st =
                      process_all w v q (S idx) rest (acc ++ [img]) (after st evs1)).
    { destruct (process_image_run w x q st) as (evs1 & Hevs1 & Hrun1).
      rewrite Hx in Hrun1.
      exists (evs1 ++ if v then [page_line idx x] else []). split.
      - apply Forall_app. split; [eapply Forall_impl; [exact Hevs1 | apply about_quiet] |].
        destruct v; [constructor; [simpl; auto | constructor] | constructor].
      - intros rest. cbn [process_all]. rewrite bind_run, Hrun1. cbn [image_truthy].
        rewrite bind_run. destruct v; unfold when.
        + unfold echo. by rewrite emit_run, after_after.
        + unfold mret, M_ret. by rewrite app_nil_r. }
    destruct Hstep as (evs1 & Hevs1 & Hstep).
    destruct (IH (S idx) (acc ++ [img]) (after st evs1) Hdone Hp) as (evs & Hevs & Hrun).
    exists (evs1 ++ evs). split; [by apply Forall_app |].
    intros rest. cbn [app]. rewrite Hstep, Hrun, after_after. by rewrite app_assoc.
Qed.

End Transcoding.

Lemma proceed_transcoding w a v st :
  dry_run a = false →
  proceed w a v st =
  (processed_images ← process_all w (verbose a) (quality a) 1 v [];
   match processed_images with
   | [] => echo_err "Не удалось обработать ни одно изображение.";; sys_exit 1
   | _ :: _ =>
       let output_dir := dirname (w_abspath w (output a)) in
       missing ← (if String.eqb output_dir "" then mret false
                  else b ← os_path_exists w output_dir; mret (negb b));
       if (missing : bool) then
         echo_err ("Директория для сохранения не существует: " +:+ output_dir);;
         sys_exit 1
       else assemble w a v processed_images
   end) st.
Proof. intros Hdry. unfold proceed. by rewrite Hdry. Qed.

Lemma finish_nonempty w a v st :
  v ≠ [] → finish w a v st = proceed w a v (after st (validation_report a v)).
Proof. intros Hv. rewrite finish_run. by destruct v. Qed.

Lemma validate_nil w v acc st : validate w v [] acc st = (Val acc, st).
Proof. reflexivity. Qed.

(** C8. When a path of the Validated Image Set fails to transcode (a
    Pillow call of [process_image] raises), after the paths before it
    transcoded, the run ends with exit status 1; the last thing it does is
    print the diagnostic for that path on standard error; the failing path
    is not skipped, no path after it is processed (the final state is the
    same whatever follows it in the set), and nothing is written or
    removed. *)
Theorem C8_transcoding_failure_is_fatal (w : world) (a : args) (st0 : state)
    (imgs : list string) (st : state) (v : list string) (st1 : state)
    (done : list string) (p : string) (rest : list string) (e : exc) :
  dry_run a = false →
  collect w a st0 = (Val imgs, st) →
  validate w (verbose a) imgs [] st = (Val v, st1) →
  v = done ++ p :: rest →
  Forall (fun x => ∃ img, transcode w (fs st1) x (quality a) = inr img) done →
  transcode w (fs st1) p (quality a) = inl e →
  ∃ evs,
    main w a st0 = (Exit 1, after st1 (evs ++ [transcode_diagnostic p e])) ∧
    Forall (quiet (verbose a)) evs ∧
    fs st1 = fs st0 ∧
    ∀ rest',
      process_all w (verbose a) (quality a) 1 (done ++ p :: rest') []
        (after st1 (validation_report a v)) =
      (Exit 1, after st1 (evs ++ [transcode_diagnostic p e])).
Proof.
  intros Hdry Hcol Hval -> Hdone Hp.
  destruct (process_all_stops w (verbose a) (quality a) 1 done p []
              (after st1 (validation_report a (done ++ p :: rest))) e Hdone Hp)
    as (evs & Hevs & Hstop).
  exists (validation_report a (done ++ p :: rest) ++ evs).
  assert (Hshift : ∀ rest',
    process_all w (verbose a) (quality a) 1 (done ++ p :: rest') []
      (after st1 (validation_report a (done ++ p :: rest))) =
    (Exit 1, after st1 ((validation_report a (done ++ p :: rest) ++ evs)
                        ++ [transcode_diagnostic p e]))).
  { intros rest'. by rewrite Hstop, after_after, app_assoc. }
  split_and!; [| | | exact Hshift].
  - unfold main. rewrite bind_run, Hcol.
    destruct imgs as [| i imgs'].
    { rewrite validate_nil in Hval. injection Hval as Hv _. by destruct done. }
    rewrite bind_run, Hval, finish_nonempty by (by destruct done).
    by rewrite (proceed_transcoding w a _ _ Hdry), bind_run, Hshift.
  - apply Forall_app. split; [| done].
    unfold validation_report. destruct (verbose a); [| constructor].
    constructor; [simpl; auto | constructor].
  - destruct (collect_footprint w a _ _ _ Hcol) as (evs1 & -> & _).
    by destruct (validate_footprint w (verbose a) imgs [] _ _ _ Hval) as (evs2 & -> & _).
Qed.

Lemma C8_witness :
  ∃ evs,
    main demo (demo_args ["a.png"; "b.png"; "scans/p1.png"] None "out.pdf" false true false)
      (start demo_fs) =
    (Exit 1,
     after
       (validate demo false
          ["/home/u/a.png"; "/home/u/b.png"; "/home/u/scans/p1.png"] [] (start demo_fs)).2
       (evs ++ [transcode_diagnostic "/home/u/b.png"
                  (Exc OSError "cannot write mode LA as JPEG")])).
Proof.
  destruct (C8_transcoding_failure_is_fatal demo
              (demo_args ["a.png"; "b.png"; "scans/p1.png"] None "out.pdf" false true false)
              (start demo_fs)
              ["/home/u/a.png"; "/home/u/b.png"; "/home/u/scans/p1.png"]
              (start demo_fs)
              ["/home/u/a.png"; "/home/u/b.png"; "/home/u/scans/p1.png"]
              (validate demo false
                 ["/home/u/a.png"; "/home/u/b.png"; "/home/u/scans/p1.png"] []
                 (start demo_fs)).2
              ["/home/u/a.png"] "/home/u/b.png" ["/home/u/scans/p1.png"]
              (Exc OSError "cannot write mode LA as JPEG"))
    as (evs & Hmain & _).
  - reflexivity.
  - vm_compute. reflexivity.
  - vm_compute. reflexivity.
  - reflexivity.
  - constructor; [| constructor]. eexists. vm_compute. reflexivity.
  - vm_compute. reflexivity.
  - by exists evs.
Defined.

(** ** Assembly and removal *)

Section Assemble.
Context (w : world).

Lemma harmless_quiet v e : quiet v e → harmless e.
Proof. by destruct e. Qed.

Lemma Image_save_pdf_run out pages st :
  Image_save_pdf w out pages st =
  match pdf_write w (fs st) out pages with
  | Saved =>
      (Val tt,
       {| fs := <[w_abspath w out := File (w_now w) (Pdf pages)]> (fs st);
          trace := trace st ++ [PdfSave out pages true] |})
  | SaveFailed e leftover =>
      (Raise e,
       {| fs := if leftover
                then <[w_abspath w out := File (w_now w) Partial]> (fs st)
                else fs st;
          trace := trace st ++ [PdfSave out pages false] |})
  end.
Proof.
  unfold Image_save_pdf. rewrite bind_run. simpl.
  destruct (pdf_write w (fs st) out pages) as [| e []]; reflexivity.
Qed.

Lemma os_remove_run p st :
  os_remove w p st =
  match removal_error w (fs st) p with
  | Some e => (Raise e, after st [Remove p])
  | None =>
      (Val tt,
       {| fs := delete (w_abspath w p) (fs st); trace := trace st ++ [Remove p] |})
  end.
Proof.
  unfold os_remove. rewrite bind_run, emit_run, bind_run. simpl.
  by destruct (removal_error w (fs st) p).
Qed.

Lemma pdf_write_saved_nonempty m out pages :
  pdf_write w m out pages = Saved → String.eqb out "" = false.
Proof. unfold pdf_write. by destruct (String.eqb out ""). Qed.

Lemma os_path_getsize_written out pages m tr :
  String.eqb out "" = false →
  os_path_getsize w out
    {| fs := <[w_abspath w out := File (w_now w) (Pdf pages)]> m; trace := tr |} =
  (Val (w_size_mb w (File (w_now w) (Pdf pages))),
   {| fs := <[w_abspath w out := File (w_now w) (Pdf pages)]> m; trace := tr |}).
Proof.
  intros Hne. unfold os_path_getsize. rewrite bind_run. simpl.
  unfold stat. by rewrite Hne, lookup_insert_eq.
Qed.

(** The loop of lines 165-166 that completes has removed every path. *)
Lemma remove_all_val l st st' :
  remove_all w l st = (Val tt, st') →
  st' = {| fs := unlink_all w (fs st) l; trace := trace st ++ map Remove l |}.
Proof.
  revert st. induction l as [| p rest IH]; intros st.
  { intros [= <-]. destruct st. simpl. by rewrite app_nil_r. }
  cbn [remove_all]. rewrite bind_run, os_remove_run.
  destruct (removal_error w (fs st) p); [done |].
  intros ->%IH. simpl. by rewrite <- app_assoc.
Qed.

Lemma remove_all_app l1 l2 st :
  remove_all w (l1 ++ l2) st = (remove_all w l1 ≫= fun _ => remove_all w l2) st.
Proof.
  revert st. induction l1 as [| p rest IH]; intros st; [done |].
  cbn [app remove_all]. rewrite !bind_run.
  destruct (os_remove w p st) as [[[] | e | c] st1]; [| done | done].
  by rewrite IH, bind_run.
Qed.

(** Whatever its result, the loop only removes: it never exits, each event
    is a removal, and a path is either as before or gone. *)
Lemma remove_all_frame l st r st' :
  remove_all w l st = (r, st') →
  (r = Val tt ∨ ∃ e, r = Raise e) ∧
  (∃ tried, trace st' = trace st ++ map Remove tried) ∧
  ∀ k, fs st' !! k = fs st !! k ∨ fs st' !! k = None.
Proof.
  revert st. induction l as [| p rest IH]; intros st.
  { intros [= <- <-]. split_and!; [by left | exists []; by rewrite app_nil_r | by left]. }
  cbn [remove_all]. rewrite bind_run, os_remove_run.
  destruct (removal_error w (fs st) p) as [e |].
  - intros [= <- <-]. split_and!; [right; by exists e | by exists [p] | by left].
  - intros (Hr & [tried Ht] & Hfs)%IH. simpl in *. split_and!; [done | |].
    + exists (p :: tried). rewrite Ht. by rewrite <- app_assoc.
    + intros k. destruct (Hfs k) as [-> | ->]; [| by right].
      destruct (decide (w_abspath w p = k)) as [<- | Hne].
      * right. apply lookup_delete_eq.
      * left. by apply lookup_delete_ne.
Qed.

Lemma lookup_unlink_all m l k :
  unlink_all w m l !! k =
  if decide (k ∈ map (w_abspath w) l) then None else m !! k.
Proof.
  revert m. induction l as [| p rest IH]; intros m; [done |].
  cbn [unlink_all foldl map]. fold (unlink_all w (delete (w_abspath w p) m) rest).
  rewrite IH. destruct (decide (k ∈ map (w_abspath w) rest)) as [Hin | Hnin].
  - rewrite decide_True; [done | by right].
  - destruct (decide (w_abspath w p = k)) as [<- | Hne].
    + rewrite decide_True by by left. apply lookup_delete_eq.
    + rewrite decide_False; [by apply lookup_delete_ne |].
      intros [-> | Hin]%elem_of_cons; done.
Qed.

(** The [try] of lines 159-170, outcome by outcome. *)
Lemma assemble_run a v pages s :
  assemble w a v pages s =
  match pdf_write w (fs s) (output a) pages with
  | SaveFailed e leftover =>
      (Exit 1,
       {| fs := if leftover
                then <[w_abspath w (output a) := File (w_now w) Partial]> (fs s)
                else fs s;
          trace := trace s ++ [PdfSave (output a) pages false; save_failure e] |})
  | Saved =>
      if remove_source a then
        match remove_all w v (saved_state w a pages s) with
        | (Val _, s2) => (Val tt, after s2 [sources_removed])
        | (Raise e, s2) => (Exit 1, after s2 [save_failure e])
        | (Exit c, s2) => (Exit c, s2)
        end
      else (Val tt, saved_state w a pages s)
  end.
Proof.
  unfold assemble. rewrite try_run, bind_run, Image_save_pdf_run.
  destruct (pdf_write w (fs s) (output a) pages) as [| e leftover] eqn:Hw.
  - rewrite bind_run, (os_path_getsize_written _ _ _ _ (pdf_write_saved_nonempty _ _ _ Hw)).
    rewrite bind_run. unfold echo at 1. rewrite emit_run.
    assert (Hs : after {| fs := <[w_abspath w (output a) := File (w_now w) (Pdf pages)]> (fs s);
                          trace := trace s ++ [PdfSave (output a) pages true] |}
                   [Echo false ("Файл " +:+ output a +:+ " (" +:+ w_size_mb w (File (w_now w) (Pdf pages))
                                +:+ " MB) создан за " +:+ w_elapsed w +:+ " секунд.")]
                 = saved_state w a pages s).
    { unfold after, saved_state, written, created_line. simpl. by rewrite <- app_assoc. }
    rewrite Hs. destruct (remove_source a); [| done].
    rewrite bind_run.
    destruct (remove_all w v (saved_state w a pages s)) as [[[] | e | c] s2]; try done.
    by rewrite caught_by_Exception, bind_run.
  - rewrite caught_by_Exception, bind_run. unfold echo_err. rewrite emit_run.
    unfold after, save_failure. simpl. by rewrite <- app_assoc.
Qed.

End Assemble.

(** ** The shape of a run of [main] *)

Section Runs.
Context (w : world).

(** A run that reaches assembly is the assembly from then on. *)
Lemma main_reaches_assembly a st0 v pages s :
  reaches_assembly w a st0 v pages s →
  main w a st0 = assemble w a v pages s.
Proof.
  intros (imgs & st & st1 & Hcol & Hval & Hv & Hdry & Hproc & Hdir).
  unfold main. rewrite bind_run, Hcol.
  destruct imgs as [| i imgs'].
  { rewrite validate_nil in Hval. by injection Hval as <- _. }
  rewrite bind_run, Hval, (finish_nonempty w a v st1 Hv).
  rewrite (proceed_transcoding w a _ _ Hdry), bind_run, Hproc.
  destruct (process_all_val w _ _ _ _ _ _ _ _ Hproc) as (pg & -> & Hpg).
  destruct pg as [| img pg'].
  { apply Forall2_nil_inv_r in Hpg. done. }
  cbn [app]. rewrite bind_run.
  unfold output_dir_ok in Hdir.
  destruct (String.eqb (dirname (w_abspath w (output a))) "") eqn:E.
  - reflexivity.
  - simpl in Hdir. rewrite bind_run. unfold os_path_exists. rewrite bind_run. simpl.
    by rewrite Hdir.
Qed.

(** What holds when a run reaches assembly: nothing was written or
    removed, and the images are the transcodings of the validated paths,
    one for one and in order. *)
Lemma reaches_assembly_inv a st0 v pages s :
  reaches_assembly w a st0 v pages s →
  (∃ evs, s = after st0 evs ∧ Forall harmless evs) ∧
  v ≠ [] ∧
  Forall2 (fun p img => transcode w (fs st0) p (quality a) = inr img) v pages.
Proof.
  intros (imgs & st & st1 & Hcol & Hval & Hv & Hdry & Hproc & Hdir).
  destruct (collect_footprint w a _ _ _ Hcol) as (evs1 & -> & Hevs1 & _).
  destruct (validate_footprint w (verbose a) imgs [] _ _ _ Hval) as (evs2 & -> & Hevs2 & _).
  destruct (process_all_footprint w _ _ _ _ _ _ _ _ Hproc) as (evs3 & -> & Hevs3 & _).
  destruct (process_all_val w _ _ _ _ _ _ _ _ Hproc) as (pg & -> & Hpg).
  split_and!; [| done | exact Hpg].
  exists (evs1 ++ evs2 ++ validation_report a v ++ evs3).
  rewrite !after_after, <- ?app_assoc. split; [done |].
  assert (Hrep : Forall harmless (validation_report a v)).
  { unfold validation_report. destruct (verbose a); repeat constructor. }
  repeat (apply Forall_app; split); try done;
    (eapply Forall_impl; [eassumption | apply harmless_quiet]).
Qed.

(** A run of [main] either stops before assembly, having written and
    removed nothing and without returning, or reaches assembly. *)
Lemma main_cases a st0 r st' :
  main w a st0 = (r, st') →
  (∃ evs, st' = after st0 evs ∧ Forall harmless evs ∧ r ≠ Val tt)
  ∨ (∃ v pages s, reaches_assembly w a st0 v pages s ∧
                  assemble w a v pages s = (r, st')).
Proof.
  intros Hmain.
  assert (Hq : ∀ evs, Forall (quiet (verbose a)) evs → Forall harmless evs).
  { intros evs H. eapply Forall_impl; [exact H | apply harmless_quiet]. }
  unfold main in Hmain. rewrite bind_run in Hmain.
  destruct (collect w a st0) as [rc st] eqn:Hcol.
  destruct (collect_footprint w a _ _ _ Hcol) as (evs1 & -> & Hevs1%Hq & _).
  destruct rc as [imgs | e | c];
    [| injection Hmain as <- <-; left; by exists evs1
     | injection Hmain as <- <-; left; by exists evs1].
  destruct imgs as [| i imgs'].
  { rewrite bind_run in Hmain. unfold echo_err in Hmain. rewrite emit_run in Hmain.
    injection Hmain as <- <-. left. eexists. rewrite after_after.
    split_and!; [done | | done]. apply Forall_app. split; [done | by repeat constructor]. }
  rewrite bind_run in Hmain.
  destruct (validate w (verbose a) (i :: imgs') [] (after st0 evs1)) as [rv st1] eqn:Hval.
  destruct (validate_footprint w _ _ _ _ _ _ Hval) as (evs2 & -> & Hevs2%Hq & _).
  destruct rv as [v | e | c];
    [| injection Hmain as <- <-; left; eexists; rewrite after_after;
       split_and!; [done | by apply Forall_app | done]
     | injection Hmain as <- <-; left; eexists; rewrite after_after;
       split_and!; [done | by apply Forall_app | done]].
  assert (Hrep : Forall harmless (validation_report a v)).
  { unfold validation_report. destruct (verbose a); repeat constructor. }
  rewrite finish_run in Hmain. destruct v as [| x v'].
  { injection Hmain as <- <-. left. eexists. rewrite !after_after.
    split_and!; [done | | done].
    repeat (apply Forall_app; split); try done. by repeat constructor. }
  destruct (dry_run a) eqn:Hdry.
  { rewrite (proceed_dry_run w a _ _ Hdry) in Hmain. injection Hmain as <- <-.
    left. eexists. rewrite !after_after. split_and!; [done | | done].
    repeat (apply Forall_app; split); try done.
    unfold dry_run_listing. constructor; [done |].
    apply Forall_map. by apply Forall_true. }
  rewrite (proceed_transcoding w a _ _ Hdry), bind_run in Hmain.
  destruct (process_all w (verbose a) (quality a) 1 (x :: v') []
              (after (after (after st0 evs1) evs2) (validation_report a (x :: v'))))
    as [rp s] eqn:Hproc.
  destruct (process_all_footprint w _ _ _ _ _ _ _ _ Hproc) as (evs3 & Hs & Hevs3%Hq & _).
  assert (Hs' : s = after st0 (evs1 ++ evs2 ++ validation_report a (x :: v') ++ evs3)).
  { rewrite Hs, !after_after, <- ?app_assoc. done. }
  assert (Hall : Forall harmless (evs1 ++ evs2 ++ validation_report a (x :: v') ++ evs3)).
  { by repeat (apply Forall_app; split). }
  destruct rp as [pages | e | c];
    [| injection Hmain as <- <-; left; eexists; by split_and!
     | injection Hmain as <- <-; left; eexists; by split_and!].
  destruct pages as [| img pages'].
  { rewrite bind_run in Hmain. unfold echo_err in Hmain. rewrite emit_run in Hmain.
    injection Hmain as <- <-. left. eexists. rewrite Hs', after_after.
    split_and!; [done | | done]. apply Forall_app. split; [done | by repeat constructor]. }
  destruct (output_dir_ok w (fs s) (output a)) eqn:Hdir.
  - right. exists (x :: v'), (img :: pages'), s. split.
    + exists (i :: imgs'), (after st0 evs1), (after (after st0 evs1) evs2).
      split_and!; try done.
    + rewrite <- Hmain. unfold output_dir_ok in Hdir. cbv zeta.
      destruct (String.eqb (dirname (w_abspath w (output a))) "") eqn:E.
      * by rewrite bind_run.
      * simpl in Hdir. rewrite bind_run. unfold os_path_exists. rewrite !bind_run. simpl.
        by rewrite Hdir.
  - left. unfold output_dir_ok in Hdir. cbv zeta in Hmain.
    apply orb_false_iff in Hdir as [E Hdir]. rewrite E in Hmain.
    rewrite bind_run in Hmain. unfold os_path_exists in Hmain.
    rewrite !bind_run in Hmain. simpl in Hmain. rewrite Hdir in Hmain. simpl in Hmain.
    injection Hmain as <- <-.
    exists ((evs1 ++ evs2 ++ validation_report a (x :: v') ++ evs3)
            ++ [Echo true ("Директория для сохранения не существует: "
                           +:+ dirname (w_abspath w (output a)))]).
    split_and!; [| | done].
    + rewrite Hs'. unfold after. simpl. by rewrite <- ?app_assoc.
    + apply Forall_app. split; [done | by repeat constructor].
Qed.

End Runs.

(** ** C1: the pages follow the Validated Image Set *)

Section Pages.
Context (w : world).

Lemma removals_not_a_save l : Forall not_a_save (map Remove l).
Proof. apply Forall_map. by apply Forall_true. Qed.

(** The events of the assembly: one call of the PDF writer, on the pages
    given and at the output path, before anything else. *)
Lemma assemble_events a v pages s r st' :
  assemble w a v pages s = (r, st') →
  ∃ ok rest,
    trace st' = trace s ++ PdfSave (output a) pages ok :: rest ∧
    Forall not_a_save rest ∧
    (ok = true ↔ pdf_write w (fs s) (output a) pages = Saved) ∧
    (ok = false → Forall harmless rest) ∧
    (ok = true → remove_source a = false → fs st' = written w a pages (fs s)).
Proof.
  rewrite assemble_run.
  destruct (pdf_write w (fs s) (output a) pages) as [| e leftover] eqn:Hw.
  - destruct (remove_source a) eqn:Hrm.
    + destruct (remove_all w v (saved_state w a pages s)) as [r2 s2] eqn:Hrem.
      destruct (remove_all_frame w _ _ _ _ Hrem) as (Hr2 & [tried Ht] & _).
      simpl in Ht.
      assert (Hgen : ∀ last, Forall not_a_save last →
                trace (after s2 last) =
                trace s ++ PdfSave (output a) pages true
                  :: (created_line w a pages :: map Remove tried ++ last)
                ∧ Forall not_a_save (created_line w a pages :: map Remove tried ++ last)).
      { intros last Hlast. split.
        - simpl. rewrite Ht, <- !app_assoc. done.
        - constructor; [done |]. apply Forall_app. split; [apply removals_not_a_save | done]. }
      destruct Hr2 as [-> | [e ->]].
      * intros [= <- <-]. destruct (Hgen [sources_removed]) as [H1 H2]; [by repeat constructor |].
        exists true. eexists. split_and!; [exact H1 | exact H2 | done | done | done].
      * intros [= <- <-]. destruct (Hgen [save_failure e]) as [H1 H2]; [by repeat constructor |].
        exists true. eexists. split_and!; [exact H1 | exact H2 | done | done | done].
    + intros [= <- <-]. exists true, [created_line w a pages].
      split_and!; [| by repeat constructor | done | done | done].
      simpl. done.
  - intros [= <- <-]. exists false, [save_failure e].
    split_and!; [done | by repeat constructor | done | by repeat constructor | done].
Qed.

End Pages.

(** C1. In every run, whenever the PDF writer is called, it is called on
    the output path, with at least one image, and with exactly one image
    per path of the Validated Image Set, in the same order: the i-th image
    is what the transcoder returns for the i-th validated path.  So the
    document written (when the write succeeds) has as many pages as there
    are validated images, in their order. *)
Theorem C1_pages_follow_validated_set (w : world) (a : args) (st0 : state)
    (r : result unit) (st' : state) (evs : list event)
    (out : string) (pages : list image) (ok : bool) :
  main w a st0 = (r, st') →
  trace st' = trace st0 ++ evs →
  PdfSave out pages ok ∈ evs →
  ∃ v s,
    reaches_assembly w a st0 v pages s ∧
    out = output a ∧
    (1 ≤ length pages)%nat ∧
    length pages = length v ∧
    map im_source pages = v ∧
    Forall2 (fun p img => transcode w (fs st0) p (quality a) = inr img) v pages ∧
    (ok = true → remove_source a = false →
     fs st' !! w_abspath w (output a) = Some (File (w_now w) (Pdf pages))).
Proof.
  intros Hmain Htrace Hin.
  destruct (main_cases w a st0 r st' Hmain)
    as [(evs0 & -> & Hevs0 & _) | (v & pg & s & Hreach & Hasm)].
  { simpl in Htrace. apply app_inv_head in Htrace as <-.
    rewrite Forall_forall in Hevs0. by destruct (Hevs0 _ Hin). }
  destruct (reaches_assembly_inv w a st0 v pg s Hreach) as ((evs0 & -> & Hevs0) & Hv & Hpg).
  destruct (assemble_events w a v pg _ r st' Hasm) as (ok' & rest & Ht & Hrest & Hok & _ & Hfs).
  simpl in Ht. rewrite Htrace, <- app_assoc in Ht. apply app_inv_head in Ht as ->.
  assert (Heq : PdfSave out pages ok = PdfSave (output a) pg ok').
  { apply elem_of_app in Hin as [Hin | Hin].
    - rewrite Forall_forall in Hevs0. by destruct (Hevs0 _ Hin).
    - apply elem_of_cons in Hin as [Hin | Hin]; [done |].
      rewrite Forall_forall in Hrest. by destruct (Hrest _ Hin). }
  injection Heq as -> -> ->.
  exists v, (after st0 evs0). split_and!; try done.
  - apply Forall2_length in Hpg. destruct v; [done |]. simpl in Hpg. lia.
  - symmetry. by apply Forall2_length in Hpg.
  - clear -Hpg. induction Hpg as [| p img v pg Hp _ IH]; [done |].
    simpl. rewrite IH. by destruct (transcode_transcoded w _ _ _ _ Hp) as [-> _].
  - intros Hok' Hrm. rewrite (Hfs Hok' Hrm). apply lookup_insert_eq.
Qed.

Lemma C1_witness :
  ∃ v s,
    reaches_assembly demo
      (demo_args ["a.png"; "scans/p1.png"] None "out.pdf" false false false)
      (start demo_fs) v
      [Recoded 80 "RGB" (Converted "RGB" (Opened "/home/u/a.png" (Some "PNG") "RGBA"));
       Recoded 80 "RGB" (Opened "/home/u/scans/p1.png" (Some "PNG") "RGB")] s ∧
    map im_source
      [Recoded 80 "RGB" (Converted "RGB" (Opened "/home/u/a.png" (Some "PNG") "RGBA"));
       Recoded 80 "RGB" (Opened "/home/u/scans/p1.png" (Some "PNG") "RGB")] = v.
Proof.
  destruct (C1_pages_follow_validated_set demo
              (demo_args ["a.png"; "scans/p1.png"] None "out.pdf" false false false)
              (start demo_fs) _ _
              (trace (main demo
                        (demo_args ["a.png"; "scans/p1.png"] None "out.pdf" false false false)
                        (start demo_fs)).2)
              "out.pdf"
              [Recoded 80 "RGB" (Converted "RGB" (Opened "/home/u/a.png" (Some "PNG") "RGBA"));
               Recoded 80 "RGB" (Opened "/home/u/scans/p1.png" (Some "PNG") "RGB")]
              true (surjective_pairing _))
    as (v & s & Hreach & _ & _ & _ & Hsrc & _).
  - reflexivity.
  - vm_compute. apply list_elem_of_In. simpl. tauto.
  - by exists v, s.
Defined.

(** ** C9 and C10: removal of the sources *)

Section Removal.
Context (w : world).

(** A failed write leaves every path but the output path as it was. *)
Lemma assemble_failed_write a v pages s r st' e leftover :
  pdf_write w (fs s) (output a) pages = SaveFailed e leftover →
  assemble w a v pages s = (r, st') →
  r = Exit 1 ∧ ∀ k, k ≠ w_abspath w (output a) → fs st' !! k = fs s !! k.
Proof.
  intros Hw. rewrite assemble_run, Hw. intros [= <- <-]. split; [done |].
  intros k Hk. simpl. destruct leftover; [by apply lookup_insert_ne | done].
Qed.

(** The assembly returns, with removal requested, only after the write
    succeeded and every validated path was removed. *)
Lemma assemble_success a v pages s st' :
  remove_source a = true →
  assemble w a v pages s = (Val tt, st') →
  pdf_write w (fs s) (output a) pages = Saved ∧
  st' = {| fs := unlink_all w (written w a pages (fs s)) v;
           trace := trace s ++ PdfSave (output a) pages true
                      :: created_line w a pages :: map Remove v ++ [sources_removed] |}.
Proof.
  intros Hrm. rewrite assemble_run, Hrm.
  destruct (pdf_write w (fs s) (output a) pages) as [| e leftover]; [| done].
  destruct (remove_all w v (saved_state w a pages s)) as [[[] | e | c] s2] eqn:Hrem;
    [| done |].
  - intros [= <-]. split; [done |].
    rewrite (remove_all_val w _ _ _ Hrem). unfold after. simpl.
    by rewrite <- !app_assoc.
  - by destruct (remove_all_frame w _ _ _ _ Hrem) as ([| []] & _).
Qed.

(** The removal stops at the first path that cannot be removed; the
    exception is reported as a failure to save. *)
Lemma assemble_removal_fails a done p rest pages s s2 e s3 :
  remove_source a = true →
  pdf_write w (fs s) (output a) pages = Saved →
  remove_all w done (saved_state w a pages s) = (Val tt, s2) →
  os_remove w p s2 = (Raise e, s3) →
  assemble w a (done ++ p :: rest) pages s = (Exit 1, after s3 [save_failure e]) ∧
  fs s3 = unlink_all w (written w a pages (fs s)) done.
Proof.
  intros Hrm Hw Hdone Hp. rewrite assemble_run, Hw, Hrm.
  rewrite remove_all_app, bind_run, Hdone. cbn [remove_all].
  rewrite bind_run, Hp. split; [done |].
  rewrite (remove_all_val w _ _ _ Hdone) in Hp. rewrite os_remove_run in Hp.
  destruct (removal_error w _ p); [| done]. by injection Hp as _ <-.
Qed.

End Removal.

(** C9 (as amended). In every run: no path is removed before the PDF
    writer has returned successfully; without a successful write every
    path other than the output path is as it was; and when removal is
    requested and the run completes (the write and every removal succeed),
    exactly the paths of the Validated Image Set are gone, every other path
    is as the write left it, and the output PDF is in place provided the
    output path is not itself one of the validated paths. *)
Theorem C9_sources_removed_after_write (w : world) (a : args) (st0 : state)
    (r : result unit) (st' : state) (evs : list event) :
  main w a st0 = (r, st') →
  trace st' = trace st0 ++ evs →
  (∀ pre p post, evs = pre ++ Remove p :: post →
     ∃ pages, PdfSave (output a) pages true ∈ pre) ∧
  ((∀ pages, PdfSave (output a) pages true ∉ evs) →
     ∀ k, k ≠ w_abspath w (output a) → fs st' !! k = fs st0 !! k) ∧
  (remove_source a = true → r = Val tt →
     ∃ v pages s,
       reaches_assembly w a st0 v pages s ∧
       PdfSave (output a) pages true ∈ evs ∧
       (∀ k, fs st' !! k =
             if decide (k ∈ map (w_abspath w) v) then None
             else written w a pages (fs st0) !! k) ∧
       (w_abspath w (output a) ∉ map (w_abspath w) v →
        fs st' !! w_abspath w (output a) = Some (File (w_now w) (Pdf pages)))).
Proof.
  intros Hmain Htrace.
  destruct (main_cases w a st0 r st' Hmain)
    as [(evs0 & -> & Hevs0 & Hr) | (v & pages & s & Hreach & Hasm)].
  { simpl in Htrace. apply app_inv_head in Htrace as <-.
    rewrite Forall_forall in Hevs0. split_and!.
    - intros pre p post ->. destruct (Hevs0 (Remove p)).
      apply elem_of_app. right. by left.
    - done.
    - done. }
  destruct (reaches_assembly_inv w a st0 v pages s Hreach) as ((evs0 & -> & Hevs0) & Hv & Hpg).
  destruct (assemble_events w a v pages _ r st' Hasm)
    as (ok & rest & Ht & Hrest & Hok & Hbad & _).
  simpl in Ht. rewrite Htrace, <- app_assoc in Ht. apply app_inv_head in Ht as ->.
  rewrite Forall_forall in Hevs0.
  split_and!.
  - intros pre p post Heq.
    apply app_eq_inv in Heq as [(k & -> & Hk) | (k & -> & Hk)].
    + destruct k as [| x k]; [done |]. injection Hk as <- _.
      destruct (Hevs0 (Remove p)). apply elem_of_app. right. by left.
    + destruct k as [| x k]; [done |]. injection Hk as <- ->.
      exists pages. apply elem_of_app. right.
      destruct ok; [by left |].
      specialize (Hbad eq_refl). rewrite Forall_forall in Hbad.
      destruct (Hbad (Remove p)). apply elem_of_app. right. by left.
  - intros Hnone k Hk. destruct ok.
    + destruct (Hnone pages). apply elem_of_app. right. by left.
    + destruct (pdf_write w (fs (after st0 evs0)) (output a) pages) as [| e leftover] eqn:Hw.
      * destruct Hok as [_ Hok]. by specialize (Hok eq_refl).
      * by destruct (assemble_failed_write w a v pages _ r st' e leftover Hw Hasm) as [_ ->].
  - intros Hrm ->.
    destruct (assemble_success w a v pages _ st' Hrm Hasm) as [Hw ->].
    exists v, pages, (after st0 evs0). split_and!; [done | | |].
    + destruct ok; [apply elem_of_app; right; by left |].
      destruct Hok as [_ Hok]. by specialize (Hok Hw).
    + intros k. apply lookup_unlink_all.
    + intros Hout. simpl. rewrite lookup_unlink_all, decide_False by done.
      apply lookup_insert_eq.
Qed.

Lemma C9_witness :
  ∃ v pages s,
    reaches_assembly demo
      (demo_args ["a.png"; "scans/p1.png"] None "out.pdf" false true false)
      (start demo_fs) v pages s ∧
    PdfSave "out.pdf" pages true
      ∈ trace (main demo
                 (demo_args ["a.png"; "scans/p1.png"] None "out.pdf" false true false)
                 (start demo_fs)).2 ∧
    (∀ k, fs (main demo
                (demo_args ["a.png"; "scans/p1.png"] None "out.pdf" false true false)
                (start demo_fs)).2 !! k =
          if decide (k ∈ map (w_abspath demo) v) then None
          else written demo
                 (demo_args ["a.png"; "scans/p1.png"] None "out.pdf" false true false)
                 pages demo_fs !! k) ∧
    (w_abspath demo "out.pdf" ∉ map (w_abspath demo) v →
     fs (main demo
           (demo_args ["a.png"; "scans/p1.png"] None "out.pdf" false true false)
           (start demo_fs)).2 !! w_abspath demo "out.pdf" =
     Some (File (w_now demo) (Pdf pages))).
Proof.
  destruct (C9_sources_removed_after_write demo
              (demo_args ["a.png"; "scans/p1.png"] None "out.pdf" false true false)
              (start demo_fs) _ _
              (trace (main demo
                        (demo_args ["a.png"; "scans/p1.png"] None "out.pdf" false true false)
                        (start demo_fs)).2)
              (surjective_pairing _) eq_refl) as (_ & _ & H).
  apply H.
  - reflexivity.
  - vm_compute. reflexivity.
Defined.

(** C9, as stated, fails in two ways.  When the output path is itself a
    validated path, the write succeeds, the run completes and the PDF just
    written is removed with the sources.  And when a removal fails after a
    successful write (here the same path is given twice), the paths after
    it in the Validated Image Set are not removed. *)
Lemma C9_counterexample :
  (main demo (demo_args ["a.png"] None "a.png" false true false) (start demo_fs)).1 = Val tt ∧
  PdfSave "a.png"
    [Recoded 80 "RGB" (Converted "RGB" (Opened "/home/u/a.png" (Some "PNG") "RGBA"))] true
    ∈ trace (main demo (demo_args ["a.png"] None "a.png" false true false)
               (start demo_fs)).2 ∧
  fs (main demo (demo_args ["a.png"] None "a.png" false true false) (start demo_fs)).2
    !! "/home/u/a.png" = None ∧
  (main demo (demo_args ["a.png"; "a.png"; "scans/p1.png"] None "out.pdf" false true false)
     (start demo_fs)).1 = Exit 1 ∧
  fs (main demo (demo_args ["a.png"; "a.png"; "scans/p1.png"] None "out.pdf" false true false)
        (start demo_fs)).2 !! "/home/u/scans/p1.png" =
  Some (File 10 (picture "PNG" "RGB")).
Proof.
  split_and!; try (vm_compute; reflexivity).
  vm_compute. apply list_elem_of_In. simpl. tauto.
Qed.

(** C10 (as amended). When the write has succeeded and, with removal
    requested, the removal of a validated path raises after the paths
    before it were removed, the run ends with exit status 1 and its last
    line is the diagnostic of a failure to save; the paths removed before
    stay removed, every other path is as the write left it, and the output
    PDF is in place unless its path is one of those removed. *)
Theorem C10_removal_failure (w : world) (a : args) (st0 : state)
    (v : list string) (pages : list image) (s : state)
    (done : list string) (p : string) (rest : list string)
    (s2 : state) (e : exc) (s3 : state) :
  reaches_assembly w a st0 v pages s →
  remove_source a = true →
  pdf_write w (fs s) (output a) pages = Saved →
  v = done ++ p :: rest →
  remove_all w done (saved_state w a pages s) = (Val tt, s2) →
  os_remove w p s2 = (Raise e, s3) →
  main w a st0 = (Exit 1, after s3 [save_failure e]) ∧
  (∀ q, q ∈ done → fs s3 !! w_abspath w q = None) ∧
  (∀ k, k ∉ map (w_abspath w) done → fs s3 !! k = written w a pages (fs st0) !! k) ∧
  (w_abspath w (output a) ∉ map (w_abspath w) done →
   fs s3 !! w_abspath w (output a) = Some (File (w_now w) (Pdf pages))).
Proof.
  intros Hreach Hrm Hw -> Hdone Hp.
  destruct (reaches_assembly_inv w a st0 _ pages s Hreach) as ((evs0 & -> & _) & _ & _).
  destruct (assemble_removal_fails w a done p rest pages _ s2 e s3 Hrm Hw Hdone Hp)
    as [Hasm Hfs].
  simpl in Hfs. split_and!.
  - by rewrite (main_reaches_assembly w a st0 _ pages _ Hreach).
  - intros q Hq. rewrite Hfs, lookup_unlink_all, decide_True; [done |].
    by apply list_elem_of_fmap_2.
  - intros k Hk. by rewrite Hfs, lookup_unlink_all, decide_False.
  - intros Hout. rewrite Hfs, lookup_unlink_all, decide_False by done.
    apply lookup_insert_eq.
Qed.

Lemma C10_witness :
  main demo (demo_args ["a.png"; "a.png"; "scans/p1.png"] None "out.pdf" false true false)
    (start demo_fs) =
  (Exit 1,
   after
     (os_remove demo "/home/u/a.png"
        (remove_all demo ["/home/u/a.png"]
           (saved_state demo
              (demo_args ["a.png"; "a.png"; "scans/p1.png"] None "out.pdf" false true false)
              [Recoded 80 "RGB" (Converted "RGB" (Opened "/home/u/a.png" (Some "PNG") "RGBA"));
               Recoded 80 "RGB" (Converted "RGB" (Opened "/home/u/a.png" (Some "PNG") "RGBA"));
               Recoded 80 "RGB" (Opened "/home/u/scans/p1.png" (Some "PNG") "RGB")]
              (process_all demo false 80 1
                 ["/home/u/a.png"; "/home/u/a.png"; "/home/u/scans/p1.png"] []
                 (validate demo false
                    ["/home/u/a.png"; "/home/u/a.png"; "/home/u/scans/p1.png"] []
                    (start demo_fs)).2).2)).2).2
     [save_failure (no_such_file "/home/u/a.png")]).
Proof.
  refine (proj1 (C10_removal_failure demo
            (demo_args ["a.png"; "a.png"; "scans/p1.png"] None "out.pdf" false true false)
            (start demo_fs)
            ["/home/u/a.png"; "/home/u/a.png"; "/home/u/scans/p1.png"]
            _ _ ["/home/u/a.png"] "/home/u/a.png" ["/home/u/scans/p1.png"]
            _ (no_such_file "/home/u/a.png") _ _ _ _ _ _ _)).
  - exists ["/home/u/a.png"; "/home/u/a.png"; "/home/u/scans/p1.png"], (start demo_fs),
      (validate demo false
         ["/home/u/a.png"; "/home/u/a.png"; "/home/u/scans/p1.png"] [] (start demo_fs)).2.
    split_and!; try (vm_compute; reflexivity). discriminate.
  - reflexivity.
  - vm_compute. reflexivity.
  - reflexivity.
  - vm_compute. reflexivity.
  - vm_compute. reflexivity.
Defined.

(** C10, as stated, fails when the output path is itself a validated path
    that was removed before the failing removal: the run ends with status 1
    and the PDF that was written is no longer on disk. *)
Lemma C10_counterexample :
  (main demo (demo_args ["a.png"; "a.png"] None "a.png" false true false)
     (start demo_fs)).1 = Exit 1 ∧
  PdfSave "a.png"
    [Recoded 80 "RGB" (Converted "RGB" (Opened "/home/u/a.png" (Some "PNG") "RGBA"));
     Recoded 80 "RGB" (Converted "RGB" (Opened "/home/u/a.png" (Some "PNG") "RGBA"))] true
    ∈ trace (main demo (demo_args ["a.png"; "a.png"] None "a.png" false true false)
               (start demo_fs)).2 ∧
  fs (main demo (demo_args ["a.png"; "a.png"] None "a.png" false true false)
        (start demo_fs)).2 !! "/home/u/a.png" = None.
Proof.
  split_and!; try (vm_compute; reflexivity).
  vm_compute. apply list_elem_of_In. simpl. tauto.
Qed.

(** * Further properties of the script *)

(** ** Runs that write nothing *)

Section Untouched.
Context (w : world).

Lemma reaches_output_check_inv a st0 v pages s :
  reaches_output_check w a st0 v pages s →
  (∃ evs, s = after st0 evs ∧ Forall harmless evs) ∧
  pages ≠ [] ∧
  Forall2 (fun p img => transcode w (fs st0) p (quality a) = inr img) v pages.
Proof.
  intros (imgs & st & st1 & Hcol & Hval & Hv & Hdry & Hproc).
  destruct (collect_footprint w a _ _ _ Hcol) as (evs1 & -> & Hevs1 & _).
  destruct (validate_footprint w (verbose a) imgs [] _ _ _ Hval) as (evs2 & -> & Hevs2 & _).
  destruct (process_all_footprint w _ _ _ _ _ _ _ _ Hproc) as (evs3 & -> & Hevs3 & _).
  destruct (process_all_val w _ _ _ _ _ _ _ _ Hproc) as (pg & -> & Hpg).
  split_and!; [| | exact Hpg].
  - exists (evs1 ++ evs2 ++ validation_report a v ++ evs3).
    rewrite !after_after, <- ?app_assoc. split; [done |].
    assert (Hrep : Forall harmless (validation_report a v)).
    { unfold validation_report. destruct (verbose a); repeat constructor. }
    repeat (apply Forall_app; split); try done;
      (eapply Forall_impl; [eassumption | apply harmless_quiet]).
  - intros Hnil. simpl in Hnil. subst pg. apply Forall2_nil_inv_r in Hpg. done.
Qed.

Lemma main_reaches_output_check a st0 v pages s :
  reaches_output_check w a st0 v pages s →
  main w a st0 =
  if output_dir_ok w (fs s) (output a) then assemble w a v pages s
  else (Exit 1, after s [no_output_directory w a]).
Proof.
  intros Hreach.
  destruct (reaches_output_check_inv a st0 v pages s Hreach) as (_ & Hpages & _).
  destruct Hreach as (imgs & st & st1 & Hcol & Hval & Hv & Hdry & Hproc).
  unfold main. rewrite bind_run, Hcol.
  destruct imgs as [| i imgs'].
  { rewrite validate_nil in Hval. by injection Hval as <- _. }
  rewrite bind_run, Hval, (finish_nonempty w a v st1 Hv).
  rewrite (proceed_transcoding w a _ _ Hdry), bind_run, Hproc.
  destruct pages as [| img pages']; [done |].
  unfold output_dir_ok. cbv zeta.
  destruct (String.eqb (dirname (w_abspath w (output a))) "") eqn:E.
  - by rewrite bind_run.
  - rewrite bind_run. unfold os_path_exists. rewrite !bind_run. simpl.
    destruct (path_exists w (fs s) (dirname (w_abspath w (output a)))); [done |].
    simpl. rewrite bind_run. unfold echo_err. by rewrite emit_run.
Qed.

End Untouched.

(** X1. A run in which the PDF writer is never called leaves the file
    system exactly as it found it: whatever the reason the run ended for
    (usage error, nothing valid, dry run, failed transcoding, missing
    output directory, an exception from the validator), no file was
    written or removed. *)
Theorem X1_no_writer_call_no_change (w : world) (a : args) (st0 : state)
    (r : result unit) (st' : state) (evs : list event) :
  main w a st0 = (r, st') →
  trace st' = trace st0 ++ evs →
  (∀ out pages ok, PdfSave out pages ok ∉ evs) →
  fs st' = fs st0 ∧ Forall harmless evs ∧ r ≠ Val tt.
Proof.
  intros Hmain Htrace Hnone.
  destruct (main_cases w a st0 r st' Hmain)
    as [(evs0 & -> & Hevs0 & Hr) | (v & pages & s & Hreach & Hasm)].
  { simpl in Htrace. by apply app_inv_head in Htrace as <-. }
  destruct (reaches_assembly_inv w a st0 v pages s Hreach) as ((evs0 & -> & _) & _ & _).
  destruct (assemble_events w a v pages _ r st' Hasm) as (ok & rest & Ht & _).
  simpl in Ht. rewrite Htrace, <- app_assoc in Ht. apply app_inv_head in Ht as ->.
  destruct (Hnone (output a) pages ok). apply elem_of_app. right. by left.
Qed.

Lemma X1_witness :
  fs (main demo (demo_args ["a.png"; "b.png"] None "out.pdf" false true true)
        (start demo_fs)).2 = demo_fs.
Proof.
  refine (proj1 (X1_no_writer_call_no_change demo
            (demo_args ["a.png"; "b.png"] None "out.pdf" false true true)
            (start demo_fs) _ _
            (trace (main demo (demo_args ["a.png"; "b.png"] None "out.pdf" false true true)
                      (start demo_fs)).2)
            (surjective_pairing _) eq_refl _)).
  intros out pages ok Hin. vm_compute in Hin.
  repeat (apply elem_of_cons in Hin as [Hin | Hin]; [discriminate |]).
  by apply elem_of_nil in Hin.
Defined.

(** X2. When the directory of the output path does not exist, a run that
    has transcoded every validated image ends with exit status 1 and the
    diagnostic naming that directory; the PDF writer is not called and the
    file system is as at the start. *)
Theorem X2_missing_output_directory (w : world) (a : args) (st0 : state)
    (v : list string) (pages : list image) (s : state) :
  reaches_output_check w a st0 v pages s →
  output_dir_ok w (fs st0) (output a) = false →
  main w a st0 = (Exit 1, after s [no_output_directory w a]) ∧
  fs s = fs st0 ∧
  ∃ evs, s = after st0 evs ∧ Forall harmless evs.
Proof.
  intros Hreach Hdir.
  destruct (reaches_output_check_inv w a st0 v pages s Hreach) as ((evs & -> & Hevs) & _ & _).
  rewrite (main_reaches_output_check w a st0 v pages _ Hreach). simpl. rewrite Hdir.
  split_and!; [done | done | by exists evs].
Qed.

Lemma X2_witness :
  main demo (demo_args ["a.png"] None "nowhere/out.pdf" false false false) (start demo_fs) =
  (Exit 1,
   after (process_all demo false 80 1 ["/home/u/a.png"] []
            (validate demo false ["/home/u/a.png"] [] (start demo_fs)).2).2
     [no_output_directory demo
        (demo_args ["a.png"] None "nowhere/out.pdf" false false false)]).
Proof.
  refine (proj1 (X2_missing_output_directory demo
            (demo_args ["a.png"] None "nowhere/out.pdf" false false false)
            (start demo_fs) ["/home/u/a.png"]
            [Recoded 80 "RGB" (Converted "RGB" (Opened "/home/u/a.png" (Some "PNG") "RGBA"))]
            _ _ _)).
  - exists ["/home/u/a.png"], (start demo_fs),
      (validate demo false ["/home/u/a.png"] [] (start demo_fs)).2.
    split_and!; try (vm_compute; reflexivity). discriminate.
  - vm_compute. reflexivity.
Defined.

(** X3. When the PDF writer fails, the run ends with exit status 1 right
    after the diagnostic of the failure; no source is removed, even with
    [-r], and every path other than the output path is as at the start
    (the output path holds what the failed write left, if anything). *)
Theorem X3_failed_write (w : world) (a : args) (st0 : state)
    (v : list string) (pages : list image) (s : state) (e : exc) (leftover : bool) :
  reaches_assembly w a st0 v pages s →
  pdf_write w (fs st0) (output a) pages = SaveFailed e leftover →
  ∃ st',
    main w a st0 = (Exit 1, st') ∧
    trace st' = trace s ++ [PdfSave (output a) pages false; save_failure e] ∧
    (∀ k, k ≠ w_abspath w (output a) → fs st' !! k = fs st0 !! k) ∧
    fs st' !! w_abspath w (output a) =
      if leftover then Some (File (w_now w) Partial)
      else fs st0 !! w_abspath w (output a).
Proof.
  intros Hreach Hw.
  destruct (reaches_assembly_inv w a st0 v pages s Hreach) as ((evs & -> & _) & _ & _).
  rewrite (main_reaches_assembly w a st0 v pages _ Hreach), assemble_run. simpl.
  rewrite Hw. eexists. split_and!; [done | done | |]; simpl.
  - intros k Hk. destruct leftover; [by apply lookup_insert_ne | done].
  - destruct leftover; [apply lookup_insert_eq | done].
Qed.

Lemma X3_witness :
  ∃ st',
    main demo (demo_args ["a.png"] None "scans" false true false) (start demo_fs)
      = (Exit 1, st') ∧
    fs st' !! "/home/u/a.png" = Some (File 30 (picture "PNG" "RGBA")).
Proof.
  destruct (X3_failed_write demo (demo_args ["a.png"] None "scans" false true false)
              (start demo_fs) ["/home/u/a.png"]
              [Recoded 80 "RGB" (Converted "RGB" (Opened "/home/u/a.png" (Some "PNG") "RGBA"))]
              (process_all demo false 80 1 ["/home/u/a.png"] []
                 (validate demo false ["/home/u/a.png"] [] (start demo_fs)).2).2
              (is_a_directory "scans") false)
    as (st' & Hmain & _ & Hfs & _).
  - exists ["/home/u/a.png"], (start demo_fs),
      (validate demo false ["/home/u/a.png"] [] (start demo_fs)).2.
    split_and!; try (vm_compute; reflexivity). discriminate.
  - vm_compute. reflexivity.
  - exists st'. split; [done |]. rewrite Hfs; [vm_compute; reflexivity | discriminate].
Defined.

(** X4. Without [-r], a run whose write succeeds returns normally (exit
    status 0) after the report of line 163; the output path holds the
    document, with one page per validated image, and every other path,
    the sources among them, is as at the start. *)
Theorem X4_success_keeps_sources (w : world) (a : args) (st0 : state)
    (v : list string) (pages : list image) (s : state) :
  reaches_assembly w a st0 v pages s →
  remove_source a = false →
  pdf_write w (fs st0) (output a) pages = Saved →
  main w a st0 = (Val tt, saved_state w a pages s) ∧
  fs (saved_state w a pages s) !! w_abspath w (output a)
    = Some (File (w_now w) (Pdf pages)) ∧
  length pages = length v ∧
  ∀ k, k ≠ w_abspath w (output a) → fs (saved_state w a pages s) !! k = fs st0 !! k.
Proof.
  intros Hreach Hrm Hw.
  destruct (reaches_assembly_inv w a st0 v pages s Hreach) as ((evs & -> & _) & _ & Hpg).
  rewrite (main_reaches_assembly w a st0 v pages _ Hreach), assemble_run. simpl.
  rewrite Hw, Hrm. split_and!; [done | | |].
  - apply lookup_insert_eq.
  - symmetry. by apply Forall2_length in Hpg.
  - intros k Hk. simpl. unfold written. by apply lookup_insert_ne.
Qed.

Lemma X4_witness :
  main demo (demo_args ["a.png"; "scans/p1.png"] None "out.pdf" false false false)
    (start demo_fs) =
  (Val tt,
   saved_state demo (demo_args ["a.png"; "scans/p1.png"] None "out.pdf" false false false)
     [Recoded 80 "RGB" (Converted "RGB" (Opened "/home/u/a.png" (Some "PNG") "RGBA"));
      Recoded 80 "RGB" (Opened "/home/u/scans/p1.png" (Some "PNG") "RGB")]
     (process_all demo false 80 1 ["/home/u/a.png"; "/home/u/scans/p1.png"] []
        (validate demo false ["/home/u/a.png"; "/home/u/scans/p1.png"] []
           (start demo_fs)).2).2).
Proof.
  refine (proj1 (X4_success_keeps_sources demo
            (demo_args ["a.png"; "scans/p1.png"] None "out.pdf" false false false)
            (start demo_fs) ["/home/u/a.png"; "/home/u/scans/p1.png"] _ _ _ _ _)).
  - exists ["/home/u/a.png"; "/home/u/scans/p1.png"], (start demo_fs),
      (validate demo false ["/home/u/a.png"; "/home/u/scans/p1.png"] []
         (start demo_fs)).2.
    split_and!; try (vm_compute; reflexivity). discriminate.
  - reflexivity.
  - vm_compute. reflexivity.
Defined.

(** ** Arguments that name no file *)

Section Plain.
Context (w : world).

(** Without [-d] and without the sentinel, the collector keeps the
    arguments that name regular files, made absolute, and does nothing
    else (line 110). *)
Lemma collect_plain a st :
  given (input_dir a) = None →
  sentinel_first (images a) = false →
  collect w a st =
  (Val (map (w_abspath w) (filter (fun p => isfile w (fs st) p = true) (images a))), st).
Proof.
  intros Hd Hs. unfold collect. rewrite Hd.
  destruct (images a) as [| first rest]; [done |].
  simpl in Hs. by rewrite Hs.
Qed.

Lemma filter_none_files m (imgs : list string) :
  Forall (fun p => isfile w m p = false) imgs →
  filter (fun p => isfile w m p = true) imgs = [].
Proof.
  induction 1 as [| p rest Hp _ IH]; [done |].
  rewrite filter_cons, decide_False; [done | congruence].
Qed.

Lemma sentinel_first_files m (imgs : list string) :
  isfile w m "auto-stamp" = false →
  sentinel_first (filter (fun p => isfile w m p = true) imgs) = false.
Proof.
  intros Hno. induction imgs as [| p rest IH]; [done |].
  rewrite filter_cons. destruct (decide (isfile w m p = true)) as [Hp | Hp]; [| done].
  simpl. destruct (String.eqb_spec p "auto-stamp") as [-> | Hne]; [congruence | done].
Qed.

Lemma main_with_images a imgs st :
  main w (with_images a imgs) st =
  (l ← collect w (with_images a imgs);
   match l with
   | [] => echo_err "Нет валидных изображений для обработки.";; sys_exit 1
   | _ :: _ => valid_images ← validate w (verbose a) l []; finish w a valid_images
   end) st.
Proof. reflexivity. Qed.

End Plain.

(** X5. Without [-d], when no positional argument names a regular file
    (in particular when there is none at all) and the first is not the
    sentinel, the run prints the one line "no valid images" on standard
    error and ends with exit status 1, without opening anything. *)
Theorem X5_no_existing_argument (w : world) (a : args) (st : state) :
  given (input_dir a) = None →
  sentinel_first (images a) = false →
  Forall (fun p => isfile w (fs st) p = false) (images a) →
  main w a st = (Exit 1, after st [no_valid_images]).
Proof.
  intros Hd Hs Hnone. unfold main.
  by rewrite bind_run, (collect_plain w a st Hd Hs), (filter_none_files w _ _ Hnone).
Qed.

Lemma X5_witness :
  main demo (demo_args ["zz.png"; "scans"] None "out.pdf" false false true) (start demo_fs) =
  (Exit 1, after (start demo_fs) [no_valid_images]).
Proof.
  apply X5_no_existing_argument.
  - reflexivity.
  - reflexivity.
  - repeat constructor.
Defined.

(** X6. Without [-d], positional arguments that do not name a regular
    file are ignored altogether: the run is the same, in result, file
    system and every line printed (no diagnostic for them, even with
    [--verbose]), as the run on the remaining arguments.  (The first
    argument is not the sentinel, and no file is called [auto-stamp].) *)
Theorem X6_missing_arguments_ignored (w : world) (a : args) (st : state) :
  given (input_dir a) = None →
  sentinel_first (images a) = false →
  isfile w (fs st) "auto-stamp" = false →
  main w a st =
  main w (with_images a (filter (fun p => isfile w (fs st) p = true) (images a))) st.
Proof.
  intros Hd Hs Hno.
  rewrite main_with_images. unfold main at 1.
  rewrite !bind_run, (collect_plain w a st Hd Hs).
  rewrite (collect_plain w (with_images a _) st Hd (sentinel_first_files w _ _ Hno)).
  simpl. by rewrite list_filter_filter_l.
Qed.

Lemma X6_witness :
  main demo (demo_args ["zz.png"; "a.png"; "scans"; "c.gif"] None "out.pdf" false false true)
    (start demo_fs) =
  main demo
    (with_images
       (demo_args ["zz.png"; "a.png"; "scans"; "c.gif"] None "out.pdf" false false true)
       (filter (fun p => isfile demo demo_fs p = true)
          ["zz.png"; "a.png"; "scans"; "c.gif"]))
    (start demo_fs).
Proof.
  apply (X6_missing_arguments_ignored demo
           (demo_args ["zz.png"; "a.png"; "scans"; "c.gif"] None "out.pdf" false false true)
           (start demo_fs)).
  - reflexivity.
  - reflexivity.
  - vm_compute. reflexivity.
Defined.

(** ** The directory scan, continued *)

Section ScanFilter.
Context (w : world).

Lemma scan_accepted m d names p :
  p ∈ scan w m d names → accepts w m p = true.
Proof.
  destruct (scan_sorted w m d names) as (files & -> & Hperm & _).
  intros (f & -> & Hf)%list_elem_of_fmap.
  rewrite Hperm in Hf. unfold accepted_names in Hf.
  by apply list_elem_of_filter in Hf as [Hf _].
Qed.

(** The events of the filter loop: openings, and lines on standard
    error. *)
Lemma validate_events v imgs acc :
  footprint (fun e => opening e ∨ complaint e) anything (validate w v imgs acc).
Proof.
  revert acc. induction imgs as [| p rest IH]; intros acc; simpl.
  { by apply footprint_ret. }
  eapply footprint_bind; [apply os_path_isfile_footprint | intros is_file _].
  destruct is_file; simpl.
  - eapply footprint_bind with (Q := anything).
    { eapply footprint_mono; [| | apply is_image_file_footprint]; [| done].
      intros e <-. left. by eexists. }
    intros is_image _. destruct is_image; simpl; [apply IH |].
    eapply footprint_bind with (Q := anything); [| intros _ _; apply IH].
    apply footprint_when. intros _. apply footprint_emit. right. by eexists.
  - eapply footprint_bind with (Q := anything); [| intros _ _; apply IH].
    apply footprint_when. intros _. apply footprint_emit. right. by eexists.
Qed.

Lemma validated_all m (l : list string) :
  Forall (fun p => accepts w m p = true) l → validated w m l = l.
Proof.
  induction 1 as [| p rest Hp _ IH]; [done |].
  unfold validated in *. by rewrite filter_cons, decide_True, IH.
Qed.

Lemma rejections_none m (l : list string) :
  Forall (fun p => accepts w m p = true) l → omap (rejection w m) l = [].
Proof.
  induction 1 as [| p rest Hp _ IH]; [done |].
  cbn [omap list_omap]. apply (rejection_none w) in Hp. rewrite Hp. exact IH.
Qed.

(** The filter loop keeps a list of accepted paths as it is. *)
Lemma validate_keeps_accepted v (l : list string) st :
  Forall (fun p => accepts w (fs st) p = true) l →
  ∃ evs,
    validate w v l [] st = (Val l, after st evs) ∧
    echoes evs = [] ∧
    Forall opening evs.
Proof.
  intros Hacc.
  destruct (validate_run w v l [] st) as (evs & Hrun & Hech).
  { intros p Hp e He. rewrite Forall_forall in Hacc.
    rewrite (accepts_no_error w _ _ (Hacc p Hp)) in He. done. }
  rewrite (validated_all _ _ Hacc) in Hrun. simpl in Hrun.
  rewrite (rejections_none _ _ Hacc) in Hech.
  exists evs. split_and!; [done | by destruct v |].
  destruct (validate_events v _ _ _ _ _ Hrun) as (evs' & ->%after_inj & Hev & _).
  assert (Hnil : echoes evs' = []) by by destruct v.
  clear -Hev Hnil. induction Hev as [| e evs' He _ IH]; [constructor |].
  destruct He as [He | [line ->]]; [| discriminate].
  constructor; [done |]. apply IH. by destruct He as [p ->].
Qed.

(** A verdict of [is_image_file] is the verdict of [accepts]. *)
Lemma is_image_file_val p st b st' :
  is_image_file w p st = (Val b, st') → b = accepts w (fs st) p ∧ fs st' = fs st.
Proof.
  destruct (is_image_file_run w p st) as (evs & _ & ->).
  destruct (validation_error w (fs st) p) as [e |] eqn:He.
  - destruct (caught_by _ e); [| done]. intros [= <- <-].
    by rewrite (error_not_accepted w _ _ _ He).
  - by intros [= <- <-].
Qed.

Lemma select_images_val d names st files st' :
  select_images w d names st = (Val files, st') →
  Forall (fun f => accepts w (fs st) (join d f) = true) files ∧ fs st' = fs st.
Proof.
  revert st files st'. induction names as [| f rest IH]; intros st files st'.
  { intros [= <- <-]. by split. }
  cbn [select_images]. rewrite bind_run.
  destruct (is_image_file w (join d f) st) as [[b | e | c] st1] eqn:Hf; [| done | done].
  apply is_image_file_val in Hf as [-> Hfs].
  rewrite bind_run.
  destruct (select_images w d rest st1) as [[files' | e | c] st2] eqn:Hrest; [| done | done].
  apply IH in Hrest as [Hacc Hfs2]. rewrite Hfs in Hacc, Hfs2.
  intros [= <- <-]. split; [| done].
  destruct (accepts w (fs st) (join d f)) eqn:E; [by constructor | done].
Qed.

(** Whatever [get_images_from_directory] returns is a list of paths that
    [is_image_file] has accepted, and the scan left the files alone. *)
Lemma get_images_from_directory_val d st imgs st1 :
  get_images_from_directory w d st = (Val imgs, st1) →
  Forall (fun p => accepts w (fs st) p = true) imgs ∧ fs st1 = fs st.
Proof.
  unfold get_images_from_directory. rewrite bind_run, os_listdir_run.
  destruct (stat w (fs st) d) as [[t c | t names] |]; [done | | done].
  rewrite bind_run.
  destruct (select_images w d names (after st [Listdir d]))
    as [[files | e | c] st2] eqn:Hsel; [| done | done].
  apply select_images_val in Hsel as [Hacc Hfs]. simpl in Hacc, Hfs.
  rewrite bind_run, mapM_getmtime.
  2:{ intros f Hf. rewrite Hfs. rewrite Forall_forall in Hacc. by apply Hacc. }
  intros [= <- <-]. split; [| done].
  rewrite Hfs. rewrite zip_map_keys.
  apply Forall_forall. intros p (f & -> & Hf)%list_elem_of_fmap.
  rewrite sort_by_key_perm in Hf.
  apply list_elem_of_fmap in Hf as ([k f'] & -> & Hf).
  apply list_elem_of_fmap in Hf as (f'' & [= -> ->] & Hf). simpl.
  rewrite Forall_forall in Hacc. by apply Hacc.
Qed.

End ScanFilter.

(** X7. The filter loop of [main] keeps everything that the directory
    scan returned: run after a scan that returned a list, it validates every
    scanned path a second time, drops none and prints no diagnostic; so in
    auto-stamp mode the Validated Image Set is the list that
    [get_images_from_directory] returned. *)
Theorem X7_filter_keeps_scan (w : world) (v : bool) (st : state)
    (d : string) (imgs : list string) (st1 : state) :
  get_images_from_directory w d st = (Val imgs, st1) →
  ∃ evs,
    validate w v imgs [] st1 = (Val imgs, after st1 evs) ∧
    echoes evs = [] ∧
    Forall opening evs.
Proof.
  intros [Hacc Hfs]%get_images_from_directory_val.
  apply validate_keeps_accepted. by rewrite Hfs.
Qed.

Lemma X7_witness :
  ∃ evs,
    validate demo true ["scans/p1.png"; "scans/p2.jpg"; "scans/p3.png"] []
      (get_images_from_directory demo "scans" (start demo_fs)).2 =
    (Val ["scans/p1.png"; "scans/p2.jpg"; "scans/p3.png"],
     after (get_images_from_directory demo "scans" (start demo_fs)).2 evs) ∧
    echoes evs = [] ∧ Forall opening evs.
Proof.
  apply (X7_filter_keeps_scan demo true (start demo_fs) "scans").
  vm_compute. reflexivity.
Defined.

(** ** The order of the directory scan *)

Section ScanOrder.
Context (w : world).

(** The insertion sort is stable: among the entries of one key, the order
    of the input is kept. *)
Lemma insert_by_key_filter (k : Z) (x : Z * string) (l : list (Z * string)) :
  filter (fun y => y.1 = k) (insert_by_key x l) =
  filter (fun y => y.1 = k) (x :: l).
Proof.
  induction l as [| y l IH]; [done |].
  cbn [insert_by_key]. destruct (x.1 <=? y.1) eqn:E; [done |].
  apply Z.leb_gt in E.
  rewrite filter_cons, IH, !filter_cons.
  destruct (decide (y.1 = k)), (decide (x.1 = k)); try done. lia.
Qed.

Lemma sort_by_key_stable (k : Z) (l : list (Z * string)) :
  filter (fun y => y.1 = k) (sort_by_key l) = filter (fun y => y.1 = k) l.
Proof.
  induction l as [| x l IH]; [done |].
  unfold sort_by_key in *. cbn [foldr].
  by rewrite insert_by_key_filter, !filter_cons, IH.
Qed.

Lemma filter_fmap_inv {A B} (f : A → B) (P : B → Prop) `{!∀ y, Decision (P y)}
    (l : list A) :
  filter P (map f l) = map f (filter (fun x => P (f x)) l).
Proof.
  induction l as [| x l IH]; [done |].
  cbn [map]. rewrite !filter_cons, IH. by destruct (decide (P (f x))).
Qed.

(** The list comprehension of the scan returns the accepted names, when it
    returns. *)
Lemma select_images_accepted d names st files st' :
  select_images w d names st = (Val files, st') →
  files = accepted_names w (fs st) d names ∧ fs st' = fs st.
Proof.
  revert st files st'. induction names as [| f rest IH]; intros st files st'.
  { intros [= <- <-]. by split. }
  cbn [select_images]. rewrite bind_run.
  destruct (is_image_file w (join d f) st) as [[b | e | c] st1] eqn:Hf; [| done | done].
  apply is_image_file_val in Hf as [-> Hfs].
  rewrite bind_run.
  destruct (select_images w d rest st1) as [[files' | e | c] st2] eqn:Hrest; [| done | done].
  apply IH in Hrest as [-> Hfs2]. rewrite Hfs in Hfs2 |- *.
  intros [= <- <-]. split; [| done].
  unfold accepted_names. rewrite filter_cons.
  destruct (accepts w (fs st) (join d f)) eqn:E.
  - by rewrite decide_True.
  - by rewrite decide_False.
Qed.

(** A list that [get_images_from_directory] returns is the [scan] of the
    directory's listing. *)
Lemma get_images_from_directory_scan d st imgs st1 :
  get_images_from_directory w d st = (Val imgs, st1) →
  ∃ t names, stat w (fs st) d = Some (Dir t names) ∧
    imgs = scan w (fs st) d names ∧ fs st1 = fs st.
Proof.
  unfold get_images_from_directory. rewrite bind_run, os_listdir_run.
  destruct (stat w (fs st) d) as [[t c | t names] |]; [done | | done].
  rewrite bind_run.
  destruct (select_images w d names (after st [Listdir d]))
    as [[files | e | c] st2] eqn:Hsel; [| done | done].
  apply select_images_accepted in Hsel as [-> Hfs]. simpl in Hfs.
  rewrite bind_run, mapM_getmtime.
  2:{ intros f Hf. rewrite Hfs. unfold accepted_names in Hf.
      by apply list_elem_of_filter in Hf as [Hf _]. }
  intros [= <- <-]. exists t, names. split_and!; [done | | done].
  rewrite Hfs. unfold scan. by rewrite zip_map_keys.
Qed.

End ScanOrder.

(** X8. The sort of [get_images_from_directory] is stable: the paths it
    returns that have one modification time [k] are the accepted entries
    of that modification time, in the order in which [os.listdir] gave
    them. *)
Theorem X8_scan_ties_in_listing_order (w : world) (d : string) (st : state)
    (imgs : list string) (st1 : state) (t : Z) (names : list string) (k : Z) :
  get_images_from_directory w d st = (Val imgs, st1) →
  stat w (fs st) d = Some (Dir t names) →
  filter (fun p => mtime_of w (fs st) p = k) imgs =
  map (join d)
    (filter (fun f => accepts w (fs st) (join d f) = true ∧
                      mtime_of w (fs st) (join d f) = k) names).
Proof.
  intros (t' & names' & Hst & -> & _)%get_images_from_directory_scan Hst'.
  rewrite Hst in Hst'. injection Hst' as -> ->.
  unfold scan. rewrite filter_fmap_inv. f_equal.
  rewrite (filter_fmap_inv snd (fun f => mtime_of w (fs st) (join d f) = k)).
  assert (Hkeys : ∀ l : list (Z * string),
             Forall (fun x => x.1 = mtime_of w (fs st) (join d x.2)) l →
             filter (fun x : Z * string => mtime_of w (fs st) (join d x.2) = k) l =
             filter (fun x => x.1 = k) l).
  { induction 1 as [| x l Hx _ IH]; [done |].
    rewrite !filter_cons, IH.
    destruct (decide (mtime_of w (fs st) (join d x.2) = k)), (decide (x.1 = k));
      congruence. }
  rewrite Hkeys.
  2:{ rewrite sort_by_key_perm. apply Forall_map. by apply Forall_forall. }
  rewrite sort_by_key_stable, <- Hkeys.
  2:{ apply Forall_map. by apply Forall_forall. }
  rewrite (filter_fmap_inv (fun f => (mtime_of w (fs st) (join d f), f))).
  rewrite map_map, map_id. simpl.
  unfold accepted_names. rewrite list_filter_filter.
  apply list_filter_iff. intros f. tauto.
Qed.

Lemma X8_witness :
  filter (fun p => mtime_of demo batch_fs p = 5)
    ["batch/early.png"; "batch/z.png"; "batch/a.png"; "batch/m.jpg"] =
  map (join "batch")
    (filter (fun f => accepts demo batch_fs (join "batch" f) = true ∧
                      mtime_of demo batch_fs (join "batch" f) = 5)
       ["z.png"; "a.png"; "readme.txt"; "m.jpg"; "early.png"]).
Proof.
  apply (X8_scan_ties_in_listing_order demo "batch" (start batch_fs) _
           (get_images_from_directory demo "batch" (start batch_fs)).2 0).
  - vm_compute. reflexivity.
  - vm_compute. reflexivity.
Defined.

(** ** The steps of the transcoder *)

Section TranscoderSteps.
Context (w : world).

Lemma convert_step_run (b : bool) img st :
  (if b then Image_convert w img "RGB" else mret img) st =
  (match (if b then convert w img "RGB" else inr img) with
   | inl e => Raise e
   | inr i => Val i
   end, st).
Proof. destruct b; [apply Image_convert_run | done]. Qed.

Lemma recode_step_run (b : bool) img q st :
  (if b then jpeg_roundtrip w img q else mret img) st =
  (match (if b then recode w img q else inr img) with
   | inl e => Raise e
   | inr i => Val i
   end, after st (if b then [JpegEncode img q] else [])).
Proof. destruct b; [apply jpeg_roundtrip_run | by rewrite after_nil]. Qed.

(** The handler of [process_image] does not return. *)
Lemma process_image_handler p e st (img : image) st' :
  (echo_err ("Ошибка обработки изображения " +:+ p +:+ ": " +:+ exc_str e);;
   (sys_exit 1 : M image)) st ≠ (Val img, st').
Proof. rewrite bind_run. unfold echo_err. by rewrite emit_run. Qed.

(** A run of [process_image] that returns an image, step by step. *)
Lemma process_image_val p q st img st' :
  process_image w p q st = (Val img, st') →
  ∃ f mode,
    decode w (fs st) p = inr (Opened p f mode) ∧
    ∃ src,
      (if bool_decide (mode ∈ ["RGBA"; "P"])
       then convert w (Opened p f mode) "RGB" else inr (Opened p f mode)) = inr src ∧
      ∃ mid,
        (if bool_decide (q ≠ 0) then recode w src q else inr src) = inr mid ∧
        st' = after st (ImageOpen p :: if bool_decide (q ≠ 0) then [JpegEncode src q] else []) ∧
        (if bool_decide (im_mode mid ≠ "RGB") then convert w mid "RGB" else inr mid) = inr img.
Proof.
  unfold process_image. rewrite try_run. unfold process_image_try.
  rewrite bind_run, Image_open_decode.
  destruct (decode w (fs st) p) as [e | img0] eqn:Hd.
  { rewrite caught_by_Exception. intros H. by apply process_image_handler in H. }
  destruct (decode_source _ _ _ _ Hd) as (f & mode & ->).
  cbn [im_mode]. rewrite bind_run, convert_step_run.
  destruct (if bool_decide (mode ∈ ["RGBA"; "P"])
            then convert w (Opened p f mode) "RGB" else inr (Opened p f mode))
    as [e | src] eqn:Hsrc.
  { rewrite caught_by_Exception. intros H. by apply process_image_handler in H. }
  rewrite bind_run, recode_step_run.
  destruct (if bool_decide (q ≠ 0) then recode w src q else inr src)
    as [e | mid] eqn:Hmid.
  { rewrite caught_by_Exception. intros H. by apply process_image_handler in H. }
  rewrite bind_run, convert_step_run.
  destruct (if bool_decide (im_mode mid ≠ "RGB") then convert w mid "RGB" else inr mid)
    as [e | out] eqn:Hout.
  { rewrite caught_by_Exception. intros H. by apply process_image_handler in H. }
  rewrite after_after. intros [= <- <-].
  exists f, mode. split; [done |]. exists src. split; [done |].
  exists mid. by split_and!.
Qed.

Lemma convert_inr img mode img' :
  convert w img mode = inr img' → img' = Converted mode img.
Proof. unfold convert. destruct (w_convert w img mode); [done |]. by intros [= <-]. Qed.

Lemma recode_inr img q img' :
  recode w img q = inr img' →
  ∃ mode, w_jpeg_open w img q = inr mode ∧ img' = Recoded q mode img.
Proof.
  unfold recode. destruct (w_jpeg_save w img q); [done |].
  destruct (w_jpeg_open w img q) as [e | mode]; [done |]. intros [= <-]. eauto.
Qed.

End TranscoderSteps.

(** X9. With quality 0 the re-encoding is switched off ([if quality:] is
    false): a call of [process_image] that returns an image has opened
    the file once and called the JPEG encoder not at all, and the image
    is the decoded image itself when that is in mode RGB, and its
    [convert('RGB')] in every other mode. *)
Theorem X9_quality_zero_skips_encoder (w : world) (p : string) (st : state)
    (img : image) (st' : state) :
  process_image w p 0 st = (Val img, st') →
  st' = after st [ImageOpen p] ∧
  ∃ f mode,
    decode w (fs st) p = inr (Opened p f mode) ∧
    img = if bool_decide (mode = "RGB") then Opened p f mode
          else Converted "RGB" (Opened p f mode).
Proof.
  intros (f & mode & Hd & src & Hsrc & mid & Hmid & -> & Hout)%process_image_val.
  rewrite bool_decide_false in Hmid by lia. injection Hmid as <-.
  rewrite bool_decide_false by lia. split; [done |].
  exists f, mode. split; [done |].
  destruct (bool_decide (mode ∈ ["RGBA"; "P"])) eqn:Ealpha.
  - apply convert_inr in Hsrc as ->. cbn [im_mode] in Hout.
    rewrite bool_decide_false in Hout by (intros Hn; by apply Hn). injection Hout as <-.
    rewrite bool_decide_false; [done |]. intros ->. vm_compute in Ealpha. discriminate.
  - injection Hsrc as <-. cbn [im_mode] in Hout.
    destruct (decide (mode = "RGB")) as [-> | Hne].
    + rewrite bool_decide_false in Hout by (intros Hn; by apply Hn). by injection Hout as <-.
    + rewrite bool_decide_true in Hout by done. apply convert_inr in Hout as ->.
      by rewrite bool_decide_false.
Qed.

Lemma X9_witness :
  (process_image demo "b.png" 0 (start demo_fs)).2 =
    after (start demo_fs) [ImageOpen "b.png"] ∧
  ∃ f mode,
    decode demo (fs (start demo_fs)) "b.png" = inr (Opened "b.png" f mode) ∧
    Converted "RGB" (Opened "b.png" (Some "PNG") "LA") =
      if bool_decide (mode = "RGB") then Opened "b.png" f mode
      else Converted "RGB" (Opened "b.png" f mode).
Proof.
  apply (X9_quality_zero_skips_encoder demo "b.png" (start demo_fs)).
  vm_compute. reflexivity.
Defined.

(** X10. With a quality other than 0, a call of [process_image] that
    returns an image has opened the file once and called the JPEG encoder
    exactly once.  Only the modes RGBA and P are converted before the
    encoder: an image decoded in any other mode goes into it as decoded.
    What comes back from the encoder is returned as it is when its mode is
    RGB, and through [convert('RGB')] otherwise. *)
Theorem X10_one_encoder_call (w : world) (p : string) (q : Z) (st : state)
    (img : image) (st' : state) :
  q ≠ 0 →
  process_image w p q st = (Val img, st') →
  ∃ f mode mode',
    decode w (fs st) p = inr (Opened p f mode) ∧
    let src := if bool_decide (mode ∈ ["RGBA"; "P"])
               then Converted "RGB" (Opened p f mode) else Opened p f mode in
    st' = after st [ImageOpen p; JpegEncode src q] ∧
    w_jpeg_open w src q = inr mode' ∧
    img = if bool_decide (mode' = "RGB") then Recoded q mode' src
          else Converted "RGB" (Recoded q mode' src).
Proof.
  intros Hq (f & mode & Hd & src & Hsrc & mid & Hmid & -> & Hout)%process_image_val.
  rewrite bool_decide_true in Hmid by done. rewrite bool_decide_true by done.
  apply recode_inr in Hmid as (mode' & Hopen & ->).
  exists f, mode, mode'. split; [done |]. cbn zeta.
  assert (Hs : src = if bool_decide (mode ∈ ["RGBA"; "P"])
                     then Converted "RGB" (Opened p f mode) else Opened p f mode).
  { destruct (bool_decide (mode ∈ ["RGBA"; "P"])).
    - by apply convert_inr in Hsrc.
    - by injection Hsrc. }
  rewrite <- Hs. split_and!; [done | done |].
  cbn [im_mode] in Hout. destruct (decide (mode' = "RGB")) as [-> | Hne].
  - rewrite bool_decide_false in Hout by (intros Hn; by apply Hn).
    rewrite bool_decide_true by done. by injection Hout as <-.
  - rewrite bool_decide_true in Hout by done. apply convert_inr in Hout as ->.
    by rewrite bool_decide_false.
Qed.

Lemma X10_witness :
  ∃ f mode mode',
    decode demo (fs (start demo_fs)) "scans/p2.jpg" = inr (Opened "scans/p2.jpg" f mode) ∧
    let src := if bool_decide (mode ∈ ["RGBA"; "P"])
               then Converted "RGB" (Opened "scans/p2.jpg" f mode)
               else Opened "scans/p2.jpg" f mode in
    (process_image demo "scans/p2.jpg" 80 (start demo_fs)).2 =
      after (start demo_fs) [ImageOpen "scans/p2.jpg"; JpegEncode src 80] ∧
    w_jpeg_open demo src 80 = inr mode' ∧
    Converted "RGB" (Recoded 80 "L" (Opened "scans/p2.jpg" (Some "JPEG") "L")) =
      if bool_decide (mode' = "RGB") then Recoded 80 mode' src
      else Converted "RGB" (Recoded 80 mode' src).
Proof.
  apply (X10_one_encoder_call demo "scans/p2.jpg" 80 (start demo_fs)).
  - lia.
  - vm_compute. reflexivity.
Defined.

(** ** Exit statuses and uncaught exceptions *)

Section Ends.
Context (w : world).

Lemma ends_ret {A} E R (x : A) : ends E R (mret x).
Proof. by intros st r st' [= <- <-]. Qed.

Lemma ends_raise {A} E (R : exc → Prop) e : R e → ends (A := A) E R (raise e).
Proof. by intros He st r st' [= <- <-]. Qed.

Lemma ends_exit {A} (E : Z → Prop) R c : E c → ends (A := A) E R (sys_exit c).
Proof. by intros Hc st r st' [= <- <-]. Qed.

Lemma ends_get_fs E R : ends E R get_fs.
Proof. by intros st r st' [= <- <-]. Qed.

Lemma ends_put_fs E R m : ends E R (put_fs m).
Proof. by intros st r st' [= <- <-]. Qed.

Lemma ends_emit E R e : ends E R (emit e).
Proof. by intros st r st' [= <- <-]. Qed.

Lemma ends_bind {A B} E R (m : M A) (k : A → M B) :
  ends E R m → (∀ x, ends E R (k x)) → ends E R (m ≫= k).
Proof.
  intros Hm Hk st r st' H. rewrite bind_run in H.
  destruct (m st) as [[x | e | c] st1] eqn:Hrun; specialize (Hm _ _ _ Hrun).
  - by apply (Hk x _ _ _ H).
  - by injection H as <- <-.
  - by injection H as <- <-.
Qed.

Lemma ends_try {A} E (R R' : exc → Prop) (m : M A) ks (h : exc → M A) :
  ends E R' m →
  (∀ e, caught_by ks e = true → ends E R (h e)) →
  (∀ e, R' e → caught_by ks e = false → R e) →
  ends E R (try_except m ks h).
Proof.
  intros Hm Hh Hr st r st' H. rewrite try_run in H.
  destruct (m st) as [[x | e | c] st1] eqn:Hrun; specialize (Hm _ _ _ Hrun).
  - by injection H as <- <-.
  - destruct (caught_by ks e) eqn:Hc.
    + by apply (Hh e Hc _ _ _ H).
    + injection H as <- <-. by apply Hr.
  - by injection H as <- <-.
Qed.

Lemma ends_when E R b (m : M unit) : ends E R m → ends E R (when b m).
Proof. destruct b; [done | intros _; apply ends_ret]. Qed.

Lemma ends_mono {A} (E E' : Z → Prop) (R R' : exc → Prop) (m : M A) :
  (∀ c, E c → E' c) → (∀ e, R e → R' e) → ends E R m → ends E' R' m.
Proof.
  intros HE HR Hm st r st' H. specialize (Hm _ _ _ H).
  destruct r as [x | e | c]; auto.
Qed.

Lemma os_path_isfile_ends E R p : ends E R (os_path_isfile w p).
Proof. apply ends_bind; [apply ends_get_fs | intros m; apply ends_ret]. Qed.

Lemma os_path_exists_ends E R p : ends E R (os_path_exists w p).
Proof. apply ends_bind; [apply ends_get_fs | intros m; apply ends_ret]. Qed.

Lemma os_path_getmtime_ends E p : ends E escaping (os_path_getmtime w p).
Proof.
  apply ends_bind; [apply ends_get_fs | intros m].
  destruct (stat w m p) as [[] |]; try apply ends_ret.
  apply ends_raise. left. exists p. by left.
Qed.

Lemma os_listdir_ends E d : ends E escaping (os_listdir w d).
Proof.
  intros st r st'. rewrite os_listdir_run. intros [= <- <-].
  destruct (stat w (fs st) d) as [[] |]; [| done |]; left; exists d; auto.
Qed.

(** [is_image_file] does not exit, and raises only outside of [OSError]. *)
Lemma is_image_file_ends E p : ends E escaping (is_image_file w p).
Proof.
  intros st r st' H. destruct (is_image_file_run w p st) as (evs & _ & Hrun).
  rewrite H in Hrun. injection Hrun as -> ->.
  destruct (validation_error w (fs st) p) as [e |]; [| done].
  destruct (caught_by [UnidentifiedImageError; OSError] e) eqn:Hc; [done |].
  right. intros Hos%caught_by_validator. congruence.
Qed.

Lemma select_images_ends E d names : ends E escaping (select_images w d names).
Proof.
  induction names as [| f rest IH]; [apply ends_ret |].
  apply ends_bind; [apply is_image_file_ends | intros b].
  apply ends_bind; [apply IH | intros files; apply ends_ret].
Qed.

Lemma mapM_ends {A B} E R (f : A → M B) l :
  (∀ x, ends E R (f x)) → ends E R (mapM f l).
Proof.
  intros Hf. induction l as [| x l IH]; [apply ends_ret |].
  apply ends_bind; [apply Hf | intros y].
  apply ends_bind; [apply IH | intros ys; apply ends_ret].
Qed.

Lemma get_images_from_directory_ends E d :
  ends E escaping (get_images_from_directory w d).
Proof.
  apply ends_bind; [apply os_listdir_ends | intros names].
  apply ends_bind; [apply select_images_ends | intros files].
  apply ends_bind; [| intros keys; apply ends_ret].
  apply mapM_ends. intros x. apply os_path_getmtime_ends.
Qed.

Lemma check_relative_ends R imgs : ends (eq 1) R (check_relative imgs).
Proof.
  induction imgs as [| img rest IH]; [apply ends_ret |].
  cbn [check_relative]. destruct (isabs img); [| done].
  apply ends_bind; [apply ends_emit | intros _]. by apply ends_exit.
Qed.

(** The collector exits with status 1 only, on a usage error. *)
Lemma collect_ends a : ends (eq 1) escaping (collect w a).
Proof.
  unfold collect.
  assert (Hscan : ∀ d (line : nat → string),
    ends (eq 1) escaping
      (imgs ← get_images_from_directory w d;
       when (verbose a) (echo (line (length imgs)));; mret imgs)).
  { intros d line. apply ends_bind; [apply get_images_from_directory_ends | intros imgs].
    apply ends_bind; [apply ends_when, ends_emit | intros _; apply ends_ret]. }
  destruct (given (input_dir a)) as [d |]; destruct (images a) as [| first rest].
  - apply ends_bind; [apply ends_emit | intros _]. by apply ends_exit.
  - apply ends_bind; [apply check_relative_ends | intros _].
    destruct (String.eqb first "auto-stamp"); [| apply ends_ret].
    apply (Hscan d (fun n => "Найдено изображений в директории '" +:+ d +:+ "': "
                             +:+ pretty n)).
  - apply ends_bind; [apply ends_get_fs | intros m; apply ends_ret].
  - destruct (String.eqb first "auto-stamp").
    + apply (Hscan (w_cwd w) (fun n => "Найдено изображений в текущей директории: "
                                       +:+ pretty n)).
    + apply ends_bind; [apply ends_get_fs | intros m; apply ends_ret].
Qed.

(** The filter loop never exits. *)
Lemma validate_ends E v imgs acc : ends E escaping (validate w v imgs acc).
Proof.
  revert acc. induction imgs as [| p rest IH]; intros acc; [apply ends_ret |].
  cbn [validate]. apply ends_bind; [apply os_path_isfile_ends | intros is_file].
  destruct is_file; simpl.
  - apply ends_bind; [apply is_image_file_ends | intros is_image].
    destruct is_image; simpl; [apply IH |].
    apply ends_bind; [apply ends_when, ends_emit | intros _; apply IH].
  - apply ends_bind; [apply ends_when, ends_emit | intros _; apply IH].
Qed.

(** [process_image] returns or exits with status 1. *)
Lemma process_image_ends R p q : ends (eq 1) R (process_image w p q).
Proof.
  intros st r st' H. destruct (process_image_run w p q st) as (evs & _ & Hrun).
  rewrite H in Hrun. by destruct (transcode w (fs st) p q); injection Hrun as -> ->.
Qed.

Lemma process_all_ends R v q idx l acc : ends (eq 1) R (process_all w v q idx l acc).
Proof.
  revert idx acc. induction l as [| p rest IH]; intros idx acc; [apply ends_ret |].
  cbn [process_all]. apply ends_bind; [apply process_image_ends | intros img].
  destruct (image_truthy img); [| apply IH].
  apply ends_bind; [apply ends_when, ends_emit | intros _; apply IH].
Qed.

(** The [try] of lines 159-170 returns or exits with status 1. *)
Lemma assemble_ends R a v pages : ends (eq 1) R (assemble w a v pages).
Proof.
  intros s r st'. rewrite assemble_run.
  destruct (pdf_write w (fs s) (output a) pages); [| by intros [= <- <-]].
  destruct (remove_source a); [| by intros [= <- <-]].
  destruct (remove_all w v (saved_state w a pages s)) as [r2 s2] eqn:Hrem.
  destruct (remove_all_frame w _ _ _ _ Hrem) as ([-> | [e ->]] & _); by intros [= <- <-].
Qed.

Lemma proceed_ends R a v : ends (main_exit a) R (proceed w a v).
Proof.
  unfold proceed. destruct (dry_run a) eqn:Hdry.
  { apply ends_bind; [apply ends_emit | intros _].
    apply ends_bind; [| intros _; apply ends_exit; by right].
    intros st r st'. rewrite list_files_run. by intros [= <- <-]. }
  assert (H1 : ∀ c, 1 = c → main_exit a c) by (intros c <-; by left).
  apply ends_bind.
  { eapply ends_mono; [exact H1 | | apply (process_all_ends R)]. done. }
  intros [| img pages].
  { apply ends_bind; [apply ends_emit | intros _]. apply ends_exit. by left. }
  cbn zeta. apply ends_bind with (k := fun missing : bool => if missing then _ else _).
  { destruct (String.eqb _ ""); [apply ends_ret |].
    apply ends_bind; [apply os_path_exists_ends | intros b; apply ends_ret]. }
  intros [].
  - apply ends_bind; [apply ends_emit | intros _]. apply ends_exit. by left.
  - eapply ends_mono; [exact H1 | | apply (assemble_ends R)]. done.
Qed.

Lemma finish_ends R a v : ends (main_exit a) R (finish w a v).
Proof.
  intros st r st'. rewrite finish_run. destruct v as [| x v'].
  { intros [= <- <-]. by left. }
  apply proceed_ends.
Qed.

(** How [main] can end: an exit with status 1, or with 0 after a dry run,
    or an exception of the scan or the filter. *)
Lemma main_ends a : ends (main_exit a) escaping (main w a).
Proof.
  unfold main. apply ends_bind.
  { eapply ends_mono; [| | apply collect_ends]; [intros c <-; by left | done]. }
  intros [| i imgs].
  { apply ends_bind; [apply ends_emit | intros _]. apply ends_exit. by left. }
  apply ends_bind; [apply validate_ends | intros v]. apply finish_ends.
Qed.


End Ends.

(** X11. How the body of [main] ends, once click has accepted the
    command line and called it: when it calls [sys.exit], the status is 1,
    or 0 at the end of a dry run and nowhere else; and when it returns,
    [--dry-run] was not set and the PDF writer has been called
    successfully on at least one page. *)
Theorem X11_exits_and_returns_of_main (w : world) (a : args) (st : state)
    (r : result unit) (st' : state) :
  main w a st = (r, st') →
  match r with
  | Exit c => c = 1 ∨ (c = 0 ∧ dry_run a = true)
  | Val _ =>
      dry_run a = false ∧
      ∃ evs pages rest,
        pages ≠ [] ∧
        trace st' = trace st ++ evs ++ PdfSave (output a) pages true :: rest
  | Raise _ => True
  end.
Proof.
  intros Hmain. pose proof (main_ends w a _ _ _ Hmain) as Hend.
  destruct r as [[] | e | c]; [| done | exact Hend].
  destruct (main_cases w a st _ st' Hmain)
    as [(evs0 & _ & _ & Hr) | (v & pages & s & Hreach & Hasm)]; [done |].
  pose proof Hreach as (imgs & st0 & st1 & _ & _ & _ & Hdry & _).
  destruct (reaches_assembly_inv w a st v pages s Hreach) as ((evs & -> & _) & Hv & Hpg).
  split; [done |].
  destruct (assemble_events w a v pages _ _ st' Hasm) as (ok & rest & Ht & _ & Hok & _).
  exists evs, pages, rest. split.
  { intros ->. apply Forall2_length in Hpg. by destruct v. }
  simpl in Ht. rewrite <- app_assoc in Ht. rewrite Ht.
  destruct ok; [done |]. rewrite assemble_run in Hasm.
  destruct (pdf_write w (fs (after st evs)) (output a) pages); [| done].
  by destruct Hok as [_ Hok]; specialize (Hok eq_refl).
Qed.

Lemma X11_witness :
  match (main demo (demo_args ["a.png"] None "out.pdf" true false false)
           (start demo_fs)).1 with
  | Exit c =>
      c = 1 ∨ (c = 0 ∧ dry_run (demo_args ["a.png"] None "out.pdf" true false false) = true)
  | Val _ =>
      dry_run (demo_args ["a.png"] None "out.pdf" true false false) = false ∧
      ∃ evs pages rest,
        pages ≠ [] ∧
        trace (main demo (demo_args ["a.png"] None "out.pdf" true false false)
                 (start demo_fs)).2 =
          trace (start demo_fs) ++ evs ++ PdfSave "out.pdf" pages true :: rest
  | Raise _ => True
  end.
Proof.
  apply (X11_exits_and_returns_of_main demo
           (demo_args ["a.png"] None "out.pdf" true false false) (start demo_fs)).
  apply surjective_pairing.
Defined.



(** ** What [--verbose] changes *)

Section Verbose.
Context (w : world).

Lemma agree_ret {A} (x : A) : agree (mret x) (mret x).
Proof. by intros st1 st2 H. Qed.

Lemma agree_raise {A} e : agree (A := A) (raise e) (raise e).
Proof. by intros st1 st2 H. Qed.

Lemma agree_exit {A} c : agree (A := A) (sys_exit c) (sys_exit c).
Proof. by intros st1 st2 H. Qed.

Lemma agree_get_fs : agree get_fs get_fs.
Proof. intros st1 st2 [Hfs Ht]. unfold get_fs; simpl. by rewrite Hfs. Qed.

Lemma agree_put_fs m : agree (put_fs m) (put_fs m).
Proof. by intros st1 st2 [Hfs Ht]. Qed.

Lemma agree_emit e : agree (emit e) (emit e).
Proof.
  intros st1 st2 [Hfs Ht]. split; [done |]. split; [done |]. simpl.
  unfold calls in *. by rewrite !filter_app, Ht.
Qed.

(** Printing a line, or not, makes no difference. *)
Lemma agree_echo b1 b2 err1 err2 line1 line2 :
  agree (when b1 (emit (Echo err1 line1))) (when b2 (emit (Echo err2 line2))).
Proof.
  intros st1 st2 [Hfs Ht]. split; [by destruct b1, b2 |]. split.
  - by destruct b1, b2.
  - destruct b1, b2; simpl; unfold calls in *; rewrite ?filter_app; simpl;
      rewrite ?app_nil_r; done.
Qed.

Lemma agree_bind {A B} (m1 m2 : M A) (k1 k2 : A → M B) :
  agree m1 m2 → (∀ x, agree (k1 x) (k2 x)) → agree (m1 ≫= k1) (m2 ≫= k2).
Proof.
  intros Hm Hk st1 st2 Hs. rewrite !bind_run.
  destruct (Hm st1 st2 Hs) as [Hr Hs'].
  destruct (m1 st1) as [r1 s1], (m2 st2) as [r2 s2]. simpl in Hr, Hs'. subst r2.
  destruct r1 as [x | e | c]; [by apply Hk | done | done].
Qed.

Lemma agree_try {A} (m1 m2 : M A) ks (h1 h2 : exc → M A) :
  agree m1 m2 → (∀ e, agree (h1 e) (h2 e)) →
  agree (try_except m1 ks h1) (try_except m2 ks h2).
Proof.
  intros Hm Hh st1 st2 Hs. rewrite !try_run.
  destruct (Hm st1 st2 Hs) as [Hr Hs'].
  destruct (m1 st1) as [r1 s1], (m2 st2) as [r2 s2]. simpl in Hr, Hs'. subst r2.
  destruct r1 as [x | e | c]; [done | | done].
  destruct (caught_by ks e); [by apply Hh | done].
Qed.

End Verbose.

(** One step of an agreement derivation, following the shape of the
    program. *)
Ltac agree_step :=
  lazymatch goal with
  | |- agree (mret _) (mret _) => apply agree_ret
  | |- agree (raise _) (raise _) => apply agree_raise
  | |- agree (sys_exit _) (sys_exit _) => apply agree_exit
  | |- agree get_fs get_fs => apply agree_get_fs
  | |- agree (put_fs _) (put_fs _) => apply agree_put_fs
  | |- agree (emit _) (emit _) => apply agree_emit
  | |- agree (echo _) (echo _) => apply agree_emit
  | |- agree (echo_err _) (echo_err _) => apply agree_emit
  | |- agree (when _ (echo _)) (when _ (echo _)) => apply agree_echo
  | |- agree (when _ (echo_err _)) (when _ (echo_err _)) => apply agree_echo
  | |- agree (mbind _ _) (mbind _ _) => apply agree_bind; [| intros ?]
  | |- agree (try_except _ _ _) (try_except _ _ _) => apply agree_try; [| intros ?]
  end.

Section VerboseRuns.
Context (w : world).

Lemma agree_os_path_isfile p : agree (os_path_isfile w p) (os_path_isfile w p).
Proof. unfold os_path_isfile. repeat agree_step. Qed.

Lemma agree_os_path_exists p : agree (os_path_exists w p) (os_path_exists w p).
Proof. unfold os_path_exists. repeat agree_step. Qed.

Lemma agree_os_path_getmtime p : agree (os_path_getmtime w p) (os_path_getmtime w p).
Proof.
  unfold os_path_getmtime. repeat agree_step.
  destruct (stat w x p) as [[] |]; agree_step.
Qed.

Lemma agree_os_path_getsize p : agree (os_path_getsize w p) (os_path_getsize w p).
Proof.
  unfold os_path_getsize. repeat agree_step.
  destruct (stat w x p) as [n |]; agree_step.
Qed.

Lemma agree_os_listdir d : agree (os_listdir w d) (os_listdir w d).
Proof.
  unfold os_listdir. repeat agree_step.
  destruct (stat w x0 d) as [[] |]; agree_step.
Qed.

Lemma agree_os_remove p : agree (os_remove w p) (os_remove w p).
Proof.
  unfold os_remove. repeat agree_step.
  destruct (removal_error w x0 p); agree_step.
Qed.

Lemma agree_Image_open p : agree (Image_open w p) (Image_open w p).
Proof.
  unfold Image_open. repeat agree_step.
  destruct (read_file w x0 p) as [e | c]; [agree_step |].
  destruct (identify c) as [e | [fmt mode]]; agree_step.
Qed.

Lemma agree_Image_verify img : agree (Image_verify w img) (Image_verify w img).
Proof.
  unfold Image_verify. repeat agree_step.
  destruct (read_file w x (im_source img)) as [e | c]; [agree_step |].
  destruct (verify_of c); agree_step.
Qed.

Lemma agree_Image_convert img mode :
  agree (Image_convert w img mode) (Image_convert w img mode).
Proof. unfold Image_convert. destruct (w_convert w img mode); agree_step. Qed.

Lemma agree_jpeg_roundtrip img q :
  agree (jpeg_roundtrip w img q) (jpeg_roundtrip w img q).
Proof.
  unfold jpeg_roundtrip. repeat agree_step.
  destruct (w_jpeg_save w img q); [agree_step |].
  destruct (w_jpeg_open w img q); agree_step.
Qed.

Lemma agree_Image_save_pdf out pages :
  agree (Image_save_pdf w out pages) (Image_save_pdf w out pages).
Proof.
  unfold Image_save_pdf. repeat agree_step.
  destruct (pdf_write w x out pages) as [| e leftover]; repeat agree_step.
  destruct leftover; simpl; agree_step.
Qed.

Lemma agree_is_image_file p : agree (is_image_file w p) (is_image_file w p).
Proof.
  unfold is_image_file. agree_step; [| agree_step].
  agree_step; [apply agree_Image_open |].
  agree_step; [apply agree_Image_verify |].
  agree_step; [apply agree_Image_open | agree_step].
Qed.

Lemma agree_process_image p q : agree (process_image w p q) (process_image w p q).
Proof.
  unfold process_image. agree_step; [| repeat agree_step].
  unfold process_image_try.
  agree_step; [apply agree_Image_open |].
  agree_step; [destruct (bool_decide _); [apply agree_Image_convert | agree_step] |].
  agree_step; [destruct (bool_decide _); [apply agree_jpeg_roundtrip | agree_step] |].
  agree_step; [destruct (bool_decide _); [apply agree_Image_convert | agree_step] |].
  agree_step.
Qed.

Lemma agree_select_images d names :
  agree (select_images w d names) (select_images w d names).
Proof.
  induction names as [| f rest IH]; cbn [select_images]; [agree_step |].
  agree_step; [apply agree_is_image_file |].
  agree_step; [apply IH | agree_step].
Qed.

Lemma agree_mapM {A B} (f : A → M B) l :
  (∀ x, agree (f x) (f x)) → agree (mapM f l) (mapM f l).
Proof.
  intros Hf. induction l as [| x l IH]; cbn [mapM]; [agree_step |].
  agree_step; [apply Hf |]. agree_step; [apply IH | agree_step].
Qed.

Lemma agree_get_images_from_directory d :
  agree (get_images_from_directory w d) (get_images_from_directory w d).
Proof.
  unfold get_images_from_directory.
  agree_step; [apply agree_os_listdir |].
  agree_step; [apply agree_select_images |].
  agree_step; [apply agree_mapM; intros; apply agree_os_path_getmtime | agree_step].
Qed.

Lemma agree_check_relative imgs : agree (check_relative imgs) (check_relative imgs).
Proof.
  induction imgs as [| img rest IH]; cbn [check_relative]; [agree_step |].
  destruct (isabs img); [repeat agree_step | done].
Qed.

(** The collector lists and returns the same with and without
    [--verbose]. *)
Lemma agree_collect a b : agree (collect w a) (collect w (with_verbose a b)).
Proof.
  unfold collect. cbn [with_verbose input_dir images verbose].
  destruct (given (input_dir a)) as [d |]; destruct (images a) as [| first rest].
  - repeat agree_step.
  - agree_step; [apply agree_check_relative |].
    destruct (String.eqb first "auto-stamp"); [| agree_step].
    agree_step; [apply agree_get_images_from_directory |].
    agree_step; agree_step.
  - repeat agree_step.
  - destruct (String.eqb first "auto-stamp"); [| repeat agree_step].
    agree_step; [apply agree_get_images_from_directory |].
    agree_step; agree_step.
Qed.

Lemma agree_validate v1 v2 imgs acc :
  agree (validate w v1 imgs acc) (validate w v2 imgs acc).
Proof.
  revert acc. induction imgs as [| p rest IH]; intros acc; cbn [validate]; [agree_step |].
  agree_step; [apply agree_os_path_isfile |].
  destruct x; simpl.
  - agree_step; [apply agree_is_image_file |].
    destruct x; simpl; [apply IH |].
    agree_step; [agree_step | apply IH].
  - agree_step; [agree_step | apply IH].
Qed.

Lemma agree_list_files idx v : agree (list_files idx v) (list_files idx v).
Proof.
  revert idx. induction v as [| p rest IH]; intros idx; cbn [list_files]; [agree_step |].
  agree_step; [agree_step | apply IH].
Qed.

Lemma agree_process_all v1 v2 q idx l acc :
  agree (process_all w v1 q idx l acc) (process_all w v2 q idx l acc).
Proof.
  revert idx acc. induction l as [| p rest IH]; intros idx acc; cbn [process_all];
    [agree_step |].
  agree_step; [apply agree_process_image |].
  destruct (image_truthy x); [| apply IH].
  agree_step; [agree_step | apply IH].
Qed.

Lemma agree_remove_all l : agree (remove_all w l) (remove_all w l).
Proof.
  induction l as [| p rest IH]; cbn [remove_all]; [agree_step |].
  agree_step; [apply agree_os_remove | apply IH].
Qed.

Lemma agree_assemble a b v pages :
  agree (assemble w a v pages) (assemble w (with_verbose a b) v pages).
Proof.
  unfold assemble. cbn [with_verbose output remove_source].
  agree_step; [| repeat agree_step].
  agree_step; [apply agree_Image_save_pdf |].
  agree_step; [apply agree_os_path_getsize |].
  agree_step; [agree_step |].
  destruct (remove_source a); [| agree_step].
  agree_step; [apply agree_remove_all | agree_step].
Qed.

Lemma agree_proceed a b v : agree (proceed w a v) (proceed w (with_verbose a b) v).
Proof.
  unfold proceed. cbn [with_verbose dry_run verbose quality output].
  destruct (dry_run a).
  { agree_step; [agree_step |]. agree_step; [apply agree_list_files | agree_step]. }
  agree_step; [apply agree_process_all |].
  destruct x as [| img pages]; [repeat agree_step |].
  cbn zeta. agree_step.
  { destruct (String.eqb _ ""); [agree_step |].
    agree_step; [apply agree_os_path_exists | agree_step]. }
  destruct x; [repeat agree_step | apply agree_assemble].
Qed.

Lemma agree_finish a b v : agree (finish w a v) (finish w (with_verbose a b) v).
Proof.
  unfold finish. cbn [with_verbose verbose].
  agree_step; [agree_step |].
  destruct v as [| p v']; [repeat agree_step | apply agree_proceed].
Qed.

Lemma agree_main a b : agree (main w a) (main w (with_verbose a b)).
Proof.
  unfold main. agree_step; [apply agree_collect |].
  destruct x as [| i imgs]; [repeat agree_step |].
  cbn [with_verbose verbose].
  agree_step; [apply agree_validate | apply agree_finish].
Qed.

End VerboseRuns.

(** X13. [--verbose] changes what is printed and nothing else: from one
    starting state, the run with the flag set to [b] ends as the run on
    [a] does (same return, exit status or exception), leaves the same
    file system, and has made the same calls of the operating system and
    of Pillow in the same order. *)
Theorem X13_verbose_only_prints (w : world) (a : args) (b : bool) (st : state) :
  (main w (with_verbose a b) st).1 = (main w a st).1 ∧
  fs (main w (with_verbose a b) st).2 = fs (main w a st).2 ∧
  calls (trace (main w (with_verbose a b) st).2) = calls (trace (main w a st).2).
Proof.
  destruct (agree_main w a b st st) as (Hr & Hfs & Ht); [by split |].
  by rewrite Hr, Hfs, Ht.
Qed.

(** ** The progress lines of the transcoding loop *)

Section PageLines.
Context (w : world).

Lemma process_all_lines v q idx l acc st pages s :
  process_all w v q idx l acc st = (Val pages, s) →
  ∃ evs, s = after st evs ∧
    echoes evs =
      if v then imap (fun i p => (false, "Страница " +:+ pretty (idx + i)%nat
                                           +:+ " --- " +:+ p)) l
      else [].
Proof.
  revert idx acc st. induction l as [| p rest IH]; intros idx acc st.
  { intros [= _ <-]. exists []. rewrite after_nil. by destruct v. }
  cbn [process_all]. rewrite bind_run.
  destruct (process_image w p q st) as [[img | e | c] st1] eqn:Himg; [| done | done].
  apply process_image_val in Himg
    as (f & mode & _ & src & _ & mid & _ & -> & _).
  cbn [image_truthy]. rewrite bind_run.
  set (opens := ImageOpen p :: (if bool_decide (q ≠ 0) then [JpegEncode src q] else [])).
  assert (Hopens : echoes opens = []).
  { unfold opens. by destruct (bool_decide (q ≠ 0)). }
  destruct v; unfold when.
  - unfold echo. rewrite emit_run, after_after.
    intros (evs & -> & Hevs)%IH. eexists. rewrite after_after. split; [done |].
    rewrite !echoes_app, Hopens, Hevs. cbn [imap app echoes omap list_omap].
    rewrite Nat.add_0_r. f_equal. apply imap_ext. intros i x _. simpl.
    by rewrite Nat.add_succ_r.
  - unfold mret at 1, M_ret at 1.
    intros (evs & -> & Hevs)%IH. eexists. rewrite after_after. split; [done |].
    by rewrite echoes_app, Hopens, Hevs.
Qed.

End PageLines.

(** X14. A transcoding loop that runs to its end prints, with
    [--verbose], one line per validated path on standard output,
    "Страница i --- path" with [i] counting from 1 in the order of the
    paths, and nothing else; without [--verbose] it prints nothing. *)
Theorem X14_page_lines (w : world) (v : bool) (q : Z) (l : list string)
    (st : state) (pages : list image) (s : state) :
  process_all w v q 1 l [] st = (Val pages, s) →
  ∃ evs, s = after st evs ∧
    echoes evs =
      if v then imap (fun i p => (false, "Страница " +:+ pretty (S i) +:+ " --- " +:+ p)) l
      else [].
Proof. apply process_all_lines. Qed.

Lemma X14_witness :
  ∃ evs,
    (process_all demo true 80 1 ["scans/p1.png"; "scans/p2.jpg"] [] (start demo_fs)).2 =
      after (start demo_fs) evs ∧
    echoes evs =
      if true
      then imap (fun i p => (false, "Страница " +:+ pretty (S i) +:+ " --- " +:+ p))
             ["scans/p1.png"; "scans/p2.jpg"]
      else [].
Proof.
  apply (X14_page_lines demo true 80 ["scans/p1.png"; "scans/p2.jpg"] (start demo_fs)
           [Recoded 80 "RGB" (Opened "scans/p1.png" (Some "PNG") "RGB");
            Converted "RGB" (Recoded 80 "L" (Opened "scans/p2.jpg" (Some "JPEG") "L"))]).
  vm_compute. reflexivity.
Defined.

(** ** When the removal of the sources completes *)

Section RemovalCompletes.
Context (w : world).

(** A path that is not there stops the removal loop. *)
Lemma remove_all_missing l st q :
  q ∈ l → stat w (fs st) q = None → (remove_all w l st).1 ≠ Val tt.
Proof.
  revert st. induction l as [| p rest IH]; intros st Hq Hst.
  { by apply elem_of_nil in Hq. }
  cbn [remove_all]. rewrite bind_run, os_remove_run.
  destruct (removal_error w (fs st) p) as [e |] eqn:Herr; [done |].
  apply elem_of_cons in Hq as [-> | Hq].
  { unfold removal_error in Herr. by rewrite Hst in Herr. }
  apply IH; [done |]. simpl. unfold stat in *.
  destruct (String.eqb q ""); [done |]. by apply lookup_delete_None; right.
Qed.

(** On regular files, the removal loop completes when and only when the
    paths are pairwise distinct and none is refused. *)
Lemma remove_all_completes l st :
  Forall (fun p => isfile w (fs st) p = true) l →
  (remove_all w l st).1 = Val tt ↔
  NoDup (map (w_abspath w) l) ∧
  Forall (fun p => w_remove_denied w (w_abspath w p) = None) l.
Proof.
  revert st. induction l as [| p rest IH]; intros st Hfiles.
  { split; [intros _; split; constructor | done]. }
  apply Forall_cons in Hfiles as [Hp Hrest].
  cbn [remove_all map]. rewrite bind_run, os_remove_run.
  assert (Herr : removal_error w (fs st) p = w_remove_denied w (w_abspath w p)).
  { unfold removal_error. unfold isfile in Hp. by destruct (stat w (fs st) p) as [[] |]. }
  rewrite Herr. rewrite NoDup_cons, Forall_cons.
  destruct (w_remove_denied w (w_abspath w p)) as [e |] eqn:Hden.
  { split; [done | by intros (_ & [=] & _)]. }
  set (st1 := {| fs := delete (w_abspath w p) (fs st); trace := trace st ++ [Remove p] |}).
  destruct (decide (w_abspath w p ∈ map (w_abspath w) rest)) as [Hin | Hnin].
  - split; [| by intros ((Hn & _) & _)].
    intros Hval. exfalso.
    apply list_elem_of_fmap in Hin as (q & Hq & Hqin).
    apply (remove_all_missing rest st1 q Hqin); [| done].
    simpl. unfold stat. destruct (String.eqb q ""); [done |].
    rewrite <- Hq. apply lookup_delete_eq.
  - rewrite (IH st1).
    + tauto.
    + apply Forall_forall. intros q Hq. rewrite Forall_forall in Hrest.
      specialize (Hrest q Hq). simpl. unfold isfile, stat in *.
      destruct (String.eqb q ""); [done |].
      rewrite lookup_delete_ne; [done |].
      intros Heq. apply Hnin. rewrite Heq. by apply list_elem_of_fmap_2.
Qed.

(** What the filter loop keeps has passed [os.path.isfile]. *)
Lemma validate_files v imgs acc st l st1 :
  validate w v imgs acc st = (Val l, st1) →
  Forall (fun p => isfile w (fs st) p = true) acc →
  Forall (fun p => isfile w (fs st) p = true) l ∧ fs st1 = fs st.
Proof.
  revert acc st. induction imgs as [| p rest IH]; intros acc st.
  { by intros [= <- <-]. }
  cbn [validate]. rewrite bind_run, os_path_isfile_run.
  assert (Hskip : ∀ line,
    (when v (echo_err line);; validate w v rest acc) st = (Val l, st1) →
    Forall (fun p => isfile w (fs st) p = true) acc →
    Forall (fun p => isfile w (fs st) p = true) l ∧ fs st1 = fs st).
  { intros line. rewrite bind_run. destruct v; unfold when.
    - unfold echo_err. rewrite emit_run. intros H Hacc. by apply IH in H.
    - apply IH. }
  destruct (isfile w (fs st) p) eqn:Hp; simpl; [| apply Hskip].
  rewrite bind_run.
  destruct (is_image_file w p st) as [[b | e | c] st2] eqn:Himg; [| done | done].
  destruct (is_image_file_run w p st) as (evs & _ & Hrun). rewrite Himg in Hrun.
  injection Hrun as _ ->.
  destruct b; simpl.
  - intros H Hacc. apply IH in H; [done |]. simpl.
    apply Forall_app. split; [done | by repeat constructor].
  - intros H Hacc. rewrite bind_run in H. destruct v; unfold when in H.
    + unfold echo_err in H. rewrite emit_run, after_after in H. by apply IH in H.
    + by apply IH in H.
Qed.

End RemovalCompletes.

(** X15. With [-r], after a successful write the run returns normally
    when and only when the validated paths are pairwise distinct as
    absolute paths and the removal of none of them is refused: a path
    given twice (or under two spellings) makes the second removal fail, and
    the run then reports a failure although the PDF was written. *)
Theorem X15_removal_completes (w : world) (a : args) (st0 : state)
    (v : list string) (pages : list image) (s : state) :
  reaches_assembly w a st0 v pages s →
  remove_source a = true →
  pdf_write w (fs st0) (output a) pages = Saved →
  (main w a st0).1 = Val tt ↔
  NoDup (map (w_abspath w) v) ∧
  Forall (fun p => w_remove_denied w (w_abspath w p) = None) v.
Proof.
  intros Hreach Hrm Hw.
  destruct (reaches_assembly_inv w a st0 v pages s Hreach) as ((evs & -> & _) & _ & _).
  rewrite (main_reaches_assembly w a st0 v pages _ Hreach), assemble_run. simpl.
  rewrite Hw, Hrm.
  assert (Hfiles : Forall (fun p => isfile w (fs st0) p = true) v).
  { destruct Hreach as (imgs & st & st1 & Hcol & Hval & _).
    destruct (collect_footprint w a _ _ _ Hcol) as (evs1 & -> & _).
    by apply validate_files in Hval as [Hval _]. }
  rewrite <- (remove_all_completes w v (saved_state w a pages (after st0 evs))).
  - destruct (remove_all w v (saved_state w a pages (after st0 evs))) as [r2 s2] eqn:Hrem.
    destruct (remove_all_frame w _ _ _ _ Hrem) as ([-> | [e ->]] & _); by simpl.
  - eapply Forall_impl; [exact Hfiles |]. intros p Hp. simpl.
    unfold written, isfile, stat in *. destruct (String.eqb p ""); [done |].
    destruct (decide (w_abspath w (output a) = w_abspath w p)) as [-> | Hne].
    + by rewrite lookup_insert_eq.
    + by rewrite lookup_insert_ne.
Qed.

Lemma X15_witness :
  (main demo (demo_args ["a.png"; "scans/p1.png"] None "out.pdf" false true false)
     (start demo_fs)).1 = Val tt ↔
  NoDup (map (w_abspath demo) ["/home/u/a.png"; "/home/u/scans/p1.png"]) ∧
  Forall (fun p => w_remove_denied demo (w_abspath demo p) = None)
    ["/home/u/a.png"; "/home/u/scans/p1.png"].
Proof.
  refine (X15_removal_completes demo
            (demo_args ["a.png"; "scans/p1.png"] None "out.pdf" false true false)
            (start demo_fs) ["/home/u/a.png"; "/home/u/scans/p1.png"]
            [Recoded 80 "RGB" (Converted "RGB" (Opened "/home/u/a.png" (Some "PNG") "RGBA"));
             Recoded 80 "RGB" (Opened "/home/u/scans/p1.png" (Some "PNG") "RGB")]
            (process_all demo false 80 1 ["/home/u/a.png"; "/home/u/scans/p1.png"] []
               (validate demo false ["/home/u/a.png"; "/home/u/scans/p1.png"] []
                  (start demo_fs)).2).2 _ _ _).
  - exists ["/home/u/a.png"; "/home/u/scans/p1.png"], (start demo_fs),
      (validate demo false ["/home/u/a.png"; "/home/u/scans/p1.png"] []
         (start demo_fs)).2.
    split_and!; try (vm_compute; reflexivity). discriminate.
  - reflexivity.
  - vm_compute. reflexivity.
Defined.

(** ** The collector with a base directory *)

(** X16. With [-d] and relative names of which the first is not the
    sentinel, the collector returns every name joined to the directory,
    in the order given, whether the file exists or not, and does nothing
    else: unlike the collector without [-d], it does not drop the names
    that are not regular files, which are left to the filter loop. *)
Theorem X16_names_joined_to_input_dir (w : world) (a : args) (st : state) (d : string) :
  given (input_dir a) = Some d →
  images a ≠ [] →
  sentinel_first (images a) = false →
  Forall (fun p => isabs p = false) (images a) →
  collect w a st = (Val (map (join d) (images a)), st).
Proof.
  intros Hd Hne Hs Hrel. unfold collect. rewrite Hd.
  destruct (images a) as [| first rest] eqn:Himgs; [done |].
  rewrite bind_run, (check_relative_ok _ _ Hrel). simpl in Hs. by rewrite Hs.
Qed.

Lemma X16_witness :
  collect demo (demo_args ["p1.png"; "missing.png"] (Some "scans") "out.pdf" false false true)
    (start demo_fs) =
  (Val (map (join "scans") ["p1.png"; "missing.png"]), start demo_fs).
Proof.
  apply (X16_names_joined_to_input_dir demo
           (demo_args ["p1.png"; "missing.png"] (Some "scans") "out.pdf" false false true)
           (start demo_fs) "scans").
  - reflexivity.
  - discriminate.
  - reflexivity.
  - repeat constructor.
Defined.

(** The filter loop on paths that are not regular files. *)
Lemma validate_no_files w v (l acc : list string) st :
  Forall (fun p => isfile w (fs st) p = false) l →
  validate w v l acc st =
  (Val acc,
   after st (if v then map (fun p => Echo true ("Файл не найден: " +:+ p)) l else [])).
Proof.
  revert st. induction l as [| p rest IH]; intros st Hl.
  { rewrite validate_nil. destruct v; by rewrite after_nil. }
  apply Forall_cons in Hl as [Hp Hrest].
  cbn [validate]. rewrite bind_run, os_path_isfile_run, Hp. simpl.
  rewrite bind_run. destruct v; unfold when.
  - unfold echo_err. rewrite emit_run, IH by done. by rewrite after_after.
  - unfold mret at 1, M_ret at 1. by rewrite IH.
Qed.

(** X17. With [-d], names that are not regular files in the directory
    are dropped by the filter loop, not by the collector: when none of
    the names is one, the run ends with exit status 1 after printing,
    with [--verbose], one line "Файл не найден" per name, on standard
    error and with the joined path, then the count of zero files, and in
    any case the line "no valid images". *)
Theorem X17_missing_files_with_input_dir (w : world) (a : args) (st : state) (d : string) :
  given (input_dir a) = Some d →
  images a ≠ [] →
  sentinel_first (images a) = false →
  Forall (fun p => isabs p = false) (images a) →
  Forall (fun p => isfile w (fs st) (join d p) = false) (images a) →
  main w a st =
  (Exit 1,
   after st ((if verbose a
              then map (fun p => Echo true ("Файл не найден: " +:+ join d p)) (images a)
              else [])
             ++ validation_report a [] ++ [no_valid_images])).
Proof.
  intros Hd Hne Hs Hrel Hnone. unfold main.
  assert (Hcol : collect w a st = (Val (map (join d) (images a)), st)).
  { unfold collect. rewrite Hd.
    destruct (images a) as [| first rest] eqn:Himgs; [done |].
    rewrite bind_run, (check_relative_ok _ _ Hrel). simpl in Hs. by rewrite Hs. }
  rewrite bind_run, Hcol.
  destruct (map (join d) (images a)) as [| i imgs] eqn:Hmap.
  { by destruct (images a). }
  rewrite bind_run, <- Hmap, validate_no_files.
  2:{ apply Forall_map. exact Hnone. }
  rewrite finish_run, after_after. f_equal. f_equal. f_equal.
  destruct (verbose a); [| done]. by rewrite map_map.
Qed.

Lemma X17_witness :
  main demo (demo_args ["missing.png"; "scans"] (Some "scans") "out.pdf" false false true)
    (start demo_fs) =
  (Exit 1,
   after (start demo_fs)
     ((if verbose (demo_args ["missing.png"; "scans"] (Some "scans") "out.pdf"
                     false false true)
       then map (fun p => Echo true ("Файл не найден: " +:+ join "scans" p))
              (images (demo_args ["missing.png"; "scans"] (Some "scans") "out.pdf"
                         false false true))
       else [])
      ++ validation_report
           (demo_args ["missing.png"; "scans"] (Some "scans") "out.pdf" false false true) []
      ++ [no_valid_images])).
Proof.
  apply (X17_missing_files_with_input_dir demo
           (demo_args ["missing.png"; "scans"] (Some "scans") "out.pdf" false false true)
           (start demo_fs) "scans").
  - reflexivity.
  - discriminate.
  - reflexivity.
  - repeat constructor.
  - repeat constructor.
Defined.
